(** * AnyScope: frame analysis and scope rendering (scopes.js, app.js)

    A shallow embedding of the [VideoScopes] class of [scopes.js] and of the
    parts of [app.js] that drive it, together with the properties stated
    about them in the specification.

    Conventions of the embedding.
    - A JavaScript Number that can carry a fraction is a primitive [float]:
      IEEE 754 binary64 with round-to-nearest-even, which is the arithmetic
      of JavaScript.  Decimal literals are parsed to the nearest double, as
      the JavaScript parser does.
    - A Number that only ever holds an integer (a dimension, an index, a
      counter) is a [nat] or a [Z].  Doubles are exact on integers below
      2^53, and an [ImageData] has fewer than 2^53 pixels.
    - [data[i]] past the end of a typed array is [undefined]: [None].
    - A JavaScript [Array] holds fewer than 2^32 elements: [new Array(n)]
      with [n] at 2^32 or above, and a [push] that would pass that length,
      throw a RangeError.  The lists that stand for arrays have no such
      limit, so they model the arrays of images whose width and column
      lengths stay below it; a statement about declared dimensions that no
      image has carries the limit as a hypothesis.
    - A method that can throw returns a [completion]. *)

From Stdlib Require Import ZArith Lia Bool Floats Uint63.
From Stdlib Require Import Reals Lra.
From Stdlib.Strings Require Import Byte.
From stdpp Require Import base tactics option list numbers.

Set Warnings "-inexact-float".
#[local] Open Scope Z_scope.

(** * The program *)

(** ** Completions: normal return or a thrown exception *)

Inductive js_error := TypeError | RangeError.

Inductive completion (A : Type) :=
  | Normal (a : A)
  | Throw (e : js_error).
Arguments Normal {A} a.
Arguments Throw {A} e.

Definition bind {A B} (c : completion A) (k : A → completion B) : completion B :=
  match c with
  | Normal a => k a
  | Throw e => Throw e
  end.

Notation "'do' x <- c ; k" := (bind c (fun x => k))
  (at level 10, x name, c at level 100, k at level 200).

(** [for (let i = from; i < from + count; i++) s = body(i, s)] *)
Fixpoint for_loop {St : Type} (from count : nat)
    (body : nat → St → completion St) (s : St) : completion St :=
  match count with
  | O => Normal s
  | S count' => do s' <- body from s; for_loop (S from) count' body s'
  end.

(** ** JavaScript numbers *)

Module JS.

(** The value of [Math.floor] or [Math.round]: an integer, or one of the
    three non-finite Numbers.  The sign of a zero result is dropped: no
    consumer in this program can see it. *)
Inductive integral :=
  | Int (z : Z)
  | NaN
  | PosInf
  | NegInf.

(** floor of [(-1)^s * m * 2^e] *)
Definition floor_finite (s : bool) (m : positive) (e : Z) : Z :=
  Z.shiftl (cond_Zopp s (Zpos m)) e.

(** floor of [(-1)^s * m * 2^e + 1/2] *)
Definition round_finite (s : bool) (m : positive) (e : Z) : Z :=
  if 0 <=? e then Z.shiftl (cond_Zopp s (Zpos m)) e
  else (2 * cond_Zopp s (Zpos m) + 2 ^ (- e)) / 2 ^ (1 - e).

Definition Math_floor (x : float) : integral :=
  match Prim2SF x with
  | S754_nan => NaN
  | S754_infinity s => if s then NegInf else PosInf
  | S754_zero _ => Int 0
  | S754_finite s m e => Int (floor_finite s m e)
  end.

(** [Math.round]: the nearest integer, a tie going towards +infinity *)
Definition Math_round (x : float) : integral :=
  match Prim2SF x with
  | S754_nan => NaN
  | S754_infinity s => if s then NegInf else PosInf
  | S754_zero _ => Int 0
  | S754_finite s m e => Int (round_finite s m e)
  end.

(** [Math.min(a, b)] *)
Definition Math_min (a b : float) : float :=
  if (PrimFloat.is_nan a || PrimFloat.is_nan b)%bool then PrimFloat.nan
  else if (a <? b)%float then a
  else if (b <? a)%float then b
  else if PrimFloat.get_sign a then a else b.

(** An integer-valued Number as a double: exact for a magnitude below
    2^53, correctly rounded below 2^63.  Every integer this program turns
    into a double is a channel value, a counter, an index or a dimension. *)
Definition number (z : Z) : float :=
  if z <? 0 then (- PrimFloat.of_uint63 (Uint63.of_Z (- z)))%float
  else PrimFloat.of_uint63 (Uint63.of_Z z).

(** The double an [integral] stands for *)
Definition to_float (a : integral) : float :=
  match a with
  | Int z => number z
  | NaN => PrimFloat.nan
  | PosInf => PrimFloat.infinity
  | NegInf => PrimFloat.neg_infinity
  end.

(** Storing into a [Uint8ClampedArray]: clamp to [[0, 255]], NaN becomes 0 *)
Definition to_uint8_clamped (a : integral) : Z :=
  match a with
  | Int z => Z.max 0 (Z.min 255 z)
  | NaN => 0
  | PosInf => 255
  | NegInf => 0
  end.

(** [ToNumber] of an element read from a [Uint8ClampedArray] *)
Definition to_number (c : option byte) : float :=
  match c with
  | Some v => number (Z.of_N (Byte.to_N v))
  | None => PrimFloat.nan
  end.

(** The array index a property key denotes, if any.  An integer in
    [0, 2^32 - 2] is an index; every other Number, and [undefined], names
    an ordinary property. *)
Definition index_of_integral (k : integral) : option nat :=
  match k with
  | Int z => if ((0 <=? z) && (z <? 2 ^ 32 - 1))%bool then Some (Z.to_nat z) else None
  | _ => None
  end.

Definition index_of_channel (c : option byte) : option nat :=
  match c with
  | Some v => Some (N.to_nat (Byte.to_N v))
  | None => None
  end.

(** Comparisons of an [integral] with an integer; all false on [NaN]. *)
Definition ge (a : integral) (n : Z) : bool :=
  match a with
  | Int z => n <=? z
  | PosInf => true
  | _ => false
  end.

Definition lt (a : integral) (n : Z) : bool :=
  match a with
  | Int z => z <? n
  | NegInf => true
  | _ => false
  end.

(** [a + d] for a small integer [d].  On an integer of magnitude 2^53 or
    more the double sum may differ from the exact one; such a value is far
    outside every range this program compares it with. *)
Definition plus (a : integral) (d : Z) : integral :=
  match a with
  | Int z => Int (z + d)
  | other => other
  end.

End JS.

(** ** Arrays of the analyzer *)

(** An element of a JavaScript [Array] of counters.  [new Array(256).fill(0)]
    holds [Count 0] everywhere; writing past the end leaves holes. *)
Inductive slot :=
  | Count (n : nat)
  | NotANumber
  | Hole.

(** [s++] stored back *)
Definition incr_slot (s : slot) : slot :=
  match s with
  | Count n => Count (S n)
  | NotANumber | Hole => NotANumber
  end.

(** [a[k]++] on an [Array].  A key that is no index creates an ordinary
    property and leaves the elements alone; an index past the end extends
    the array and stores [undefined + 1], which is NaN. *)
Definition incr_at (k : option nat) (a : list slot) : list slot :=
  match k with
  | None => a
  | Some i =>
      if (i <? length a)%nat then alter incr_slot i a
      else a ++ replicate (i - length a) Hole ++ [NotANumber]
  end.

(** [cols[x].push(v)].  [cols[x]] is [undefined] when [x] is out of range,
    and calling [push] on it throws. *)
Definition push_at {A} (x : nat) (v : A) (cols : list (list A)) : completion (list (list A)) :=
  match cols !! x with
  | Some _ => Normal (alter (fun c => c ++ [v]) x cols)
  | None => Throw TypeError
  end.

(** [new Array(n).fill(null).map(() => [])], for a length [n] below 2^32 *)
Definition empty_columns {A} (n : nat) : list (list A) := replicate n [].

(** ** The datasets derived from a frame *)

Abbreviation channel := (option byte).

Record color_point := ColorPoint {
  cb : float;
  cr : float;
  point_r : channel;
  point_g : channel;
  point_b : channel
}.

Record rgb_columns := RgbColumns {
  columns_r : list (list channel);
  columns_g : list (list channel);
  columns_b : list (list channel)
}.

Record histogram_data := Histogram {
  hist_r : list slot;
  hist_g : list slot;
  hist_b : list slot;
  hist_lum : list slot
}.

Record scope_data := ScopeData {
  luminance : list (list JS.integral);
  rgbColumns : rgb_columns;
  colorPoints : list color_point;
  histogram : histogram_data
}.

(** ** [calculateScopeData] *)

Section Analyzer.
#[local] Open Scope nat_scope.
#[local] Open Scope float_scope.

(** Rec. 709 luminance of one pixel, as the loop body computes it *)
Definition pixel_luminance (r g b : channel) : JS.integral :=
  JS.Math_round (0.2126 * JS.to_number r + 0.7152 * JS.to_number g + 0.0722 * JS.to_number b).

Definition pixel_cb (r g b : channel) : float :=
  128 + (-0.168736 * JS.to_number r - 0.331264 * JS.to_number g + 0.5 * JS.to_number b).

Definition pixel_cr (r g b : channel) : float :=
  128 + (0.5 * JS.to_number r - 0.418688 * JS.to_number g - 0.081312 * JS.to_number b).

(** The vector sample budget, the literal [50000] of the source *)
Definition sample_budget : nat := Z.to_nat 50000.

(** [Math.max(1, Math.floor((width * height) / 50000))] *)
Definition vectorSampleRate (width height : nat) : nat :=
  Nat.max 1 ((width * height) / sample_budget)%nat.

Definition initial_scope_data (width : nat) : scope_data :=
  {| luminance := empty_columns width;
     rgbColumns := {| columns_r := empty_columns (width / 3);
                      columns_g := empty_columns (width / 3);
                      columns_b := empty_columns (width / 3) |};
     colorPoints := [];
     histogram := {| hist_r := replicate 256 (Count 0);
                     hist_g := replicate 256 (Count 0);
                     hist_b := replicate 256 (Count 0);
                     hist_lum := replicate 256 (Count 0) |} |}.

(** The body of the two nested loops, for the pixel at column [x] of row [y] *)
Definition pixel_step (data : list byte) (width : nat) (rate : nat)
    (y x : nat) (st : scope_data) : completion scope_data :=
  let i := ((y * width + x) * 4)%nat in
  let r := data !! i in
  let g := data !! (i + 1)%nat in
  let b := data !! (i + 2)%nat in
  let lum := pixel_luminance r g b in
  do luminanceColumns <- push_at x lum (luminance st);
  let paradeWidth := (width / 3)%nat in
  let paradeX := (x / 3)%nat in
  do rgb <-
    (if (paradeX <? paradeWidth)%nat then
       do cr_ <- push_at paradeX r (columns_r (rgbColumns st));
       do cg_ <- push_at paradeX g (columns_g (rgbColumns st));
       do cb_ <- push_at paradeX b (columns_b (rgbColumns st));
       Normal {| columns_r := cr_; columns_g := cg_; columns_b := cb_ |}
     else Normal (rgbColumns st));
  let points :=
    if ((y * width + x) mod rate =? 0)%nat then
      colorPoints st ++
        [ {| cb := pixel_cb r g b; cr := pixel_cr r g b;
             point_r := r; point_g := g; point_b := b |} ]
    else colorPoints st in
  let h := histogram st in
  Normal {| luminance := luminanceColumns;
            rgbColumns := rgb;
            colorPoints := points;
            histogram :=
              {| hist_r := incr_at (JS.index_of_channel r) (hist_r h);
                 hist_g := incr_at (JS.index_of_channel g) (hist_g h);
                 hist_b := incr_at (JS.index_of_channel b) (hist_b h);
                 hist_lum := incr_at (JS.index_of_integral lum) (hist_lum h) |} |}.

Definition calculateScopeData (data : list byte) (width height : nat)
    : completion scope_data :=
  let rate := vectorSampleRate width height in
  for_loop 0 height
    (fun y => for_loop 0 width (fun x => pixel_step data width rate y x))
    (initial_scope_data width).

End Analyzer.

(** ** [analyze] and the analysis cycle of [app.js] *)

Record ImageData := {
  image_data : list byte;
  image_width : nat;
  image_height : nat
}.

(** The renderer calls a cycle makes, with their arguments *)
Inductive render_call :=
  | RenderWaveform (luminanceColumns : list (list JS.integral)) (srcWidth srcHeight : nat)
  | RenderParade (columns : rgb_columns) (srcWidth srcHeight : nat)
  | RenderVectorscope (points : list color_point)
  | RenderHistogram (h : histogram_data).

(** [analyze(imageData)]: the calls it makes, in order *)
Definition analyze (imageData : ImageData) : completion (list render_call) :=
  let data := image_data imageData in
  let width := image_width imageData in
  let height := image_height imageData in
  do analysis <- calculateScopeData data width height;
  Normal [ RenderWaveform (luminance analysis) width height;
           RenderParade (rgbColumns analysis) width height;
           RenderVectorscope (colorPoints analysis);
           RenderHistogram (histogram analysis) ].

Inductive scope := Waveform | Parade | Vectorscope | HistogramScope.

Definition scope_eqb (a b : scope) : bool :=
  match a, b with
  | Waveform, Waveform | Parade, Parade
  | Vectorscope, Vectorscope | HistogramScope, HistogramScope => true
  | _, _ => false
  end.

(** The part of the [AnyScope] object the cycle and the toggles touch.
    [container_hidden s] is whether [scopeContainers[s]] carries the CSS
    class [hidden]. *)
Record AnyScope := {
  isCapturing : bool;
  container_hidden : scope → bool
}.

(** The [change] listener [initScopeToggles] installs on the checkbox of
    [scopeKey]: [classList.toggle('hidden', !e.target.checked)] *)
Definition on_toggle_change (scopeKey : scope) (checked : bool) (app : AnyScope) : AnyScope :=
  {| isCapturing := isCapturing app;
     container_hidden := fun s =>
       if scope_eqb scopeKey s then negb checked else container_hidden app s |}.

(** One run of [analyzeFrame].  [frame] is the image read back from the
    capture canvas, or [None] while the video has no current data. *)
Definition analyzeFrame (app : AnyScope) (frame : option ImageData)
    : completion (list render_call) :=
  if isCapturing app then
    match frame with
    | Some imageData => analyze imageData
    | None => Normal []
    end
  else Normal [].

(** ** The renderers: intensity maps *)

Section IntensityMaps.
#[local] Open Scope Z_scope.

(** [new Uint32Array(n)] *)
Definition new_intensity_map (n : nat) : list Z := replicate n 0.

(** [c++] on an element of a [Uint32Array] *)
Definition incr_counter (c : Z) : Z := (c + 1) mod 2 ^ 32.

(** [if (y >= 0 && y < height && x >= 0 && x < width) intensityMap[y * width + x]++] *)
Definition plot_point (width height : nat) (x y : JS.integral) (map : list Z) : list Z :=
  if JS.ge y 0 && JS.lt y (Z.of_nat height) && JS.ge x 0 && JS.lt x (Z.of_nat width) then
    match y, x with
    | JS.Int yz, JS.Int xz => alter incr_counter (Z.to_nat (yz * Z.of_nat width + xz)) map
    | _, _ => map
    end
  else map.

(** [Math.floor((col / columnCount) * width)] *)
Definition plot_x (col columnCount width : nat) : JS.integral :=
  JS.Math_floor
    ((JS.number (Z.of_nat col) / JS.number (Z.of_nat columnCount))
     * JS.number (Z.of_nat width))%float.

(** [Math.floor(height - 1 - (v / 255) * (height - 1))] *)
Definition plot_y (height : nat) (v : float) : JS.integral :=
  JS.Math_floor
    (JS.number (Z.of_nat height) - 1 - (v / 255) * (JS.number (Z.of_nat height) - 1))%float.

(** The inner loop of [renderWaveform] and [renderParade] over the values
    of one column *)
Definition plot_column (width height columnCount col : nat) (values : list float)
    (map : list Z) : list Z :=
  fold_left
    (fun m v => plot_point width height (plot_x col columnCount width) (plot_y height v) m)
    values map.

(** The outer loop over the columns *)
Definition plot_columns (width height : nat) (columns : list (list float)) : list Z :=
  fold_left
    (fun m col =>
       match columns !! col with
       | Some values => plot_column width height (length columns) col values m
       | None => m
       end)
    (seq 0 (length columns))
    (new_intensity_map (width * height)).

(** The intensity map of [renderWaveform] on a canvas of the given size *)
Definition waveform_intensity (width height : nat)
    (luminanceColumns : list (list JS.integral)) : list Z :=
  plot_columns width height (List.map (List.map JS.to_float) luminanceColumns).

(** The intensity map of one channel of [renderParade]; [width] is the
    canvas width, a channel being [floor(width / 3)] wide *)
Definition parade_intensity (width height : nat)
    (channelData : list (list channel)) : list Z :=
  plot_columns (width / 3) height (List.map (List.map JS.to_number) channelData).

(** The plot position of a sample on a vectorscope canvas of side [size] *)
Definition vectorscope_x (size : nat) (point : color_point) : float :=
  let center := (JS.number (Z.of_nat size) / 2)%float in
  let radius := (JS.number (Z.of_nat size) / 2 - 20)%float in
  (center + ((cb point - 128) / 128) * radius)%float.

Definition vectorscope_y (size : nat) (point : color_point) : float :=
  let center := (JS.number (Z.of_nat size) / 2)%float in
  let radius := (JS.number (Z.of_nat size) / 2 - 20)%float in
  (center - ((cr point - 128) / 128) * radius)%float.

(** The two loops over [dy] and [dx] in [-1 .. 1] around [(px, py)] *)
Definition stamp (size : nat) (px py : JS.integral) (map : list Z) : list Z :=
  fold_left
    (fun m dy =>
       fold_left
         (fun m' dx => plot_point size size (JS.plus px dx) (JS.plus py dy) m')
         [-1; 0; 1] m)
    [-1; 0; 1] map.

(** The body of the loop of [renderVectorscope] over the samples *)
Definition plot_sample (size : nat) (point : color_point) (map : list Z) : list Z :=
  let x := vectorscope_x size point in
  let y := vectorscope_y size point in
  stamp size (JS.Math_floor x) (JS.Math_floor y) map.

Definition vectorscope_intensity (size : nat) (points : list color_point) : list Z :=
  fold_left (fun m point => plot_sample size point m) points
    (new_intensity_map (size * size)).

(** ** The renderers: normalisation and colour *)

(** The scan for the largest counter, starting from 1 *)
Definition max_intensity (map : list Z) : Z :=
  fold_left (fun m c => if m <? c then c else m) map 1.

(** [Math.min(1, (count / maxIntensity) * gain)] *)
Definition cell_intensity (gain : float) (maxIntensity count : Z) : float :=
  JS.Math_min 1 ((JS.number count / JS.number maxIntensity) * gain)%float.

(** [Math.floor(intensity * weight)] stored into the pixel array *)
Definition shade (intensity weight : float) : Z :=
  JS.to_uint8_clamped (JS.Math_floor (intensity * weight)%float).

(** The colouring loop: a cell with a positive counter becomes an opaque
    pixel of the ramp [(wr, wg, wb)]; any other cell is not written. *)
Definition colorize (gain wr wg wb : float) (map : list Z) (pixels : list Z) : list Z :=
  let maxIntensity := max_intensity map in
  fold_left
    (fun px i =>
       match map !! i with
       | Some count =>
           if 0 <? count then
             let intensity := cell_intensity gain maxIntensity count in
             let pixelIndex := (i * 4)%nat in
             <[(pixelIndex + 3)%nat := 255]>
               (<[(pixelIndex + 2)%nat := shade intensity wb]>
                  (<[(pixelIndex + 1)%nat := shade intensity wg]>
                     (<[pixelIndex := shade intensity wr]> px)))
           else px
       | None => px
       end)
    (seq 0 (length map)) pixels.

(** The pixels [renderWaveform] puts back: gain 8, green phosphor *)
Definition waveform_pixels (map pixels : list Z) : list Z :=
  colorize 8 150 255 100 map pixels.

(** The pixels [renderParade] puts back for channel [ch] *)
Definition parade_pixels (ch : nat) (map pixels : list Z) : list Z :=
  match ch with
  | O => colorize 8 255 80 80 map pixels
  | S O => colorize 8 80 255 80 map pixels
  | _ => colorize 8 100 120 255 map pixels
  end.

(** The pixels [renderVectorscope] puts back: gain 10, cyan phosphor *)
Definition vectorscope_pixels (map pixels : list Z) : list Z :=
  colorize 10 100 255 200 map pixels.

End IntensityMaps.

(** ** Zone selection and the analysed rectangle of [app.js] *)

(** ** Zone selection and the capture cycle of [app.js] *)

Module Math.

(** [Math.max(a, b)]: NaN if either is, and [+0] above [-0] *)
Definition max (a b : float) : float :=
  if (PrimFloat.is_nan a || PrimFloat.is_nan b)%bool then PrimFloat.nan
  else if (b <? a)%float then a
  else if (a <? b)%float then b
  else if PrimFloat.get_sign a then b else a.

(** [Math.abs(a)] *)
Definition abs (a : float) : float := PrimFloat.abs a.

(** [Math.floor(a)] as a Number: a double of exponent zero or more is an
    integer already; below that the magnitude is under 2^53 and the floor is
    exact. *)
Definition floor (a : float) : float :=
  match Prim2SF a with
  | S754_finite s m e => if 0 <=? e then a else JS.number (JS.floor_finite s m e)
  | _ => a
  end.

End Math.

Section ZoneSelection.
#[local] Open Scope float_scope.

(** The rectangle [getBoundingClientRect()] returns *)
Record DOMRect := {
  rect_left : float;
  rect_top : float;
  rect_width : float;
  rect_height : float
}.

(** The part of a mouse event or a touch the handlers read *)
Record pointer := {
  clientX : float;
  clientY : float
}.

Record position := {
  pos_x : float;
  pos_y : float
}.

(** [selectedZone], in normalized coordinates *)
Record zone := {
  zone_x : float;
  zone_y : float;
  zone_width : float;
  zone_height : float
}.

(** [getRelativePosition(e)]; [rect] is the bounding rectangle of the
    selection canvas when the event arrives. *)
Definition getRelativePosition (rect : DOMRect) (e : pointer) : position :=
  let x := (clientX e - rect_left rect) / rect_width rect in
  let y := (clientY e - rect_top rect) / rect_height rect in
  {| pos_x := Math.max 0 (JS.Math_min 1 x);
     pos_y := Math.max 0 (JS.Math_min 1 y) |}.

(** The fields of the [AnyScope] object that zone selection reads and
    writes, and the [disabled] flag of the reset button. *)
Record Selection := {
  capture : AnyScope;
  isSelecting : bool;
  selectionStart : option position;
  selectedZone : option zone;
  resetZoneButton_disabled : bool
}.

Definition onSelectionStart (rect : DOMRect) (e : pointer) (s : Selection) : Selection :=
  if negb (isCapturing (capture s)) then s
  else {| capture := capture s;
          isSelecting := true;
          selectionStart := Some (getRelativePosition rect e);
          selectedZone := None;
          resetZoneButton_disabled := true |}.

Definition onSelectionMove (rect : DOMRect) (e : pointer) (s : Selection) : Selection :=
  match isSelecting s, selectionStart s with
  | true, Some start =>
      let current := getRelativePosition rect e in
      let x := JS.Math_min (pos_x start) (pos_x current) in
      let y := JS.Math_min (pos_y start) (pos_y current) in
      let width := Math.abs (pos_x current - pos_x start) in
      let height := Math.abs (pos_y current - pos_y start) in
      {| capture := capture s;
         isSelecting := isSelecting s;
         selectionStart := selectionStart s;
         selectedZone := Some {| zone_x := x; zone_y := y;
                                 zone_width := width; zone_height := height |};
         resetZoneButton_disabled := resetZoneButton_disabled s |}
  | _, _ => s
  end.

Definition onSelectionEnd (s : Selection) : Selection :=
  if negb (isSelecting s) then s
  else
    let kept :=
      match selectedZone s with
      | Some z => if (zone_width z <? 0.02) || (zone_height z <? 0.02) then None else Some z
      | None => None
      end in
    {| capture := capture s;
       isSelecting := false;
       selectionStart := selectionStart s;
       selectedZone := kept;
       resetZoneButton_disabled := match kept with None => true | Some _ => false end |}.

Definition resetZone (s : Selection) : Selection :=
  {| capture := capture s;
     isSelecting := isSelecting s;
     selectionStart := selectionStart s;
     selectedZone := None;
     resetZoneButton_disabled := true |}.

(** [startCapture()], once [getDisplayMedia] has settled: a rejection is
    caught and changes nothing. *)
Definition startCapture (granted : bool) (s : Selection) : Selection :=
  if granted then
    {| capture := {| isCapturing := true; container_hidden := container_hidden (capture s) |};
       isSelecting := isSelecting s;
       selectionStart := selectionStart s;
       selectedZone := selectedZone s;
       resetZoneButton_disabled := resetZoneButton_disabled s |}
  else s.

Definition stopCapture (s : Selection) : Selection :=
  {| capture := {| isCapturing := false; container_hidden := container_hidden (capture s) |};
     isSelecting := isSelecting s;
     selectionStart := selectionStart s;
     selectedZone := None;
     resetZoneButton_disabled := true |}.

(** The events the listeners of [initEventListeners], [initZoneSelection]
    and [initScopeToggles] react to *)
Inductive ui_event :=
  | MouseDown (rect : DOMRect) (e : pointer)
  | MouseMove (rect : DOMRect) (e : pointer)
  | MouseUp
  | ResetClick
  | StartClick (granted : bool)
  | StopClick
  | ToggleChange (scopeKey : scope) (checked : bool).

Definition dispatch (s : Selection) (ev : ui_event) : Selection :=
  match ev with
  | MouseDown rect e => onSelectionStart rect e s
  | MouseMove rect e => onSelectionMove rect e s
  | MouseUp => onSelectionEnd s
  | ResetClick => resetZone s
  | StartClick granted => startCapture granted s
  | StopClick => stopCapture s
  | ToggleChange scopeKey checked =>
      {| capture := on_toggle_change scopeKey checked (capture s);
         isSelecting := isSelecting s;
         selectionStart := selectionStart s;
         selectedZone := selectedZone s;
         resetZoneButton_disabled := resetZoneButton_disabled s |}
  end.

End ZoneSelection.

Section AnalysisSize.
#[local] Open Scope float_scope.

(** The rectangle of the video that [analyzeFrame] draws onto the capture
    canvas *)
Record source_rect := {
  zoneX : float;
  zoneY : float;
  zoneW : float;
  zoneH : float
}.

(** The whole frame, or the selected zone with sides of at least 10 pixels *)
Definition zone_of_frame (selected : option zone) (srcWidth srcHeight : nat) : source_rect :=
  let srcWidth := JS.number (Z.of_nat srcWidth) in
  let srcHeight := JS.number (Z.of_nat srcHeight) in
  match selected with
  | None => {| zoneX := 0; zoneY := 0; zoneW := srcWidth; zoneH := srcHeight |}
  | Some z =>
      {| zoneX := Math.floor (zone_x z * srcWidth);
         zoneY := Math.floor (zone_y z * srcHeight);
         zoneW := Math.max (Math.floor (zone_width z * srcWidth)) 10;
         zoneH := Math.max (Math.floor (zone_height z * srcHeight)) 10 |}
  end.

Definition maxAnalysisWidth : float := 320.

(** [Math.min(1, maxAnalysisWidth / zoneW)] *)
Definition analysis_scale (r : source_rect) : float :=
  JS.Math_min 1 (maxAnalysisWidth / zoneW r).

Definition analysisWidth (r : source_rect) : float :=
  Math.floor (zoneW r * analysis_scale r).

Definition analysisHeight (r : source_rect) : float :=
  Math.floor (zoneH r * analysis_scale r).

End AnalysisSize.

(** ** The histogram renderer *)

Section HistogramRenderer.
#[local] Open Scope float_scope.

(** [ToNumber] of an element read from an array of counters; a hole, and
    an index past the end, read [undefined]. *)
Definition slot_number (s : option slot) : float :=
  match s with
  | Some (Count n) => JS.number (Z.of_nat n)
  | _ => PrimFloat.nan
  end.

(** [Math.max(...values)]: the largest argument, starting from
    [-Infinity] *)
Definition Math_max_of (values : list float) : float :=
  fold_left Math.max values PrimFloat.neg_infinity.

(** The arguments of one [fillRect] call *)
Record fill_rect := {
  fill_x : float;
  fill_y : float;
  fill_width : float;
  fill_height : float
}.

(** [Math.max(maxR, maxG, maxB, 1)] *)
Definition histogram_maxVal (h : histogram_data) : float :=
  let maxR := Math_max_of (List.map (fun s => slot_number (Some s)) (hist_r h)) in
  let maxG := Math_max_of (List.map (fun s => slot_number (Some s)) (hist_g h)) in
  let maxB := Math_max_of (List.map (fun s => slot_number (Some s)) (hist_b h)) in
  Math_max_of [maxR; maxG; maxB; 1].

(** The loop over the 256 buckets of one channel *)
Definition channel_bars (width height : nat) (maxVal : float) (a : list slot) : list fill_rect :=
  let barWidth := JS.number (Z.of_nat width) / 256 in
  List.map
    (fun i =>
       let barHeight := (slot_number (a !! i) / maxVal) * (JS.number (Z.of_nat height) - 20) in
       {| fill_x := JS.number (Z.of_nat i) * barWidth;
          fill_y := JS.number (Z.of_nat height) - barHeight;
          fill_width := barWidth;
          fill_height := barHeight |})
    (seq 0 256).

(** The bars [renderHistogram] fills on a canvas of the given size, in
    drawing order: red, green, blue.  The luminance channel is not drawn. *)
Definition histogram_bars (width height : nat) (h : histogram_data) : list fill_rect :=
  let maxVal := histogram_maxVal h in
  channel_bars width height maxVal (hist_r h) ++
  channel_bars width height maxVal (hist_g h) ++
  channel_bars width height maxVal (hist_b h).

End HistogramRenderer.

Section HistogramScale.
#[local] Open Scope float_scope.

(** The bucket values [renderHistogram] marks on its scale *)
Definition markers : list Z := [0; 64; 128; 192; 255]%Z.

(** [(marker / 255) * width], where the line of a marker is drawn *)
Definition marker_x (width : nat) (marker : Z) : float :=
  (JS.number marker / 255) * JS.number (Z.of_nat width).

End HistogramScale.

(** * Vocabulary of the properties *)

(** ** Binary64: shifts, exponents and real values *)

Section ShiftRecords.

(** A shift record holds the quotient of [N] by [D] and tells whether the
    division is exact. *)
Definition located (mrs : shr_record) (N D : Z) : Prop :=
  shr_m mrs = N / D ∧ ((shr_r mrs || shr_s mrs) = false ↔ N mod D = 0).

(** The location of a quotient: exact or not *)
Definition loc_ok (l : location) (N D : Z) : Prop := l = loc_Exact ↔ N mod D = 0.

(** The exponent the format gives to the mantissa [m] at exponent [e] *)
Definition cexp (m e : Z) : Z := fexp prec emax (Zdigits2 m + e).

End ShiftRecords.

Section RealValues.
#[local] Open Scope R_scope.

Definition bpow (e : Z) : R := powerRZ 2 e.

(** The real number a mantissa and an exponent denote *)
Definition F2R (m e : Z) : R := IZR m * bpow e.

Definition SF2R (x : spec_float) : R :=
  match x with
  | S754_finite s m e => F2R (cond_Zopp s (Zpos m)) e
  | _ => 0
  end.

(** Zero, or a positive finite double *)
Definition nonneg_finite (x : spec_float) : Prop :=
  x = S754_zero false ∨ ∃ m e, x = S754_finite false m e.

(** A positive real the format holds exactly, well below overflow *)
Definition fmt (B : R) : Prop :=
  ∃ mb eb, B = F2R mb eb ∧ (0 < mb < 2 ^ 53)%Z ∧ (-1074 <= eb <= 900)%Z.

Definition fmt0 (B : R) : Prop := B = 0 ∨ fmt B.

(** The real value of a double; 0 for the non-finite ones *)
Definition val (x : float) : R := SF2R (Prim2SF x).

(** Zero or a positive finite double *)
Definition good (x : float) : Prop := nonneg_finite (Prim2SF x).

End RealValues.

(** ** The channel bytes as doubles *)

(** A predicate holds of every triple drawn from a list *)
Definition forallb3 {A} (f : A → A → A → bool) (l : list A) : bool :=
  forallb (fun r => forallb (fun g => forallb (fun b => f r g b) l) l) l.

Section ChannelDoubles.
#[local] Open Scope float_scope.

(** The 256 doubles a channel byte can denote *)
Definition byte_values : list float :=
  Eval vm_compute in map (fun i => JS.number (Z.of_nat i)) (seq 0 256).

Definition luminance_sum (r g b : float) : float :=
  0.2126 * r + 0.7152 * g + 0.0722 * b.

Definition luminance_sum_in_range (r g b : float) : bool :=
  (0 <=? luminance_sum r g b) && (luminance_sum r g b <? 255.5).

End ChannelDoubles.

(** ** The luminance in exact arithmetic *)

Section ExactLuminance.
#[local] Open Scope Z_scope.

(** The value of a channel byte *)
Definition byte_Z (c : byte) : Z := Z.of_N (Byte.to_N c).

(** The weighted sum [0.2126 r + 0.7152 g + 0.0722 b] in exact arithmetic,
    in units of 1/10000 *)
Definition weighted_sum (r g b : Z) : Z := 2126 * r + 7152 * g + 722 * b.

(** [round(0.2126 r + 0.7152 g + 0.0722 b)] as the specification writes
    it, evaluated in exact arithmetic: the nearest integer, a tie going up *)
Definition exact_luminance (r g b : Z) : Z := (weighted_sum r g b + 5000) / 10000.

(** The exact sum lies midway between two integers. *)
Definition exact_tie (r g b : Z) : Prop := weighted_sum r g b mod 10000 = 5000.

End ExactLuminance.

Section LuminanceCheck.
#[local] Open Scope uint63_scope.

(** The 256 values of a channel byte as machine integers *)
Definition byte_ints : list int :=
  Eval vm_compute in List.map (fun i => Uint63.of_Z (Z.of_nat i)) (seq 0 256).

(** The double [k + 1/2] *)
Definition half_above (k : int) : float := (of_uint63 (2 * k + 1) / 2)%float.

(** The double [s] lies in [[k - 1/2, k + 1/2)]. *)
Definition rounds_to (k : int) (s : float) : bool :=
  (if k =? 0 then (0 <=? s)%float else (half_above (k - 1) <=? s)%float)
  && (s <? half_above k)%float.

(** The double sum of a pixel rounds to the exact luminance, or to the
    integer below it when the exact sum is a tie. *)
Definition luminance_is_nearest (r g b : int) : bool :=
  let e := 2126 * r + 7152 * g + 722 * b in
  let k := (e + 5000) / 10000 in
  let s := luminance_sum (of_uint63 r) (of_uint63 g) (of_uint63 b) in
  rounds_to k s || ((e mod 10000 =? 5000) && rounds_to (k - 1) s).

End LuminanceCheck.

(** ** Reading the datasets of the analyzer *)

(** The sum of the buckets of a histogram channel, as a reader of the
    array computes it: [None] when some element is not a number. *)
Fixpoint slots_total (a : list slot) : option nat :=
  match a with
  | [] => Some O
  | Count n :: a' =>
      match slots_total a' with
      | Some t => Some (n + t)%nat
      | None => None
      end
  | _ => None
  end.

(** [sum(a[0..256))] *)
Definition histogram_sum (a : list slot) : option nat := slots_total (take 256 a).

Section Datasets.
#[local] Open Scope nat_scope.

(** What [pixel_step] stores when none of its [push] calls throws *)
Definition pixel_update (data : list byte) (width rate y x : nat)
    (st : scope_data) : scope_data :=
  let i := (y * width + x) * 4 in
  let r := data !! i in
  let g := data !! (i + 1) in
  let b := data !! (i + 2) in
  let lum := pixel_luminance r g b in
  {| luminance := alter (fun c => c ++ [lum]) x (luminance st);
     rgbColumns :=
       if x / 3 <? width / 3 then
         {| columns_r := alter (fun c => c ++ [r]) (x / 3) (columns_r (rgbColumns st));
            columns_g := alter (fun c => c ++ [g]) (x / 3) (columns_g (rgbColumns st));
            columns_b := alter (fun c => c ++ [b]) (x / 3) (columns_b (rgbColumns st)) |}
       else rgbColumns st;
     colorPoints :=
       if (y * width + x) mod rate =? 0 then
         colorPoints st ++
           [ {| cb := pixel_cb r g b; cr := pixel_cr r g b;
                point_r := r; point_g := g; point_b := b |} ]
       else colorPoints st;
     histogram :=
       {| hist_r := incr_at (JS.index_of_channel r) (hist_r (histogram st));
          hist_g := incr_at (JS.index_of_channel g) (hist_g (histogram st));
          hist_b := incr_at (JS.index_of_channel b) (hist_b (histogram st));
          hist_lum := incr_at (JS.index_of_integral lum) (hist_lum (histogram st)) |} |}.

(** The column arrays keep the lengths they were created with. *)
Definition shaped (width : nat) (st : scope_data) : Prop :=
  length (luminance st) = width ∧
  length (columns_r (rgbColumns st)) = width / 3 ∧
  length (columns_g (rgbColumns st)) = width / 3 ∧
  length (columns_b (rgbColumns st)) = width / 3.

(** A channel of 256 counters that add up to [n] *)
Definition full_channel (n : nat) (a : list slot) : Prop :=
  length a = 256 ∧ slots_total a = Some n.

Definition histogram_counts (n : nat) (h : histogram_data) : Prop :=
  full_channel n (hist_r h) ∧ full_channel n (hist_g h) ∧
  full_channel n (hist_b h) ∧ full_channel n (hist_lum h).

(** The end-to-end scenario of the specification: a 4 x 4 frame whose rows
    alternate between pure red and pure black. *)
Definition red_and_black_rows : list byte :=
  List.concat
    (List.map
       (fun y => List.concat (repeat (if Nat.even y then ["255"; "000"; "000"; "255"]
                                      else ["000"; "000"; "000"; "255"])%byte 4))
       (seq 0 4)).

(** The luminance of the pixel at column [x] of row [y] of a buffer *)
Definition luminance_at (data : list byte) (width x y : nat) : JS.integral :=
  JS.Math_round
    (0.2126 * JS.to_number (data !! ((y * width + x) * 4)%nat)
     + 0.7152 * JS.to_number (data !! ((y * width + x) * 4 + 1)%nat)
     + 0.0722 * JS.to_number (data !! ((y * width + x) * 4 + 2)%nat))%float.

(** The sample taken from the pixel with raster index [i] *)
Definition sample_at (data : list byte) (i : nat) : color_point :=
  let r := data !! (i * 4) in
  let g := data !! (i * 4 + 1) in
  let b := data !! (i * 4 + 2) in
  {| cb := pixel_cb r g b; cr := pixel_cr r g b;
     point_r := r; point_g := g; point_b := b |}.

(** The raster indices below [n] that the stride [s] selects *)
Definition sampled_indices (s n : nat) : list nat :=
  List.filter (fun i => i mod s =? 0) (seq 0 n).

(** Channel [k] (0 red, 1 green, 2 blue) of the pixel at column [x] of row [y] *)
Definition channel_at (data : list byte) (width k y x : nat) : channel :=
  data !! ((y * width + x) * 4 + k).

(** The source columns that feed parade column [c] *)
Definition parade_sources (c : nat) : list nat := [3 * c; 3 * c + 1; 3 * c + 2].

(** Parade column [c] after [rows] full rows *)
Definition parade_column (data : list byte) (width k c rows : nat) : list channel :=
  flat_map (fun y => List.map (channel_at data width k y) (parade_sources c)) (seq 0 rows).

(** Parade column [c] after [y] full rows and the first [x] pixels of row [y] *)
Definition parade_partial (data : list byte) (width k c y x : nat) : list channel :=
  parade_column data width k c y ++
  List.map (channel_at data width k y) (List.filter (fun x' => x' <? x) (parade_sources c)).

Definition parade_invariant (data : list byte) (width y x : nat) (rgb : rgb_columns) : Prop :=
  ∀ c, c < width / 3 →
    columns_r rgb !! c = Some (parade_partial data width 0 c y x) ∧
    columns_g rgb !! c = Some (parade_partial data width 1 c y x) ∧
    columns_b rgb !! c = Some (parade_partial data width 2 c y x).

End Datasets.

(** ** What a cycle renders, and the inputs the specification calls invalid *)

(** Which renderer a call belongs to *)
Definition call_scope (c : render_call) : scope :=
  match c with
  | RenderWaveform _ _ _ => Waveform
  | RenderParade _ _ _ => Parade
  | RenderVectorscope _ => Vectorscope
  | RenderHistogram _ => HistogramScope
  end.

(** The renderer of [s] is invoked in a cycle *)
Definition renders (s : scope) (cycle : completion (list render_call)) : bool :=
  match cycle with
  | Normal calls => existsb (fun c => scope_eqb s (call_scope c)) calls
  | Throw _ => false
  end.

(** An input the specification calls invalid: an empty or mis-sized
    buffer, a zero width or a zero height *)
Definition invalid_input (imageData : ImageData) : bool :=
  (length (image_data imageData) =? 0)%nat
  || negb (length (image_data imageData) =? 4 * (image_width imageData * image_height imageData))%nat
  || (image_width imageData =? 0)%nat
  || (image_height imageData =? 0)%nat.

(** The cycle was rejected: nothing thrown, nothing rendered *)
Definition cycle_skipped (cycle : completion (list render_call)) : Prop :=
  cycle = Normal [].

(** ** The colouring loop cell by cell, and the stamp of a sample *)

Section Cells.
#[local] Open Scope Z_scope.

(** The four stores of one cell *)
Definition write_cell (i : nat) (v0 v1 v2 v3 : Z) (px : list Z) : list Z :=
  <[(i * 4 + 3)%nat := v3]>
    (<[(i * 4 + 2)%nat := v2]> (<[(i * 4 + 1)%nat := v1]> (<[(i * 4)%nat := v0]> px))).

(** The pixel a cell with counter [count] gets *)
Definition cell_pixel (gain wr wg wb : float) (maxIntensity count : Z) : list Z :=
  [ shade (cell_intensity gain maxIntensity count) wr;
    shade (cell_intensity gain maxIntensity count) wg;
    shade (cell_intensity gain maxIntensity count) wb;
    255 ].

(** The colouring loop after its first [n] iterations *)
Definition colorize_prefix (gain wr wg wb : float) (map : list Z) (n : nat)
    (pixels : list Z) : list Z :=
  fold_left
    (fun px i =>
       match map !! i with
       | Some count =>
           if 0 <? count then
             write_cell i
               (shade (cell_intensity gain (max_intensity map) count) wr)
               (shade (cell_intensity gain (max_intensity map) count) wg)
               (shade (cell_intensity gain (max_intensity map) count) wb)
               255 px
           else px
       | None => px
       end)
    (seq 0 n) pixels.

(** The cell [(cx, cy)] lies in the 3 x 3 block centred on [(px, py)] *)
Definition in_stamp (px py : JS.integral) (cx cy : nat) : bool :=
  match px, py with
  | JS.Int a, JS.Int b =>
      (Z.abs (Z.of_nat cx - a) <=? 1) && (Z.abs (Z.of_nat cy - b) <=? 1)
  | _, _ => false
  end.

End Cells.

(** ** Zone selection: normalized coordinates and consistent states *)

Section ZoneVocabulary.
#[local] Open Scope float_scope.

(** A normalized coordinate: a Number between 0 and 1 *)
Definition in_unit (x : float) : bool := (0 <=? x) && (x <=? 1).

End ZoneVocabulary.

Section SelectionVocabulary.
#[local] Open Scope float_scope.

(** A coordinate of a position or a zone as the handlers produce it: NaN
    (from a quotient that is NaN) or between 0 and 1 *)
Definition normalized (x : float) : bool := PrimFloat.is_nan x || in_unit x.

Definition position_normalized (p : position) : bool :=
  normalized (pos_x p) && normalized (pos_y p).

Definition zone_normalized (z : zone) : bool :=
  normalized (zone_x z) && normalized (zone_y z) &&
  normalized (zone_width z) && normalized (zone_height z).

(** Neither side of the zone is below 2 % of the frame. *)
Definition zone_large_enough (z : zone) : bool :=
  negb ((zone_width z <? 0.02) || (zone_height z <? 0.02)).

(** What holds of the selection state between any two events *)
Definition selection_consistent (s : Selection) : Prop :=
  (resetZoneButton_disabled s = false → isSelecting s = false ∧ selectedZone s ≠ None) ∧
  (isSelecting s = false → ∀ z, selectedZone s = Some z → zone_large_enough z = true) ∧
  (∀ p, selectionStart s = Some p → position_normalized p = true) ∧
  (∀ z, selectedZone s = Some z → zone_normalized z = true).

End SelectionVocabulary.

Section FiniteNumbers.

(** A finite Number: neither NaN nor an infinity *)
Definition isFinite (x : float) : bool :=
  match Prim2SF x with
  | S754_zero _ | S754_finite _ _ _ => true
  | _ => false
  end.

(** A Number other than [+0] and [-0] *)
Definition nonzero (x : float) : bool :=
  match Prim2SF x with
  | S754_zero _ => false
  | _ => true
  end.

(** A pointer coordinate measured on a canvas that has an extent: the
    coordinate, the origin and the extent are finite and the extent is not
    zero. *)
Definition measurable (client origin extent : float) : bool :=
  isFinite client && isFinite origin && isFinite extent && nonzero extent.

End FiniteNumbers.

Section SelectionExamples.
#[local] Open Scope float_scope.

(** The state the constructor of [AnyScope] leaves, with all scopes shown
    and the reset button disabled *)
Definition initial_selection : Selection :=
  {| capture := {| isCapturing := false; container_hidden := fun _ => false |};
     isSelecting := false;
     selectionStart := None;
     selectedZone := None;
     resetZoneButton_disabled := true |}.

End SelectionExamples.

(** ** Marks in an intensity map and buckets of a histogram *)

Section MapVocabulary.
#[local] Open Scope Z_scope.

(** The sum of all counters of an intensity map *)
Definition intensity_total (map : list Z) : Z := foldr Z.add 0 map.

(** An intensity map of [cells] cells, none of which has wrapped around,
    that holds [n] marks in all *)
Definition tally (n : Z) (cells : nat) (map : list Z) : Prop :=
  length map = cells ∧ Forall (fun c => 0 <= c) map ∧ intensity_total map = n.

(** The number of values in all the columns of a dataset *)
Definition values_count {A} (columns : list (list A)) : nat := length (concat columns).

(** A value a waveform or parade column holds for an 8-bit frame *)
Definition level (v : float) : Prop := ∃ z, v = JS.number z ∧ 0 <= z <= 255.

End MapVocabulary.

Section DistributionVocabulary.
#[local] Open Scope nat_scope.

(** The bucket that channel [k] of the pixel with raster index [i] falls
    into, if that byte was read *)
Definition bucket_of_channel (data : list byte) (k i : nat) : option nat :=
  JS.index_of_channel (data !! (i * 4 + k)).

(** The bucket the luminance of the pixel with raster index [i] falls into *)
Definition bucket_of_luminance (data : list byte) (i : nat) : option nat :=
  JS.index_of_integral
    (pixel_luminance (data !! (i * 4)) (data !! (i * 4 + 1)) (data !! (i * 4 + 2))).

(** How many of the first [n] pixels fall into bucket [v] *)
Definition count_in_bucket (bucket : nat → option nat) (v n : nat) : nat :=
  length (List.filter
            (fun i => match bucket i with Some b => b =? v | None => false end)
            (seq 0 n)).

(** The value [x] in column [col] of [columnCount] is plotted on the cell
    [(cx, cy)]. *)
Definition plotted_on (width height columnCount cx cy col : nat) (v : float) : bool :=
  match plot_x col columnCount width, plot_y height v with
  | JS.Int a, JS.Int b => (a =? Z.of_nat cx)%Z && (b =? Z.of_nat cy)%Z
  | _, _ => false
  end.

(** How many values of the columns are plotted on the cell [(cx, cy)] *)
Definition plotted_count (width height cx cy : nat) (columns : list (list float)) : nat :=
  length (List.filter
            (fun cv => plotted_on width height (length columns) cx cy (fst cv) (snd cv))
            (flat_map (fun col => List.map (fun v => (col, v)) (default [] (columns !! col)))
               (seq 0 (length columns)))).

End DistributionVocabulary.

(** ** Vectorscope samples and their chroma *)

Section VectorscopeVocabulary.
#[local] Open Scope Z_scope.

(** The stamp of the sample [point] covers the cell [(cx, cy)] of a
    vectorscope of side [size]. *)
Definition covers (size : nat) (cx cy : nat) (point : color_point) : bool :=
  in_stamp (JS.Math_floor (vectorscope_x size point))
           (JS.Math_floor (vectorscope_y size point)) cx cy.

End VectorscopeVocabulary.

Section ChromaVocabulary.
#[local] Open Scope float_scope.

(** The chroma of a pixel from the doubles of its channels, as
    [calculateScopeData] computes it *)
Definition chroma_cb (r g b : float) : float :=
  128 + (-0.168736 * r - 0.331264 * g + 0.5 * b).

Definition chroma_cr (r g b : float) : float :=
  128 + (0.5 * r - 0.418688 * g - 0.081312 * b).

(** A chroma offset [(c - 128) / 128] of magnitude at most 1 *)
Definition offset_in_range (t : float) : bool := in_unit t || in_unit (- t).

Definition chroma_offsets_in_range (r g b : float) : bool :=
  offset_in_range ((chroma_cb r g b - 128) / 128) &&
  offset_in_range ((chroma_cr r g b - 128) / 128).

(** Both chroma values lie between 0.5 and 255.5. *)
Definition chroma_in_range (r g b : float) : bool :=
  (0.5 <=? chroma_cb r g b) && (chroma_cb r g b <=? 255.5) &&
  (0.5 <=? chroma_cr r g b) && (chroma_cr r g b <=? 255.5).

(** A sample taken from a pixel whose three channel bytes were read *)
Definition pixel_sample (p : color_point) : Prop :=
  ∃ r g b : byte,
    cb p = pixel_cb (Some r) (Some g) (Some b) ∧
    cr p = pixel_cr (Some r) (Some g) (Some b).

End ChromaVocabulary.

(** * Properties *)

(** ** Rounding to binary64

    The operations of [SpecFloat], to which the axioms of [FloatAxioms]
    tie the primitive ones, round to nearest.  What is established here is
    that such a rounding never crosses a number the format holds. *)

Section Shifts.

Lemma digits2_pos_bounds (m : positive) :
  2 ^ (Zpos (digits2_pos m) - 1) <= Zpos m < 2 ^ Zpos (digits2_pos m).
Proof.
  induction m as [m IH | m IH |]; simpl digits2_pos.
  - rewrite Pos2Z.inj_succ.
    replace (Z.succ (Zpos (digits2_pos m)) - 1) with (Z.succ (Zpos (digits2_pos m) - 1)) by lia.
    rewrite !Z.pow_succ_r by lia. lia.
  - rewrite Pos2Z.inj_succ.
    replace (Z.succ (Zpos (digits2_pos m)) - 1) with (Z.succ (Zpos (digits2_pos m) - 1)) by lia.
    rewrite !Z.pow_succ_r by lia. lia.
  - simpl. lia.
Qed.

(** The number of bits of a non-negative integer *)
Lemma Zdigits2_bounds (m : Z) :
  0 < m → 0 < Zdigits2 m ∧ 2 ^ (Zdigits2 m - 1) <= m < 2 ^ Zdigits2 m.
Proof.
  destruct m as [| p | p]; try lia. intros _. simpl Zdigits2.
  split; [lia | apply digits2_pos_bounds].
Qed.

Lemma Zdigits2_le (m : Z) (d : Z) : 0 <= d → 0 <= m < 2 ^ d → Zdigits2 m <= d.
Proof.
  intros Hd [H0 H1]. destruct (Z.eq_dec m 0) as [-> | Hne]; [simpl; lia |].
  destruct (Zdigits2_bounds m) as (Hp & Hl & _); [lia |].
  destruct (Z.le_gt_cases (Zdigits2 m) d) as [? | Hgt]; [assumption | exfalso].
  assert (2 ^ d <= 2 ^ (Zdigits2 m - 1)) by (apply Z.pow_le_mono_r; lia). lia.
Qed.

Lemma Zdigits2_ge (m : Z) (d : Z) : 2 ^ (d - 1) <= m → 0 < m → d <= Zdigits2 m.
Proof.
  intros Hl Hm. destruct (Zdigits2_bounds m Hm) as (Hp & _ & Hu).
  destruct (Z.le_gt_cases d (Zdigits2 m)) as [? | Hgt]; [assumption | exfalso].
  assert (2 ^ Zdigits2 m <= 2 ^ (d - 1)) by (apply Z.pow_le_mono_r; lia). lia.
Qed.

Lemma shr_1_located (mrs : shr_record) (N D : Z) :
  0 <= N → 0 < D → located mrs N D → located (shr_1 mrs) N (2 * D).
Proof.
  intros HN HD [Hm Hrs]. destruct mrs as [m r s]. simpl in Hm, Hrs.
  pose proof (Z.div_mod N D ltac:(lia)) as Hdm.
  pose proof (Z.mod_pos_bound N D HD) as Hmod.
  assert (Hm0 : 0 <= m) by (subst m; apply Z.div_pos; lia).
  assert (Hgen : ∀ m' (b : bool), m = 2 * m' + (if b then 1 else 0) →
            N / (2 * D) = m' ∧ N mod (2 * D) = (if b then D else 0) + N mod D).
  { intros m' b Hb. symmetry in Hb.
    assert (N = (2 * D) * m' + ((if b then D else 0) + N mod D)) by (destruct b; nia).
    split; symmetry.
    - apply (Z.div_unique_pos N (2 * D) m' ((if b then D else 0) + N mod D));
        [destruct b; lia | assumption].
    - apply (Z.mod_unique_pos N (2 * D) m' ((if b then D else 0) + N mod D));
        [destruct b; lia | assumption]. }
  unfold located, shr_1.
  destruct m as [| [p | p |] | p]; try lia; cbn [shr_m shr_r shr_s].
  - destruct (Hgen 0 false) as [-> ->]; [lia |]. split; [reflexivity |].
    cbn [orb]. rewrite Hrs. lia.
  - destruct (Hgen (Zpos p) true) as [-> ->]; [lia |]. split; [reflexivity |].
    cbn [orb]. split; [discriminate | lia].
  - destruct (Hgen (Zpos p) false) as [-> ->]; [lia |]. split; [reflexivity |].
    cbn [orb]. rewrite Hrs. lia.
  - destruct (Hgen 0 true) as [-> ->]; [lia |]. split; [reflexivity |].
    cbn [orb]. split; [discriminate | lia].
Qed.

Lemma iter_pos_shr_1_located (p : positive) (mrs : shr_record) (N D : Z) :
  0 <= N → 0 < D → located mrs N D →
  located (SpecFloat.iter_pos shr_1 p mrs) N (D * 2 ^ Zpos p).
Proof.
  intros HN. revert mrs D.
  induction p as [p IH | p IH |]; intros mrs D HD Hl; cbn [SpecFloat.iter_pos].
  - replace (D * 2 ^ Zpos p~1) with ((2 * D) * 2 ^ Zpos p * 2 ^ Zpos p).
    + apply IH; [| apply IH; [lia | apply shr_1_located; assumption]].
      assert (0 < 2 ^ Zpos p) by (apply Z.pow_pos_nonneg; lia). nia.
    + rewrite (Pos2Z.inj_xI p).
      replace (2 * Zpos p + 1) with (1 + Zpos p + Zpos p) by lia.
      rewrite !Z.pow_add_r by lia. change (2 ^ 1) with 2. ring.
  - replace (D * 2 ^ Zpos p~0) with (D * 2 ^ Zpos p * 2 ^ Zpos p).
    + apply IH; [| apply IH; assumption].
      assert (0 < 2 ^ Zpos p) by (apply Z.pow_pos_nonneg; lia). nia.
    + rewrite (Pos2Z.inj_xO p). replace (2 * Zpos p) with (Zpos p + Zpos p) by lia.
      rewrite Z.pow_add_r by lia. lia.
  - replace (D * 2 ^ 1) with (2 * D) by lia. apply shr_1_located; assumption.
Qed.

Lemma located_of_loc (m : Z) (l : location) (N D : Z) :
  m = N / D → loc_ok l N D → located (shr_record_of_loc m l) N D.
Proof.
  intros Hm Hl. unfold located, loc_ok in *.
  destruct l as [| []]; cbn; (split; [assumption |]); rewrite <- Hl;
    split; intros; reflexivity || discriminate.
Qed.

Lemma shr_located (mrs : shr_record) (e n N D : Z) :
  0 <= N → 0 < D → located mrs N D →
  ∃ mrs', shr mrs e n = (mrs', e + Z.max 0 n) ∧ located mrs' N (D * 2 ^ Z.max 0 n).
Proof.
  intros HN HD Hl. destruct n as [| p | p]; cbn [shr].
  - exists mrs. rewrite Z.add_0_r, Z.mul_1_r. auto.
  - eexists. split; [reflexivity |].
    replace (Z.max 0 (Zpos p)) with (Zpos p) by lia.
    apply iter_pos_shr_1_located; assumption.
  - exists mrs. replace (Z.max 0 (Zneg p)) with 0 by lia.
    rewrite Z.add_0_r, Z.mul_1_r. auto.
Qed.

Lemma cexp_eq (m e : Z) : cexp m e = Z.max (Zdigits2 m + e - 53) (-1074).
Proof. reflexivity. Qed.

Lemma shr_fexp_located (m e : Z) (l : location) (N D : Z) :
  0 <= N → 0 < D → m = N / D → loc_ok l N D →
  ∃ mrs', shr_fexp prec emax m e l = (mrs', Z.max e (cexp m e)) ∧
          located mrs' N (D * 2 ^ (Z.max e (cexp m e) - e)).
Proof.
  intros HN HD Hm Hl. unfold shr_fexp. fold (cexp m e).
  destruct (shr_located (shr_record_of_loc m l) e (cexp m e - e) N D HN HD)
    as (mrs' & E & Hloc); [apply located_of_loc; assumption |].
  exists mrs'. rewrite E.
  replace (e + Z.max 0 (cexp m e - e)) with (Z.max e (cexp m e)) by lia.
  replace (Z.max e (cexp m e) - e) with (Z.max 0 (cexp m e - e)) by lia. auto.
Qed.

Lemma round_nearest_even_located (mrs : shr_record) (N D : Z) :
  located mrs N D →
  N / D <= round_nearest_even (shr_m mrs) (loc_of_shr_record mrs) <= N / D + 1 ∧
  (N mod D = 0 → round_nearest_even (shr_m mrs) (loc_of_shr_record mrs) = N / D).
Proof.
  intros [Hm Hrs]. destruct mrs as [m r s]. cbn in *. subst m.
  destruct r, s; cbn in *; try destruct (Z.even (N / D)); split; try lia;
    intros H0; apply Hrs in H0; discriminate || reflexivity.
Qed.

(** What [binary_round_aux] returns for the positive quotient [N / D] at
    exponent [ex]: the quotient is brought to the exponent [e1] of the
    format, rounded to one of its two integer neighbours [m1], and
    renormalised when the rounding carries into a 54th bit. *)
Lemma binary_round_aux_spec (s : bool) (N D ex : Z) (lx : location) :
  0 < D → D <= N → loc_ok lx N D → (D = 1 ∨ ex <= cexp (N / D) ex) →
  let e1 := Z.max ex (cexp (N / D) ex) in
  let D1 := D * 2 ^ (e1 - ex) in
  ∃ m1, N / D1 <= m1 <= N / D1 + 1 ∧ (N mod D1 = 0 → m1 = N / D1) ∧
        m1 <= 2 ^ 53 ∧ -1074 <= e1 ∧
        (e1 = cexp (N / D) ex ∨ (D1 = 1 ∧ e1 = ex)) ∧
        binary_round_aux prec emax s (N / D) ex lx =
          if m1 =? 0 then S754_zero s
          else if m1 =? 2 ^ 53 then
            if e1 + 1 <=? 971 then S754_finite s 4503599627370496 (e1 + 1)
            else S754_infinity s
          else if e1 <=? 971 then S754_finite s (Z.to_pos m1) e1
          else S754_infinity s.
Proof.
  intros HD HN Hlx Hcond e1 D1.
  assert (Hmx : 0 < N / D) by (apply Z.div_str_pos; lia).
  destruct (Zdigits2_bounds (N / D) Hmx) as (Hd0 & Hdl & Hdu).
  assert (Hk : 0 <= e1 - ex) by (unfold e1; lia).
  assert (Hpk : 0 < 2 ^ (e1 - ex)) by (apply Z.pow_pos_nonneg; lia).
  assert (HD1 : 0 < D1) by (unfold D1; nia).
  destruct (shr_fexp_located (N / D) ex lx N D) as (mrs' & E1 & Hloc1);
    [lia | assumption | reflexivity | assumption |].
  fold e1 in E1, Hloc1. fold D1 in Hloc1.
  destruct (round_nearest_even_located mrs' N D1 Hloc1) as [Hm1 Hex].
  set (m1 := round_nearest_even (shr_m mrs') (loc_of_shr_record mrs')) in *.
  assert (Hq : N / D1 = N / D / 2 ^ (e1 - ex)) by (unfold D1; rewrite Z.div_div; lia).
  assert (Hbound : N / D1 < 2 ^ 53 ∧ -1074 <= e1 ∧ (N mod D1 = 0 ∨ N / D1 + 1 <= 2 ^ 53)
                   ∧ (e1 = cexp (N / D) ex ∨ (D1 = 1 ∧ e1 = ex))).
  { pose proof (cexp_eq (N / D) ex) as Hc.
    destruct (Z.le_gt_cases ex (cexp (N / D) ex)) as [Hle | Hgt].
    - assert (He1 : e1 = cexp (N / D) ex) by (unfold e1; lia).
      assert (N / D1 < 2 ^ 53).
      { rewrite Hq. apply Z.div_lt_upper_bound; [lia |].
        rewrite <- Z.pow_add_r by lia.
        eapply Z.lt_le_trans; [apply Hdu |]. apply Z.pow_le_mono_r; lia. }
      split; [assumption |]. split; [lia |]. split; [right; lia | left; assumption].
    - destruct Hcond as [-> | ?]; [| lia].
      assert (He1 : e1 = ex) by (unfold e1; lia).
      assert (HD1' : D1 = 1) by (unfold D1; rewrite He1, Z.sub_diag; reflexivity).
      rewrite HD1', Z.div_1_r, Z.mod_1_r in *.
      assert (N < 2 ^ 52).
      { eapply Z.lt_le_trans; [apply Hdu |]. apply Z.pow_le_mono_r; lia. }
      split; [lia |]. split; [lia |]. split; [left; reflexivity | right; auto]. }
  destruct Hbound as (Hb1 & Hb2 & Hb3 & Hb4).
  assert (Hm1le : m1 <= 2 ^ 53) by (destruct Hb3 as [H0 | ?]; [rewrite (Hex H0) | ]; lia).
  assert (Hm1ge : 0 <= m1).
  { assert (0 <= N / D1) by (apply Z.div_pos; lia). lia. }
  exists m1. split; [assumption |]. split; [assumption |].
  split; [assumption |]. split; [assumption |]. split; [assumption |].
  unfold binary_round_aux. rewrite E1. fold m1.
  destruct (shr_fexp_located m1 e1 loc_Exact m1 1) as (mrs'' & E2 & Hloc2);
    [lia | lia | rewrite Z.div_1_r; reflexivity
    | unfold loc_ok; rewrite Z.mod_1_r; tauto |].
  rewrite E2. destruct Hloc2 as [Hm2 _]. rewrite Z.mul_1_l in Hm2. rewrite Hm2.
  pose proof (cexp_eq m1 e1) as Hc2.
  destruct (Z.eqb_spec m1 0) as [H0 | Hne0].
  - rewrite H0 in *. cbn [Zdigits2] in Hc2.
    replace (Z.max e1 (cexp 0 e1) - e1) with 0 by lia. reflexivity.
  - destruct (Z.eqb_spec m1 (2 ^ 53)) as [H53 | Hne53].
    + rewrite H53 in *. change (Zdigits2 (2 ^ 53)) with 54 in Hc2.
      replace (Z.max e1 (cexp (2 ^ 53) e1)) with (e1 + 1) by lia.
      replace (e1 + 1 - e1) with 1 by lia. reflexivity.
    + assert (Hdig : Zdigits2 m1 <= 53) by (apply Zdigits2_le; lia).
      replace (Z.max e1 (cexp m1 e1)) with e1 by lia.
      rewrite Z.sub_diag, Z.div_1_r.
      destruct m1 as [| p | p]; try lia. reflexivity.
Qed.

End Shifts.

Section Values.
#[local] Open Scope R_scope.

Lemma bpow_pos (e : Z) : 0 < bpow e.
Proof. apply powerRZ_lt. lra. Qed.

Lemma bpow_add (a b : Z) : bpow (a + b) = bpow a * bpow b.
Proof. apply powerRZ_add. lra. Qed.

Lemma bpow_IZR (e : Z) : (0 <= e)%Z → bpow e = IZR (2 ^ e).
Proof.
  intros He. unfold bpow. rewrite <- (Z2Nat.id e He) at 1.
  rewrite <- pow_powerRZ, pow_IZR, Z2Nat.id by assumption. reflexivity.
Qed.

Lemma bpow_le (a b : Z) : (a <= b)%Z → bpow a <= bpow b.
Proof.
  intros Hab. replace b with (a + (b - a))%Z by lia. rewrite bpow_add.
  rewrite (bpow_IZR (b - a)) by lia.
  assert (1 <= IZR (2 ^ (b - a))).
  { apply IZR_le. assert (0 < 2 ^ (b - a))%Z by (apply Z.pow_pos_nonneg; lia). lia. }
  pose proof (bpow_pos a). nra.
Qed.

Lemma bpow_lt_inv (a b : Z) : bpow a < bpow b → (a < b)%Z.
Proof.
  intros H. destruct (Z.lt_ge_cases a b) as [? | Hge]; [assumption |].
  apply bpow_le in Hge. lra.
Qed.

Lemma bpow_0 : bpow 0 = 1.
Proof. reflexivity. Qed.

Lemma Rdiv_le_upper (a b c : R) : 0 < b → a <= c * b → a / b <= c.
Proof.
  intros Hb H. assert (0 < / b) by (apply Rinv_0_lt_compat; assumption).
  replace c with (c * b / b) by (field; lra).
  unfold Rdiv. apply Rmult_le_compat_r; lra.
Qed.

Lemma Rdiv_le_lower (a b c : R) : 0 < b → c * b <= a → c <= a / b.
Proof.
  intros Hb H. assert (0 < / b) by (apply Rinv_0_lt_compat; assumption).
  replace c with (c * b / b) by (field; lra).
  unfold Rdiv. apply Rmult_le_compat_r; lra.
Qed.

Lemma Rdiv_lt_upper (a b c : R) : 0 < b → a < c * b → a / b < c.
Proof.
  intros Hb H. assert (0 < / b) by (apply Rinv_0_lt_compat; assumption).
  replace c with (c * b / b) by (field; lra).
  unfold Rdiv. apply Rmult_lt_compat_r; lra.
Qed.

Lemma Rdiv_mult_cancel (a b : R) : 0 < b → a / b * b = a.
Proof. intros Hb. field. lra. Qed.

(** The integer quotient brackets the real one. *)
Lemma IZR_div_bounds (N D : Z) :
  (0 < D)%Z → IZR (N / D) <= IZR N / IZR D < IZR (N / D) + 1.
Proof.
  intros HD. pose proof (Z.div_mod N D ltac:(lia)) as Hdm.
  pose proof (Z.mod_pos_bound N D HD) as Hmod.
  assert (HDr : 0 < IZR D) by (apply IZR_lt; assumption).
  assert (HN : IZR N = IZR D * IZR (N / D) + IZR (N mod D))
    by (rewrite <- mult_IZR, <- plus_IZR; f_equal; assumption).
  assert (0 <= IZR (N mod D)) by (apply IZR_le; lia).
  assert (IZR (N mod D) < IZR D) by (apply IZR_lt; lia).
  split.
  - apply Rdiv_le_lower; [assumption | nra].
  - apply Rdiv_lt_upper; [assumption | nra].
Qed.

Lemma F2R_shift (m e k : Z) : (0 <= k)%Z → F2R (m * 2 ^ k) e = F2R m (e + k).
Proof.
  intros Hk. unfold F2R. rewrite mult_IZR, bpow_add, (bpow_IZR k) by assumption. ring.
Qed.

Lemma fmt_lt_bpow (B : R) (mb eb : Z) :
  B = F2R mb eb → (0 < mb < 2 ^ 53)%Z → 0 < B < bpow (53 + eb).
Proof.
  intros -> [H0 H1]. unfold F2R. rewrite bpow_add, (bpow_IZR 53) by lia.
  pose proof (bpow_pos eb). apply IZR_lt in H0, H1. nra.
Qed.

End Values.

Section Rounding.
#[local] Open Scope R_scope.

(** The rounding of a positive quotient does not cross a number of the
    format: between two such numbers it stays between them. *)
Lemma binary_round_aux_bounds (N D ex : Z) (lx : location) (lo hi : R) :
  (0 < D)%Z → (D <= N)%Z → loc_ok lx N D → (D = 1 ∨ ex <= cexp (N / D) ex)%Z →
  lo = 0 ∨ fmt lo → fmt hi →
  lo <= IZR N / IZR D * bpow ex <= hi →
  nonneg_finite (binary_round_aux prec emax false (N / D) ex lx) ∧
  lo <= SF2R (binary_round_aux prec emax false (N / D) ex lx) <= hi.
Proof.
  intros HD HN Hlx Hcond Hlo (mb & eb & Ehi & Hmb & Heb) [Hlov Hvhi].
  destruct (binary_round_aux_spec false N D ex lx HD HN Hlx Hcond)
    as (m1 & Hm1 & Hex & Hm153 & He1min & Hcase & ->).
  set (e1 := Z.max ex (cexp (N / D) ex)) in *.
  set (D1 := (D * 2 ^ (e1 - ex))%Z) in *.
  set (v := IZR N / IZR D * bpow ex) in *.
  assert (Hk : (0 <= e1 - ex)%Z) by (unfold e1; lia).
  assert (Hpk : (0 < 2 ^ (e1 - ex))%Z) by (apply Z.pow_pos_nonneg; lia).
  assert (HD1 : (0 < D1)%Z) by (unfold D1; nia).
  assert (HDr : 0 < IZR D) by (apply IZR_lt; assumption).
  assert (HD1r : 0 < IZR D1) by (apply IZR_lt; assumption).
  assert (Hmx : (0 < N / D)%Z) by (apply Z.div_str_pos; lia).
  destruct (Zdigits2_bounds (N / D) Hmx) as (Hd0 & Hdl & Hdu).
  pose proof (bpow_pos ex) as Hbex. pose proof (bpow_pos e1) as Hbe1.
  pose proof (bpow_pos eb) as Hbeb.
  (* the value at the exponent e1 *)
  assert (Hv : v = IZR N / IZR D1 * bpow e1).
  { unfold v, D1. rewrite mult_IZR, <- (bpow_IZR (e1 - ex)) by assumption.
    replace e1 with (ex + (e1 - ex))%Z at 2 by lia. rewrite bpow_add.
    pose proof (bpow_pos (e1 - ex)). field. lra. }
  pose proof (IZR_div_bounds N D1 HD1) as [Hq1 Hq2].
  pose proof (IZR_div_bounds N D HD) as [Hp1 Hp2].
  assert (Hm1r : IZR (N / D1) <= IZR m1 <= IZR (N / D1) + 1).
  { split; [apply IZR_le; lia |]. rewrite <- (plus_IZR _ 1). apply IZR_le. lia. }
  assert (Hm1pos : (0 <= m1)%Z).
  { assert (0 <= N / D1)%Z by (apply Z.div_pos; lia). lia. }
  (* the magnitude of the value *)
  assert (Hmag : bpow (Zdigits2 (N / D) - 1 + ex) <= v).
  { rewrite bpow_add, bpow_IZR by lia. unfold v.
    apply IZR_le in Hdl. nra. }
  destruct (fmt_lt_bpow hi mb eb Ehi Hmb) as [Hhi0 Hhilt].
  assert (Hdeb : (Zdigits2 (N / D) + ex - 53 <= eb)%Z).
  { assert (bpow (Zdigits2 (N / D) - 1 + ex) < bpow (53 + eb)) by lra.
    apply bpow_lt_inv in H. lia. }
  (* the result is exactly m1 at e1 unless it overflows *)
  assert (Hexp : (e1 + 1 <= 971)%Z).
  { destruct Hcase as [Hc | [_ Hc]].
    - rewrite Hc, cexp_eq. lia.
    - assert (bpow ex <= v).
      { unfold v. assert (1 <= IZR (N / D)) by (apply IZR_le; lia). nra. }
      assert (bpow ex < bpow (53 + eb)) by lra. apply bpow_lt_inv in H0. lia. }
  set (r := if (m1 =? 0)%Z then S754_zero false
            else if (m1 =? 2 ^ 53)%Z then
              if (e1 + 1 <=? 971)%Z then S754_finite false 4503599627370496 (e1 + 1)
              else S754_infinity false
            else if (e1 <=? 971)%Z then S754_finite false (Z.to_pos m1) e1
            else S754_infinity false).
  assert (Hr : nonneg_finite r ∧ SF2R r = IZR m1 * bpow e1).
  { unfold r. destruct (Z.eqb_spec m1 0) as [-> | Hne0].
    - split; [left; reflexivity | simpl; lra].
    - destruct (Z.eqb_spec m1 (2 ^ 53)) as [-> | Hne53].
      + destruct (Z.leb_spec (e1 + 1) 971) as [_ | ?]; [| lia].
        split; [right; eauto |]. cbn [SF2R cond_Zopp]. unfold F2R.
        rewrite bpow_add, (bpow_IZR 1) by lia.
        change (2 ^ 53)%Z with (4503599627370496 * 2)%Z. rewrite mult_IZR.
        change (2 ^ 1)%Z with 2%Z. ring.
      + destruct (Z.leb_spec e1 971) as [_ | ?]; [| lia].
        split; [right; eauto |]. cbn [SF2R cond_Zopp]. unfold F2R.
        rewrite Z2Pos.id by lia. reflexivity. }
  destruct Hr as [Hnf Hval]. split; [assumption |]. rewrite Hval.
  destruct Hcase as [Hc | [HD1' Hc]].
  - (* the quotient is rounded at the exponent of the format *)
    assert (He1eb : (e1 <= eb)%Z) by (rewrite Hc, cexp_eq; lia).
    split.
    + (* lower bound *)
      destruct Hlo as [-> | (ml & el & Elo & Hml & Hel)].
      { apply IZR_le in Hm1pos. nra. }
      destruct (Z.le_gt_cases e1 el) as [Hle | Hgt].
      * (* lo is a multiple of 2^e1 *)
        assert (Elo' : lo = IZR (ml * 2 ^ (el - e1)) * bpow e1).
        { rewrite Elo. change (IZR (ml * 2 ^ (el - e1)) * bpow e1)
            with (F2R (ml * 2 ^ (el - e1)) e1).
          rewrite F2R_shift by lia. f_equal. lia. }
        assert (IZR (ml * 2 ^ (el - e1)) <= IZR N / IZR D1).
        { rewrite Elo', Hv in Hlov. nra. }
        assert (HZ : (ml * 2 ^ (el - e1) * D1 <= N)%Z).
        { apply le_IZR. rewrite mult_IZR.
          replace (IZR N) with (IZR N / IZR D1 * IZR D1) by (field; lra). nra. }
        assert ((ml * 2 ^ (el - e1) <= N / D1)%Z)
          by (apply Z.div_le_lower_bound; lia).
        rewrite Elo'. apply IZR_le in H0. nra.
      * (* lo is below the smallest normal mantissa at e1 *)
        assert (Hk53 : (e1 = Zdigits2 (N / D) + ex - 53)%Z) by (rewrite Hc, cexp_eq in *; lia).
        assert (H52 : (2 ^ 52 <= N / D1)%Z).
        { unfold D1. rewrite <- Z.div_div by lia.
          apply Z.div_le_lower_bound; [lia |].
          rewrite <- Z.pow_add_r by lia.
          replace (e1 - ex + 52)%Z with (Zdigits2 (N / D) - 1)%Z by lia. assumption. }
        destruct (fmt_lt_bpow lo ml el Elo Hml) as [_ Hlolt].
        assert (bpow (53 + el) <= bpow (52 + e1)) by (apply bpow_le; lia).
        rewrite (bpow_add 52 e1), (bpow_IZR 52) in H by lia.
        apply IZR_le in H52. nra.
    + (* upper bound *)
      assert (Ehi' : hi = IZR (mb * 2 ^ (eb - e1)) * bpow e1).
      { rewrite Ehi. change (IZR (mb * 2 ^ (eb - e1)) * bpow e1)
          with (F2R (mb * 2 ^ (eb - e1)) e1).
        rewrite F2R_shift by lia. f_equal. lia. }
      assert (IZR N / IZR D1 <= IZR (mb * 2 ^ (eb - e1))).
      { rewrite Ehi', Hv in Hvhi. nra. }
      assert (HZ : (N <= mb * 2 ^ (eb - e1) * D1)%Z).
      { apply le_IZR. rewrite mult_IZR.
        replace (IZR N) with (IZR N / IZR D1 * IZR D1) by (field; lra). nra. }
      assert (Hm1K : (m1 <= mb * 2 ^ (eb - e1))%Z).
      { pose proof (Z.div_mod N D1 ltac:(lia)) as Hdm.
        pose proof (Z.mod_pos_bound N D1 HD1) as Hmod.
        destruct (Z.eq_dec (N mod D1) 0%Z) as [H0 | Hne].
        - rewrite (Hex H0). apply Z.div_le_upper_bound; lia.
        - assert (N / D1 < mb * 2 ^ (eb - e1))%Z; [| lia].
          apply Z.div_lt_upper_bound; [lia |].
          assert (N ≠ mb * 2 ^ (eb - e1) * D1)%Z
            by (intros E; apply Hne; rewrite E; apply Z.mod_mul; lia).
          lia. }
      rewrite Ehi'. apply IZR_le in Hm1K. nra.
  - (* an exact value that needs no rounding *)
    assert (Hm1N : m1 = N).
    { rewrite HD1' in Hex. rewrite Hex by apply Z.mod_1_r. apply Z.div_1_r. }
    assert (IZR m1 * bpow e1 = v).
    { rewrite Hv, Hm1N, HD1'. field. }
    lra.
Qed.

Lemma fmt0_IZR (z : Z) : (0 <= z < 2 ^ 53)%Z → fmt0 (IZR z).
Proof.
  intros Hz. destruct (Z.eq_dec z 0%Z) as [-> | Hne]; [left; reflexivity | right].
  exists z, 0%Z. unfold F2R. rewrite bpow_0, Rmult_1_r.
  split; [reflexivity | lia].
Qed.

Lemma fmt0_positive (B : R) : fmt0 B → 0 < B → fmt B.
Proof. intros [-> | H] HB; [lra | assumption]. Qed.

Lemma loc_ok_exact (N : Z) : loc_ok loc_Exact N 1.
Proof. unfold loc_ok. rewrite Z.mod_1_r. tauto. Qed.

(** Rounding a positive mantissa at an exponent *)
Lemma round_exact_bounds (m : positive) (e : Z) (lo hi : R) :
  fmt0 lo → fmt0 hi → lo <= F2R (Zpos m) e <= hi →
  nonneg_finite (binary_round_aux prec emax false (Zpos m) e loc_Exact) ∧
  lo <= SF2R (binary_round_aux prec emax false (Zpos m) e loc_Exact) <= hi.
Proof.
  intros Hlo Hhi Hv.
  assert (0 < F2R (Zpos m) e).
  { unfold F2R. pose proof (bpow_pos e). assert (0 < IZR (Zpos m)) by (apply IZR_lt; lia). nra. }
  rewrite <- (Z.div_1_r (Zpos m)).
  apply binary_round_aux_bounds; try lia.
  - apply loc_ok_exact.
  - assumption.
  - apply fmt0_positive; [assumption | lra].
  - unfold F2R in Hv. replace (IZR (Zpos m) / IZR 1) with (IZR (Zpos m)) by (field; lra).
    assumption.
Qed.

Lemma shl_align_spec (m : positive) (e t : Z) :
  (snd (shl_align m e t) <= e)%Z ∧
  Zpos (fst (shl_align m e t)) = (Zpos m * 2 ^ (e - snd (shl_align m e t)))%Z.
Proof.
  unfold shl_align. destruct (t - e)%Z as [| d | d] eqn:E; cbn [fst snd].
  - rewrite Z.sub_diag. lia.
  - rewrite Z.sub_diag. lia.
  - split; [lia |]. replace (e - t)%Z with (Zpos d) by lia.
    clear E. induction d as [| d IH] using Pos.peano_ind.
    + cbn. lia.
    + rewrite Pos.iter_succ, Pos2Z.inj_xO, IH, Pos2Z.inj_succ, Z.pow_succ_r by lia. lia.
Qed.

Lemma binary_normalize_bounds (m e : Z) (lo hi : R) :
  (0 <= m)%Z → fmt0 lo → fmt0 hi → lo <= F2R m e <= hi →
  nonneg_finite (binary_normalize prec emax m e false) ∧
  lo <= SF2R (binary_normalize prec emax m e false) <= hi.
Proof.
  intros Hm Hlo Hhi Hv. destruct m as [| p | p]; [| | lia].
  - cbn. unfold F2R in Hv. split; [left; reflexivity | lra].
  - cbn [binary_normalize]. unfold binary_round.
    pose proof (shl_align_spec p e (fexp prec emax (Zpos (digits2_pos p) + e))) as [Hs1 Hs2].
    destruct (shl_align p e (fexp prec emax (Zpos (digits2_pos p) + e))) as [mz ez].
    cbn [fst snd] in Hs1, Hs2.
    apply round_exact_bounds; try assumption.
    rewrite Hs2, F2R_shift by lia. replace (ez + (e - ez))%Z with e by lia. assumption.
Qed.

Lemma SF2R_nonneg (x : spec_float) : nonneg_finite x → 0 <= SF2R x.
Proof.
  intros [-> | (m & e & ->)]; cbn; [lra |]. unfold F2R.
  pose proof (bpow_pos e). assert (0 < IZR (Zpos m)) by (apply IZR_lt; lia). nra.
Qed.

Lemma SFmul_bounds (x y : spec_float) (lo hi : R) :
  nonneg_finite x → nonneg_finite y → fmt0 lo → fmt0 hi →
  lo <= SF2R x * SF2R y <= hi →
  nonneg_finite (SF64mul x y) ∧ lo <= SF2R (SF64mul x y) <= hi.
Proof.
  intros [-> | (mx & ex & ->)] [-> | (my & ey & ->)] Hlo Hhi Hv;
    cbn [SF64mul SFmul xorb SF2R cond_Zopp] in *;
    try (split; [left; reflexivity | cbn; lra]).
  apply round_exact_bounds; try assumption.
  unfold F2R in *. rewrite Pos2Z.inj_mul, mult_IZR, bpow_add.
  replace (IZR (Zpos mx) * IZR (Zpos my) * (bpow ex * bpow ey))
    with (IZR (Zpos mx) * bpow ex * (IZR (Zpos my) * bpow ey)) by ring.
  assumption.
Qed.

Lemma SFsub_bounds (x y : spec_float) (lo hi : R) :
  nonneg_finite x → nonneg_finite y → fmt0 lo → fmt0 hi →
  SF2R y <= SF2R x →
  lo <= SF2R x - SF2R y <= hi →
  nonneg_finite (SF64sub x y) ∧ lo <= SF2R (SF64sub x y) <= hi.
Proof.
  intros Hx Hy Hlo Hhi Hyx Hv.
  destruct Hx as [-> | (mx & ex & ->)], Hy as [-> | (my & ey & ->)];
    cbn [SF64sub SFsub].
  - split; [left; reflexivity | cbn in *; lra].
  - exfalso. pose proof (SF2R_nonneg (S754_finite false my ey)) as H.
    cbn [SF2R cond_Zopp] in *. unfold F2R in *.
    pose proof (bpow_pos ey). assert (0 < IZR (Zpos my)) by (apply IZR_lt; lia). nra.
  - split; [right; eauto | cbn [SF2R] in *; lra].
  - cbn [SF2R cond_Zopp] in Hyx, Hv.
    pose proof (shl_align_spec mx ex (Z.min ex ey)) as [Hx1 Hx2].
    pose proof (shl_align_spec my ey (Z.min ex ey)) as [Hy1 Hy2].
    assert (Ex : snd (shl_align mx ex (Z.min ex ey)) = Z.min ex ey).
    { unfold shl_align. destruct (Z.min ex ey - ex)%Z eqn:E; cbn [snd]; lia. }
    assert (Ey : snd (shl_align my ey (Z.min ex ey)) = Z.min ex ey).
    { unfold shl_align. destruct (Z.min ex ey - ey)%Z eqn:E; cbn [snd]; lia. }
    rewrite Ex in Hx2. rewrite Ey in Hy2.
    cbn [cond_Zopp]. rewrite Hx2, Hy2.
    set (ez := Z.min ex ey) in *.
    assert (Hvx : F2R (Zpos mx) ex = F2R (Zpos mx * 2 ^ (ex - ez)) ez).
    { rewrite F2R_shift by lia. f_equal. lia. }
    assert (Hvy : F2R (Zpos my) ey = F2R (Zpos my * 2 ^ (ey - ez)) ez).
    { rewrite F2R_shift by lia. f_equal. lia. }
    assert (Hd : F2R (Zpos mx * 2 ^ (ex - ez) - Zpos my * 2 ^ (ey - ez)) ez
                 = F2R (Zpos mx) ex - F2R (Zpos my) ey).
    { rewrite Hvx, Hvy. unfold F2R. rewrite minus_IZR. ring. }
    apply binary_normalize_bounds; try assumption.
    + apply le_IZR. pose proof (bpow_pos ez). unfold F2R in Hd.
      rewrite Hvx, Hvy in Hyx. unfold F2R in Hyx.
      rewrite minus_IZR. nra.
    + rewrite Hd. assumption.
Qed.

Lemma new_location_ok (nb k : Z) : new_location nb k = loc_Exact ↔ k = 0%Z.
Proof.
  unfold new_location, new_location_even, new_location_odd.
  destruct (Z.even nb), (Z.eqb_spec k 0); split; intros; try discriminate; tauto.
Qed.

Lemma Zdigits2_pos (m : positive) : Zdigits2 (Zpos m) = Zpos (digits2_pos m).
Proof. reflexivity. Qed.

(** The magnitude of a positive mantissa at an exponent *)
Lemma F2R_magnitude (m : positive) (e : Z) :
  bpow (Zpos (digits2_pos m) - 1 + e) <= F2R (Zpos m) e < bpow (Zpos (digits2_pos m) + e).
Proof.
  pose proof (digits2_pos_bounds m) as [Hl Hu]. unfold F2R.
  rewrite !bpow_add, (bpow_IZR (Zpos (digits2_pos m) - 1)),
    (bpow_IZR (Zpos (digits2_pos m))) by lia.
  pose proof (bpow_pos e).
  apply IZR_le in Hl. apply IZR_lt in Hu. nra.
Qed.

Lemma SFdiv_bounds (x y : spec_float) (lo hi : R) :
  nonneg_finite x → nonneg_finite y → 0 < SF2R y →
  SF2R x = 0 ∨ bpow (-1020) <= SF2R x / SF2R y →
  fmt0 lo → fmt0 hi →
  lo <= SF2R x / SF2R y <= hi →
  nonneg_finite (SF64div x y) ∧ lo <= SF2R (SF64div x y) <= hi.
Proof.
  intros Hx Hy Hy0 Hunder Hlo Hhi Hv.
  destruct Hy as [-> | (my & ey & ->)]; [cbn in Hy0; lra |].
  destruct Hx as [-> | (mx & ex & ->)].
  { cbn [SF64div SFdiv xorb]. cbn [SF2R] in *. unfold Rdiv in Hv.
    rewrite Rmult_0_l in Hv. split; [left; reflexivity | cbn; lra]. }
  cbn [SF2R cond_Zopp] in *.
  pose proof (F2R_magnitude mx ex) as [Hxl Hxu].
  pose proof (F2R_magnitude my ey) as [Hyl Hyu].
  pose proof (bpow_pos (Zpos (digits2_pos mx) - 1 + ex)) as Hx0.
  destruct Hunder as [H0 | Hunder]; [lra |].
  set (d1 := Zpos (digits2_pos mx)) in *. set (d2 := Zpos (digits2_pos my)) in *.
  set (delta := (d1 + ex - (d2 + ey))%Z).
  (* the quotient is far above the smallest exponent *)
  assert (Hdelta : (-1020 <= delta)%Z).
  { assert (F2R (Zpos mx) ex / F2R (Zpos my) ey < bpow (delta + 1)).
    { apply Rdiv_lt_upper; [assumption |].
      assert (bpow (d1 + ex) = bpow (delta + 1) * bpow (d2 - 1 + ey)).
      { rewrite <- bpow_add. f_equal. unfold delta. lia. }
      pose proof (bpow_pos (delta + 1)). nra. }
    assert (bpow (-1020) < bpow (delta + 1)) by lra.
    apply bpow_lt_inv in H0. lia. }
  cbn [SF64div SFdiv xorb]. unfold SFdiv_core_binary.
  rewrite !Zdigits2_pos. fold d1 d2.
  replace (d1 + ex - (d2 + ey))%Z with delta by reflexivity.
  assert (Hfexp : fexp prec emax delta = (delta - 53)%Z).
  { unfold fexp, SpecFloat.emin, prec, emax. lia. }
  rewrite Hfexp.
  set (e' := Z.min (delta - 53) (ex - ey)).
  set (s := (ex - ey - e')%Z).
  assert (Hs : (0 <= s)%Z) by (unfold s, e'; lia).
  assert (Hs53 : (d2 - d1 + 53 <= s)%Z) by (unfold s, e', delta; lia).
  set (N := (Zpos mx * 2 ^ s)%Z).
  assert (HN : match s with
               | Zpos _ => Z.shiftl (Zpos mx) s
               | Z0 => Zpos mx
               | Zneg _ => 0%Z
               end = N).
  { unfold N. destruct s as [| p | p] eqn:Es; try lia.
    - rewrite Z.shiftl_mul_pow2 by lia. reflexivity. }
  rewrite HN.
  pose proof (digits2_pos_bounds mx) as [Hmxl Hmxu]. fold d1 in Hmxl, Hmxu.
  pose proof (digits2_pos_bounds my) as [Hmyl Hmyu]. fold d2 in Hmyl, Hmyu.
  assert (Hps : (0 < 2 ^ s)%Z) by (apply Z.pow_pos_nonneg; lia).
  assert (HNl : (2 ^ (d1 - 1 + s) <= N)%Z).
  { unfold N. rewrite Z.pow_add_r by lia. nia. }
  assert (Hbig : (2 ^ d2 * 2 ^ (d1 - 1 + s - d2) <= N)%Z).
  { rewrite <- Z.pow_add_r by lia. replace (d2 + (d1 - 1 + s - d2))%Z with (d1 - 1 + s)%Z by lia.
    assumption. }
  assert (Hp2 : (0 < 2 ^ (d1 - 1 + s - d2))%Z) by (apply Z.pow_pos_nonneg; lia).
  assert (HDN : (Zpos my <= N)%Z) by nia.
  assert (Hq : (2 ^ (d1 - 1 + s - d2) <= N / Zpos my)%Z).
  { apply Z.div_le_lower_bound; [lia |]. nia. }
  assert (Hdq : (d1 + s - d2 <= Zdigits2 (N / Zpos my))%Z).
  { apply Zdigits2_ge; [| lia].
    replace (d1 + s - d2 - 1)%Z with (d1 - 1 + s - d2)%Z by lia. assumption. }
  unfold Z.div_eucl at 1. fold (Z.div_eucl N (Zpos my)).
  pose proof (Z.div_eucl_eq N (Zpos my) ltac:(lia)) as Hde.
  assert (Hdiv : (N / Zpos my = fst (Z.div_eucl N (Zpos my)))%Z) by reflexivity.
  assert (Hmod : (N mod Zpos my = snd (Z.div_eucl N (Zpos my)))%Z) by reflexivity.
  destruct (Z.div_eucl N (Zpos my)) as [q r]. cbn [fst snd] in Hdiv, Hmod.
  subst q r.
  apply binary_round_aux_bounds; try assumption; try lia.
  - unfold loc_ok. apply new_location_ok.
  - right. rewrite cexp_eq. unfold e', s, delta in *. lia.
  - apply fmt0_positive; [assumption |].
    assert (0 < F2R (Zpos mx) ex / F2R (Zpos my) ey); [| lra].
    apply Rdiv_lt_0_compat; lra.
  - replace (IZR N / IZR (Zpos my) * bpow e')
      with (F2R (Zpos mx) ex / F2R (Zpos my) ey); [assumption |].
    unfold N, F2R. rewrite mult_IZR, <- bpow_IZR by assumption.
    assert (bpow ex = bpow s * bpow e' * bpow ey).
    { rewrite <- !bpow_add. f_equal. unfold s. lia. }
    rewrite H. pose proof (bpow_pos ey). pose proof (bpow_pos e').
    assert (0 < IZR (Zpos my)) by (apply IZR_lt; lia). field. lra.
Qed.

End Rounding.

(** ** Facts about binary64 values *)

Section Binary64.
#[local] Open Scope Z_scope.

(** A valid finite double has at most 53 mantissa bits, and exactly 53
    unless its exponent is the smallest one. *)
Lemma bounded_canonical (m : positive) (e : Z) :
  SpecFloat.bounded prec emax m e = true →
  Zpos (digits2_pos m) <= 53 ∧ -1074 <= e <= 971 ∧
  (e = -1074 ∨ Zpos (digits2_pos m) = 53).
Proof.
  unfold SpecFloat.bounded, canonical_mantissa, fexp, SpecFloat.emin, prec, emax.
  intros H. apply andb_true_iff in H as [H1 H2].
  apply Z.eqb_eq in H1. apply Z.leb_le in H2. lia.
Qed.

(** A double in [[0, 255.5)] rounds to an integer in [[0, 255]]. *)
Lemma round_in_byte_range (v : float) :
  (0 <=? v)%float = true → (v <? 255.5)%float = true →
  ∃ z, JS.Math_round v = JS.Int z ∧ 0 <= z <= 255.
Proof.
  rewrite FloatAxioms.leb_spec, FloatAxioms.ltb_spec. unfold JS.Math_round.
  pose proof (Prim2SF_valid v) as Hv.
  replace (Prim2SF 0) with (S754_zero false) by (vm_compute; reflexivity).
  replace (Prim2SF 255.5) with (S754_finite false 8989607068696576 (-45))
    by (vm_compute; reflexivity).
  destruct (Prim2SF v) as [s | s | | s m e]; simpl in Hv.
  - intros _ _. exists 0. split; [reflexivity | lia].
  - destruct s; discriminate.
  - discriminate.
  - apply bounded_canonical in Hv as (Hd & He & Hc).
    pose proof (digits2_pos_bounds m) as Hm.
    assert (Hm53 : Zpos m < 2 ^ 53).
    { eapply Z.lt_le_trans; [apply Hm |]. apply Z.pow_le_mono_r; lia. }
    unfold SFleb, SFltb, SFcompare.
    destruct s; [discriminate |]. intros _ Hlt.
    assert (Hcase : e < -45 ∨ (e = -45 ∧ Zpos m < 8989607068696576)).
    { destruct (Z.compare_spec e (-45)) as [-> | |]; [| lia | discriminate].
      right. split; [reflexivity |].
      rewrite Pos.compare_cont_spec in Hlt.
      destruct (Pos.compare_spec m 8989607068696576); simpl in Hlt; try discriminate.
      exact H. }
    exists (JS.round_finite false m e). split; [reflexivity |].
    unfold JS.round_finite. simpl cond_Zopp.
    destruct (Z.leb_spec 0 e) as [? | _]; [lia |].
    assert (Hp : 0 < 2 ^ (- e)) by (apply Z.pow_pos_nonneg; lia).
    assert (Hp2 : 2 ^ (1 - e) = 2 * 2 ^ (- e)).
    { replace (1 - e) with (Z.succ (- e)) by lia. apply Z.pow_succ_r. lia. }
    rewrite Hp2. split.
    + apply Z.div_pos; lia.
    + apply Z.lt_succ_r. apply Z.div_lt_upper_bound; [lia |].
      destruct Hcase as [He' | [-> Hm']].
      * assert (2 ^ 46 <= 2 ^ (- e)) by (apply Z.pow_le_mono_r; lia).
        change (2 ^ 53) with (128 * 2 ^ 46) in Hm53. lia.
      * change (2 ^ (- -45)) with 35184372088832. lia.
Qed.

End Binary64.

(** ** Doubles between two bounds *)

Section Doubles.
#[local] Open Scope R_scope.

Lemma val_nonneg (x : float) : good x → 0 <= val x.
Proof. apply SF2R_nonneg. Qed.

Lemma mul_bounds (x y : float) (lo hi : R) :
  good x → good y → fmt0 lo → fmt0 hi →
  lo <= val x * val y <= hi →
  good (x * y) ∧ lo <= val (x * y) <= hi.
Proof. unfold good, val. rewrite FloatAxioms.mul_spec. apply SFmul_bounds. Qed.

Lemma sub_bounds (x y : float) (lo hi : R) :
  good x → good y → fmt0 lo → fmt0 hi →
  val y <= val x → lo <= val x - val y <= hi →
  good (x - y) ∧ lo <= val (x - y) <= hi.
Proof. unfold good, val. rewrite FloatAxioms.sub_spec. apply SFsub_bounds. Qed.

Lemma div_bounds (x y : float) (lo hi : R) :
  good x → good y → 0 < val y →
  val x = 0 ∨ bpow (-1020) <= val x / val y →
  fmt0 lo → fmt0 hi →
  lo <= val x / val y <= hi →
  good (x / y) ∧ lo <= val (x / y) <= hi.
Proof. unfold good, val. rewrite FloatAxioms.div_spec. apply SFdiv_bounds. Qed.

(** An integer below 2^53 is a double. *)
Lemma number_val (z : Z) :
  (0 <= z < 2 ^ 53)%Z → good (JS.number z) ∧ val (JS.number z) = IZR z.
Proof.
  intros Hz. unfold good, val, JS.number.
  destruct (Z.ltb_spec z 0) as [? | _]; [lia |].
  rewrite of_uint63_spec, Uint63.of_Z_spec.
  rewrite Z.mod_small by (change wB with (2 ^ 63)%Z; lia).
  destruct (binary_normalize_bounds z 0 (IZR z) (IZR z)) as [Hg Hv].
  - lia.
  - apply fmt0_IZR. assumption.
  - apply fmt0_IZR. assumption.
  - unfold F2R. rewrite bpow_0. lra.
  - split; [assumption | lra].
Qed.

(** [Math.floor] of a double that is zero or positive *)
Lemma floor_bounds (x : float) :
  good x → ∃ f, JS.Math_floor x = JS.Int f ∧ IZR f <= val x < IZR f + 1.
Proof.
  unfold good, val, JS.Math_floor.
  intros [-> | (m & e & ->)].
  - exists 0%Z. cbn. split; [reflexivity | lra].
  - exists (JS.floor_finite false m e). split; [reflexivity |].
    unfold JS.floor_finite. cbn [cond_Zopp SF2R]. unfold F2R.
    destruct (Z.le_gt_cases 0 e) as [He | He].
    + rewrite Z.shiftl_mul_pow2, mult_IZR, bpow_IZR by assumption. lra.
    + rewrite Z.shiftl_div_pow2 by lia.
      assert (Hp : (0 < 2 ^ (- e))%Z) by (apply Z.pow_pos_nonneg; lia).
      pose proof (IZR_div_bounds (Zpos m) (2 ^ (- e)) Hp) as Hb.
      rewrite <- bpow_IZR in Hb by lia.
      assert (bpow e * bpow (- e) = 1).
      { rewrite <- bpow_add. replace (e + - e)%Z with 0%Z by lia. apply bpow_0. }
      pose proof (bpow_pos (- e)). pose proof (bpow_pos e).
      replace (IZR (Zpos m) * bpow e) with (IZR (Zpos m) / bpow (- e)); [assumption |].
      unfold Rdiv. f_equal. apply Rmult_eq_reg_r with (bpow (- e)); [| lra].
      rewrite Rinv_l by lra. lra.
Qed.

Lemma floor_range (x : float) (a b : Z) :
  good x → IZR a <= val x → val x <= IZR b →
  ∃ f, JS.Math_floor x = JS.Int f ∧ (a <= f <= b)%Z.
Proof.
  intros Hg Ha Hb. destruct (floor_bounds x Hg) as (f & Hf & Hl & Hu).
  exists f. split; [assumption |]. split.
  - assert (IZR a < IZR (f + 1)) by (rewrite plus_IZR; lra).
    apply lt_IZR in H. lia.
  - apply le_IZR. lra.
Qed.

Lemma floor_range_strict (x : float) (a b : Z) :
  good x → IZR a <= val x → val x < IZR b →
  ∃ f, JS.Math_floor x = JS.Int f ∧ (a <= f < b)%Z.
Proof.
  intros Hg Ha Hb. destruct (floor_bounds x Hg) as (f & Hf & Hl & Hu).
  exists f. split; [assumption |]. split.
  - assert (IZR a < IZR (f + 1)) by (rewrite plus_IZR; lra).
    apply lt_IZR in H. lia.
  - apply lt_IZR. lra.
Qed.

End Doubles.

(** ** The luminance of every 8-bit pixel, by enumeration *)

Lemma forallb3_sound {A} (f : A → A → A → bool) (l : list A) :
  forallb3 f l = true →
  ∀ r g b, In r l → In g l → In b l → f r g b = true.
Proof.
  unfold forallb3. intros H r g b Hr Hg Hb.
  rewrite forallb_forall in H. specialize (H _ Hr).
  rewrite forallb_forall in H. specialize (H _ Hg).
  rewrite forallb_forall in H. exact (H _ Hb).
Qed.

Section LuminanceRange.
#[local] Open Scope float_scope.

Lemma all_luminance_sums_in_range :
  forallb3 luminance_sum_in_range byte_values = true.
Proof. vm_cast_no_check (eq_refl true). Qed.

Lemma byte_value_listed (c : byte) : In (JS.to_number (Some c)) byte_values.
Proof.
  apply list_elem_of_In, list_elem_of_lookup.
  exists (N.to_nat (Byte.to_N c)).
  destruct c; vm_compute; reflexivity.
Qed.

(** Every pixel of 8-bit channels has a luminance in [[0, 255]]. *)
Lemma pixel_luminance_range (r g b : byte) :
  ∃ z, pixel_luminance (Some r) (Some g) (Some b) = JS.Int z ∧ (0 <= z <= 255)%Z.
Proof.
  pose proof (forallb3_sound _ _ all_luminance_sums_in_range _ _ _
                (byte_value_listed r) (byte_value_listed g) (byte_value_listed b)) as H.
  unfold luminance_sum_in_range in H. apply andb_true_iff in H as [H0 H1].
  apply round_in_byte_range; assumption.
Qed.

End LuminanceRange.

(** ** Loop invariants *)

Section Loops.
#[local] Open Scope nat_scope.
Context {St : Type}.

Lemma for_loop_invariant (I : nat → St → Prop) (body : nat → St → completion St)
    (count from : nat) (s : St) :
  I from s →
  (∀ i t, from ≤ i < from + count → I i t → ∃ t', body i t = Normal t' ∧ I (S i) t') →
  ∃ s', for_loop from count body s = Normal s' ∧ I (from + count) s'.
Proof.
  revert from s. induction count as [| count IH]; intros from s H0 Hstep.
  - exists s. rewrite Nat.add_0_r. auto.
  - destruct (Hstep from s) as (t & Hb & Ht); [lia | assumption |].
    destruct (IH (S from) t) as (s' & Hl & Hs'); [assumption | |].
    + intros i u Hi. apply Hstep. lia.
    + exists s'. simpl. rewrite Hb. simpl. rewrite Hl.
      replace (from + S count) with (S from + count) by lia. auto.
Qed.

(** The two nested loops over rows and columns: [I y x] holds before the
    pixel at column [x] of row [y] is processed. *)
Lemma nested_loop_invariant (I : nat → nat → St → Prop)
    (body : nat → nat → St → completion St) (width height : nat) (s : St) :
  I 0 0 s →
  (∀ y x t, y < height → x < width → I y x t →
     ∃ t', body y x t = Normal t' ∧ I y (S x) t') →
  (∀ y t, y < height → I y width t → I (S y) 0 t) →
  ∃ s', for_loop 0 height (fun y => for_loop 0 width (body y)) s = Normal s'
        ∧ I height 0 s'.
Proof.
  intros H0 Hstep Hrow.
  apply (for_loop_invariant (fun y t => I y 0 t)); [assumption |].
  intros y t Hy Ht.
  destruct (for_loop_invariant (I y) (body y) width 0 t) as (t' & Hl & Ht');
    [assumption | |].
  - intros x u Hx Hu. apply Hstep; [lia | lia | assumption].
  - exists t'. split; [assumption |]. apply Hrow; [lia | assumption].
Qed.

End Loops.

(** ** The loop body without its exceptions *)

Section PixelUpdate.
#[local] Open Scope nat_scope.

Lemma push_at_in_range {A} (x : nat) (v : A) (cols : list (list A)) :
  x < length cols → push_at x v cols = Normal (alter (fun c => c ++ [v]) x cols).
Proof.
  intros Hx. unfold push_at.
  destruct (lookup_lt_is_Some_2 cols x Hx) as [c ->]. reflexivity.
Qed.

Lemma pixel_step_update data width rate y x st :
  x < width → shaped width st →
  pixel_step data width rate y x st = Normal (pixel_update data width rate y x st).
Proof.
  intros Hx (Hl & Hr & Hg & Hb). unfold pixel_step, pixel_update.
  rewrite push_at_in_range by lia. cbn [bind].
  destruct (Nat.ltb_spec (x / 3) (width / 3)) as [Hp | Hp]; cbn [bind].
  - rewrite !push_at_in_range by lia. reflexivity.
  - reflexivity.
Qed.

Lemma pixel_update_shaped data width rate y x st :
  shaped width st → shaped width (pixel_update data width rate y x st).
Proof.
  intros (Hl & Hr & Hg & Hb). unfold shaped, pixel_update.
  cbn [luminance rgbColumns]. rewrite length_alter.
  destruct (x / 3 <? width / 3);
    cbn [columns_r columns_g columns_b]; rewrite ?length_alter; auto.
Qed.

Lemma initial_scope_data_shaped width : shaped width (initial_scope_data width).
Proof.
  unfold shaped, initial_scope_data, empty_columns. simpl.
  rewrite !length_replicate. auto.
Qed.

(** Invariant rule for [calculateScopeData]: [P y x] holds of the datasets
    before the pixel at column [x] of row [y] is visited. *)
Lemma calculateScopeData_invariant (P : nat → nat → scope_data → Prop)
    (data : list byte) (width height : nat) :
  P 0 0 (initial_scope_data width) →
  (∀ y x st, y < height → x < width → shaped width st → P y x st →
     P y (S x) (pixel_update data width (vectorSampleRate width height) y x st)) →
  (∀ y st, y < height → P y width st → P (S y) 0 st) →
  ∃ d, calculateScopeData data width height = Normal d ∧ shaped width d ∧ P height 0 d.
Proof.
  intros H0 Hstep Hrow. unfold calculateScopeData.
  destruct (nested_loop_invariant
              (fun y x st => shaped width st ∧ P y x st)
              (fun y x => pixel_step data width (vectorSampleRate width height) y x)
              width height (initial_scope_data width)) as (d & Hd & Hs & HP).
  - split; [apply initial_scope_data_shaped | assumption].
  - intros y x t Hy Hx [Hs HP]. eexists. split.
    + apply pixel_step_update; assumption.
    + split; [apply pixel_update_shaped; assumption | apply Hstep; assumption].
  - intros y t Hy [Hs HP]. split; [assumption | apply Hrow; assumption].
  - exists d. auto.
Qed.

End PixelUpdate.

(** ** Histogram totals *)

Section HistogramTotals.
#[local] Open Scope nat_scope.

Lemma slots_total_replicate (n : nat) : slots_total (replicate n (Count 0)) = Some 0.
Proof. induction n as [| n IH]; simpl; [| rewrite IH]; reflexivity. Qed.

Lemma slots_total_incr (a : list slot) (i t : nat) :
  i < length a → slots_total a = Some t →
  slots_total (alter incr_slot i a) = Some (S t).
Proof.
  revert i t. induction a as [| s a IH]; intros i t Hi Ht; simpl in *; [lia |].
  destruct s as [n | |]; try discriminate.
  destruct (slots_total a) as [u |] eqn:Hu; [| discriminate].
  injection Ht as <-. destruct i as [| i]; simpl.
  - rewrite Hu. reflexivity.
  - change (list_alter incr_slot i a) with (alter incr_slot i a).
    rewrite (IH i u) by (lia || reflexivity). f_equal. lia.
Qed.

Lemma full_channel_incr (n i : nat) (a : list slot) :
  i < 256 → full_channel n a → full_channel (S n) (incr_at (Some i) a).
Proof.
  intros Hi [Hl Ht]. unfold incr_at.
  destruct (Nat.ltb_spec i (length a)) as [_ | ?]; [| lia].
  split; [rewrite length_alter; assumption | apply slots_total_incr; [lia | assumption]].
Qed.

Lemma full_channel_sum (n : nat) (a : list slot) :
  full_channel n a → length a = 256 ∧ histogram_sum a = Some n.
Proof.
  intros [Hl Ht]. split; [assumption |].
  unfold histogram_sum. rewrite take_ge by lia. assumption.
Qed.

Lemma byte_index_lt (c : byte) : N.to_nat (Byte.to_N c) < 256.
Proof. pose proof (Byte.to_N_bounded c). lia. Qed.

(** Inside a buffer that holds four bytes for each of [width * height]
    pixels, every channel read of the loop is defined. *)
Lemma pixel_in_buffer (data : list byte) (width height y x k : nat) :
  4 * (width * height) ≤ length data → y < height → x < width → k < 4 →
  ∃ c, data !! ((y * width + x) * 4 + k) = Some c.
Proof.
  intros Hlen Hy Hx Hk. apply lookup_lt_is_Some_2.
  assert (y * width + x < width * height) by nia. lia.
Qed.

Lemma pixel_update_histogram data width height rate y x st n :
  4 * (width * height) ≤ length data → y < height → x < width →
  histogram_counts n (histogram st) →
  histogram_counts (S n) (histogram (pixel_update data width rate y x st)).
Proof.
  intros Hlen Hy Hx (Hr & Hg & Hb & Hl).
  destruct (pixel_in_buffer data width height y x 0 Hlen Hy Hx) as [r Er]; [lia |].
  destruct (pixel_in_buffer data width height y x 1 Hlen Hy Hx) as [g Eg]; [lia |].
  destruct (pixel_in_buffer data width height y x 2 Hlen Hy Hx) as [b Eb]; [lia |].
  rewrite Nat.add_0_r in Er.
  unfold pixel_update. cbn [histogram hist_r hist_g hist_b hist_lum].
  rewrite Er, Eg, Eb.
  destruct (pixel_luminance_range r g b) as (z & -> & Hz).
  unfold histogram_counts. cbn [JS.index_of_channel JS.index_of_integral hist_r hist_g hist_b hist_lum].
  replace ((0 <=? z)%Z && (z <? 2 ^ 32 - 1)%Z) with true
    by (symmetry; apply andb_true_iff; split; [apply Z.leb_le | apply Z.ltb_lt]; lia).
  split; [| split; [| split]].
  - apply full_channel_incr; [apply byte_index_lt | exact Hr].
  - apply full_channel_incr; [apply byte_index_lt | exact Hg].
  - apply full_channel_incr; [apply byte_index_lt | exact Hb].
  - apply full_channel_incr; [lia | exact Hl].
Qed.

(** C1. For every buffer that holds the four bytes of each of its
    [width * height] pixels, the analyzer returns, and each of the four
    histogram channels has 256 buckets that add up to [width * height]:
    every pixel increments exactly one bucket of each channel, the
    luminance bucket included. *)
Theorem histogram_totals (data : list byte) (width height : nat) :
  4 * (width * height) ≤ length data →
  ∃ d, calculateScopeData data width height = Normal d ∧
       (length (hist_lum (histogram d)) = 256 ∧
        histogram_sum (hist_lum (histogram d)) = Some (width * height)) ∧
       (length (hist_r (histogram d)) = 256 ∧
        histogram_sum (hist_r (histogram d)) = Some (width * height)) ∧
       (length (hist_g (histogram d)) = 256 ∧
        histogram_sum (hist_g (histogram d)) = Some (width * height)) ∧
       (length (hist_b (histogram d)) = 256 ∧
        histogram_sum (hist_b (histogram d)) = Some (width * height)).
Proof.
  intros Hlen.
  destruct (calculateScopeData_invariant
              (fun y x st => histogram_counts (y * width + x) (histogram st))
              data width height) as (d & Hd & _ & Hr & Hg & Hb & Hl).
  - unfold histogram_counts, full_channel, initial_scope_data.
    cbn [histogram hist_r hist_g hist_b hist_lum].
    rewrite length_replicate, slots_total_replicate. auto.
  - intros y x st Hy Hx _ HP.
    replace (y * width + S x) with (S (y * width + x)) by lia.
    eapply pixel_update_histogram; eassumption.
  - intros y st _ HP. replace (S y * width + 0) with (y * width + width) by lia.
    assumption.
  - exists d. split; [assumption |].
    rewrite Nat.add_0_r, (Nat.mul_comm height width) in *.
    auto using full_channel_sum.
Qed.

Lemma histogram_totals_witness :
  ∃ d, calculateScopeData
         ["255"; "000"; "000"; "255"; "000"; "000"; "000"; "255"]%byte 2 1 = Normal d ∧
       (length (hist_lum (histogram d)) = 256 ∧
        histogram_sum (hist_lum (histogram d)) = Some (2 * 1)) ∧
       (length (hist_r (histogram d)) = 256 ∧
        histogram_sum (hist_r (histogram d)) = Some (2 * 1)) ∧
       (length (hist_g (histogram d)) = 256 ∧
        histogram_sum (hist_g (histogram d)) = Some (2 * 1)) ∧
       (length (hist_b (histogram d)) = 256 ∧
        histogram_sum (hist_b (histogram d)) = Some (2 * 1)).
Proof. apply histogram_totals. simpl. lia. Defined.

Example red_and_black_histogram :
  ∃ d, calculateScopeData red_and_black_rows 4 4 = Normal d ∧
       hist_r (histogram d) !! 255 = Some (Count 8) ∧
       hist_r (histogram d) !! 0 = Some (Count 8) ∧
       hist_g (histogram d) !! 0 = Some (Count 16) ∧
       hist_b (histogram d) !! 0 = Some (Count 16) ∧
       hist_lum (histogram d) !! 54 = Some (Count 8) ∧
       hist_lum (histogram d) !! 0 = Some (Count 8).
Proof.
  destruct (calculateScopeData red_and_black_rows 4 4) as [d |] eqn:E;
    vm_compute in E; [| discriminate].
  exists d. injection E as <-. vm_compute. auto 10.
Qed.

End HistogramTotals.

(** ** Waveform columns: the luminance of every pixel *)

Section LuminanceColumns.
#[local] Open Scope nat_scope.

Lemma luminance_columns (data : list byte) (width height : nat) :
  ∃ d, calculateScopeData data width height = Normal d ∧
       length (luminance d) = width ∧
       ∀ x, x < width →
         luminance d !! x = Some (List.map (luminance_at data width x) (seq 0 height)).
Proof.
  destruct (calculateScopeData_invariant
              (fun y x st => ∀ x', x' < width →
                 luminance st !! x' =
                   Some (List.map (luminance_at data width x')
                           (seq 0 (if x' <? x then S y else y))))
              data width height) as (d & Hd & Hs & HP).
  - intros x' Hx'. unfold initial_scope_data, empty_columns. cbn [luminance].
    rewrite lookup_replicate_2 by assumption. reflexivity.
  - intros y x st Hy Hx _ HP x' Hx'. unfold pixel_update. cbn [luminance].
    destruct (Nat.eq_dec x x') as [<- | Hne].
    + rewrite list_lookup_alter_eq, (HP x Hx).
      rewrite Nat.ltb_irrefl. replace (x <? S x) with true by (symmetry; apply Nat.ltb_lt; lia).
      rewrite seq_S, List.map_app. reflexivity.
    + rewrite list_lookup_alter_ne by assumption. rewrite (HP x' Hx').
      replace (x' <? S x) with (x' <? x); [reflexivity |].
      destruct (Nat.ltb_spec x' x), (Nat.ltb_spec x' (S x)); try reflexivity; lia.
  - intros y st Hy HP x' Hx'. rewrite (HP x' Hx').
    replace (x' <? width) with true by (symmetry; apply Nat.ltb_lt; lia).
    reflexivity.
  - exists d. split; [assumption |]. split; [apply Hs |].
    intros x Hx. apply (HP x Hx).
Qed.

(** In a frame whose buffer holds all its pixels, every value of every
    waveform column is an integer in [[0, 255]]. *)
Lemma waveform_values_in_range (data : list byte) (width height : nat) :
  4 * (width * height) ≤ length data →
  ∃ d, calculateScopeData data width height = Normal d ∧
       ∀ x y, x < width → y < height →
         ∃ column v, luminance d !! x = Some column ∧
                     column !! y = Some (JS.Int v) ∧ (0 <= v <= 255)%Z.
Proof.
  intros Hlen. destruct (luminance_columns data width height) as (d & Hd & _ & Hc).
  exists d. split; [assumption |]. intros x y Hx Hy.
  destruct (pixel_in_buffer data width height y x 0 Hlen Hy Hx) as [r Er]; [lia |].
  destruct (pixel_in_buffer data width height y x 1 Hlen Hy Hx) as [g Eg]; [lia |].
  destruct (pixel_in_buffer data width height y x 2 Hlen Hy Hx) as [b Eb]; [lia |].
  rewrite Nat.add_0_r in Er.
  destruct (pixel_luminance_range r g b) as (v & Ev & Hv).
  eexists _, v. split; [apply Hc; assumption |]. split; [| assumption].
  change (@List.map nat JS.integral) with (@fmap list _ nat JS.integral).
  rewrite list_lookup_fmap, lookup_seq_lt by assumption. cbn [fmap option_fmap option_map].
  unfold luminance_at. rewrite Nat.add_0_l, Er, Eg, Eb. f_equal. exact Ev.
Qed.

End LuminanceColumns.

(** ** Chroma samples: stride decimation *)

Section ColorPoints.
#[local] Open Scope nat_scope.

Lemma sampled_indices_S (s n : nat) :
  sampled_indices s (S n) =
    sampled_indices s n ++ (if n mod s =? 0 then [n] else []).
Proof. unfold sampled_indices. rewrite seq_S, List.filter_app. reflexivity. Qed.

Lemma vectorSampleRate_positive (width height : nat) :
  1 ≤ vectorSampleRate width height.
Proof. unfold vectorSampleRate. lia. Qed.

(** Between [n / s] and [n / s + 1] of the indices below [n] are
    multiples of [s]. *)
Lemma sampled_indices_count (s n : nat) :
  1 ≤ s →
  n / s ≤ length (sampled_indices s n) ≤ n / s + 1.
Proof.
  intros Hs.
  assert (H : (n = 0 ∧ length (sampled_indices s n) = 0) ∨
              (length (sampled_indices s n) * s < n + s ∧
               n ≤ length (sampled_indices s n) * s)).
  { induction n as [| n IH]; [left; auto |]. right.
    rewrite sampled_indices_S, length_app.
    pose proof (Nat.div_mod_eq n s) as Hdm.
    pose proof (Nat.mod_upper_bound n s ltac:(lia)) as Hmod.
    destruct (Nat.eqb_spec (n mod s) 0) as [H0 | H0]; simpl length.
    - destruct IH as [[-> ->] | [IH1 IH2]]; [lia |].
      rewrite H0, Nat.add_0_r in Hdm.
      assert (length (sampled_indices s n) = n / s) by nia. nia.
    - destruct IH as [[-> _] | [IH1 IH2]].
      + rewrite Nat.Div0.mod_0_l in H0. lia.
      + assert (n ≠ length (sampled_indices s n) * s).
        { intros E. apply H0. rewrite E. apply Nat.Div0.mod_mul. }
        lia. }
  destruct H as [[-> ->] | [H1 H2]].
  - rewrite Nat.Div0.div_0_l. lia.
  - split.
    + apply Nat.Div0.div_le_upper_bound. nia.
    + assert (length (sampled_indices s n) - 1 ≤ n / s); [| lia].
      apply Nat.div_le_lower_bound; [lia | nia].
Qed.

(** C5. The analyzer returns; the stride is
    [max(1, floor(width * height / 50000))]; the samples are those of the
    pixels whose raster index [y * width + x] is a multiple of the stride,
    in raster order; and their number is [floor(width * height / stride)]
    or one more. *)
Theorem color_point_sampling (data : list byte) (width height : nat) :
  ∃ d, calculateScopeData data width height = Normal d ∧
       Z.of_nat (vectorSampleRate width height) =
         Z.max 1 (Z.of_nat (width * height) / 50000) ∧
       colorPoints d =
         List.map (sample_at data)
           (List.filter (fun i => i mod vectorSampleRate width height =? 0)
              (seq 0 (width * height))) ∧
       (width * height) / vectorSampleRate width height ≤ length (colorPoints d) ∧
       length (colorPoints d) ≤ (width * height) / vectorSampleRate width height + 1.
Proof.
  destruct (calculateScopeData_invariant
              (fun y x st =>
                 colorPoints st =
                   List.map (sample_at data)
                     (sampled_indices (vectorSampleRate width height) (y * width + x)))
              data width height) as (d & Hd & _ & HP).
  - reflexivity.
  - intros y x st Hy Hx _ HP. unfold pixel_update. cbn [colorPoints].
    replace (y * width + S x) with (S (y * width + x)) by lia.
    rewrite sampled_indices_S, List.map_app, <- HP.
    destruct ((y * width + x) mod vectorSampleRate width height =? 0).
    + reflexivity.
    + simpl. rewrite app_nil_r. reflexivity.
  - intros y st Hy HP. rewrite HP. do 2 f_equal. lia.
  - exists d. split; [assumption |]. split; [| split].
    + unfold vectorSampleRate, sample_budget.
      rewrite Nat2Z.inj_max, Nat2Z.inj_div, Z2Nat.id by lia. reflexivity.
    + rewrite HP. unfold sampled_indices.
      replace (height * width + 0) with (width * height) by lia. reflexivity.
    + rewrite HP, length_map.
      replace (height * width + 0) with (width * height) by lia.
      apply sampled_indices_count, vectorSampleRate_positive.
Qed.

End ColorPoints.

(** ** Parade columns: three source columns per parade column *)

Section ParadeColumns.
#[local] Open Scope nat_scope.

Lemma parade_sources_step_hit (x : nat) :
  List.filter (fun x' => x' <? S x) (parade_sources (x / 3)) =
  List.filter (fun x' => x' <? x) (parade_sources (x / 3)) ++ [x].
Proof.
  pose proof (Nat.div_mod_eq x 3) as Hdm.
  pose proof (Nat.mod_upper_bound x 3 ltac:(lia)) as Hm.
  unfold parade_sources. cbn [List.filter].
  destruct (Nat.ltb_spec (3 * (x / 3)) x), (Nat.ltb_spec (3 * (x / 3)) (S x)),
    (Nat.ltb_spec (3 * (x / 3) + 1) x), (Nat.ltb_spec (3 * (x / 3) + 1) (S x)),
    (Nat.ltb_spec (3 * (x / 3) + 2) x), (Nat.ltb_spec (3 * (x / 3) + 2) (S x));
    try lia; cbn [app]; repeat f_equal; lia.
Qed.

Lemma parade_sources_step_miss (x c : nat) :
  c ≠ x / 3 →
  List.filter (fun x' => x' <? S x) (parade_sources c) =
  List.filter (fun x' => x' <? x) (parade_sources c).
Proof.
  intros Hc.
  pose proof (Nat.div_mod_eq x 3) as Hdm.
  pose proof (Nat.mod_upper_bound x 3 ltac:(lia)) as Hm.
  unfold parade_sources. cbn [List.filter].
  destruct (Nat.ltb_spec (3 * c) x), (Nat.ltb_spec (3 * c) (S x)),
    (Nat.ltb_spec (3 * c + 1) x), (Nat.ltb_spec (3 * c + 1) (S x)),
    (Nat.ltb_spec (3 * c + 2) x), (Nat.ltb_spec (3 * c + 2) (S x));
    try reflexivity; lia.
Qed.

Lemma parade_partial_step data width k c y x :
  parade_partial data width k c y (S x) =
    if Nat.eq_dec c (x / 3)
    then parade_partial data width k c y x ++ [channel_at data width k y x]
    else parade_partial data width k c y x.
Proof.
  unfold parade_partial. destruct (Nat.eq_dec c (x / 3)) as [-> | Hne].
  - rewrite parade_sources_step_hit, List.map_app, app_assoc. reflexivity.
  - rewrite parade_sources_step_miss by assumption. reflexivity.
Qed.

Lemma parade_partial_row data width k c y :
  c < width / 3 →
  parade_partial data width k c y width = parade_partial data width k c (S y) 0.
Proof.
  intros Hc. unfold parade_partial, parade_column.
  rewrite seq_S, flat_map_app. cbn [flat_map]. rewrite !app_nil_r, Nat.add_0_l.
  f_equal. f_equal.
  pose proof (Nat.div_mod_eq width 3) as Hdm.
  unfold parade_sources. cbn [List.filter].
  destruct (Nat.ltb_spec (3 * c) width), (Nat.ltb_spec (3 * c + 1) width),
    (Nat.ltb_spec (3 * c + 2) width); try reflexivity; lia.
Qed.

Lemma parade_columns (data : list byte) (width height : nat) :
  ∃ d, calculateScopeData data width height = Normal d ∧ shaped width d ∧
       parade_invariant data width height 0 (rgbColumns d).
Proof.
  apply (calculateScopeData_invariant
           (fun y x st => parade_invariant data width y x (rgbColumns st))).
  - intros c Hc. unfold initial_scope_data, empty_columns. cbn [rgbColumns columns_r columns_g columns_b].
    rewrite lookup_replicate_2 by assumption. auto.
  - intros y x st Hy Hx _ HP c Hc. specialize (HP c Hc) as (Hr & Hg & Hb).
    rewrite !parade_partial_step. unfold pixel_update. cbn [rgbColumns].
    unfold channel_at. rewrite Nat.add_0_r.
    destruct (Nat.ltb_spec (x / 3) (width / 3)) as [Hp | Hp];
      cbn [columns_r columns_g columns_b].
    + destruct (Nat.eq_dec c (x / 3)) as [-> | Hne].
      * rewrite !list_lookup_alter_eq, Hr, Hg, Hb. auto.
      * rewrite !list_lookup_alter_ne by congruence. auto.
    + destruct (Nat.eq_dec c (x / 3)) as [-> | Hne]; [lia | auto].
  - intros y st Hy HP c Hc. specialize (HP c Hc).
    rewrite <- !parade_partial_row by assumption. assumption.
Qed.

(** C6. The analyzer returns without an error for every width; each of the
    three parade sequences has [floor(width / 3)] columns; column [c] holds,
    row after row, the raw channel values of the pixels at [x = 3c], [3c + 1]
    and [3c + 2], that is of the pixels with [floor(x / 3) = c]; a pixel with
    [floor(x / 3) >= floor(width / 3)] is in no column. *)
Theorem parade_column_contents (data : list byte) (width height : nat) :
  ∃ d, calculateScopeData data width height = Normal d ∧
       length (columns_r (rgbColumns d)) = width / 3 ∧
       length (columns_g (rgbColumns d)) = width / 3 ∧
       length (columns_b (rgbColumns d)) = width / 3 ∧
       ∀ c, c < width / 3 →
         columns_r (rgbColumns d) !! c =
           Some (flat_map (fun y => [data !! ((y * width + 3 * c) * 4);
                                     data !! ((y * width + (3 * c + 1)) * 4);
                                     data !! ((y * width + (3 * c + 2)) * 4)])
                   (seq 0 height)) ∧
         columns_g (rgbColumns d) !! c =
           Some (flat_map (fun y => [data !! ((y * width + 3 * c) * 4 + 1);
                                     data !! ((y * width + (3 * c + 1)) * 4 + 1);
                                     data !! ((y * width + (3 * c + 2)) * 4 + 1)])
                   (seq 0 height)) ∧
         columns_b (rgbColumns d) !! c =
           Some (flat_map (fun y => [data !! ((y * width + 3 * c) * 4 + 2);
                                     data !! ((y * width + (3 * c + 1)) * 4 + 2);
                                     data !! ((y * width + (3 * c + 2)) * 4 + 2)])
                   (seq 0 height)).
Proof.
  destruct (parade_columns data width height) as (d & Hd & (_ & Hr & Hg & Hb) & HP).
  exists d. repeat (split; [assumption |]).
  intros c Hc. specialize (HP c Hc) as (Er & Eg & Eb).
  unfold parade_partial, parade_column, parade_sources, channel_at in Er, Eg, Eb.
  cbn [List.filter List.map] in Er, Eg, Eb.
  rewrite app_nil_r in Er, Eg, Eb. rewrite Er, Eg, Eb.
  repeat split. f_equal.
  apply flat_map_ext. intros y. rewrite !Nat.add_0_r. reflexivity.
Qed.

End ParadeColumns.

(** ** Invalid input, and the analyzer as a function of the pixels *)

Section Analyze.
#[local] Open Scope nat_scope.

Lemma calculateScopeData_returns (data : list byte) (width height : nat) :
  ∃ d, calculateScopeData data width height = Normal d.
Proof.
  destruct (luminance_columns data width height) as (d & Hd & _). eauto.
Qed.

Lemma analyze_calls (imageData : ImageData) :
  ∃ d, calculateScopeData (image_data imageData) (image_width imageData)
         (image_height imageData) = Normal d ∧
       analyze imageData =
         Normal [ RenderWaveform (luminance d) (image_width imageData) (image_height imageData);
                  RenderParade (rgbColumns d) (image_width imageData) (image_height imageData);
                  RenderVectorscope (colorPoints d);
                  RenderHistogram (histogram d) ].
Proof.
  destruct (calculateScopeData_returns (image_data imageData) (image_width imageData)
              (image_height imageData)) as [d Hd].
  exists d. split; [assumption |]. unfold analyze. rewrite Hd. reflexivity.
Qed.

(** An empty buffer declared as one pixel is not rejected: the cycle
    renders all four scopes from a NaN luminance and an undefined sample. *)
Lemma invalid_input_is_rendered :
  let imageData := {| image_data := []; image_width := 1; image_height := 1 |} in
  invalid_input imageData = true ∧
  analyze imageData =
    Normal [ RenderWaveform [[JS.NaN]] 1 1;
             RenderParade {| columns_r := []; columns_g := []; columns_b := [] |} 1 1;
             RenderVectorscope
               [ {| cb := PrimFloat.nan; cr := PrimFloat.nan;
                    point_r := None; point_g := None; point_b := None |} ];
             RenderHistogram
               {| hist_r := replicate 256 (Count 0); hist_g := replicate 256 (Count 0);
                  hist_b := replicate 256 (Count 0); hist_lum := replicate 256 (Count 0) |} ] ∧
  ¬ cycle_skipped (analyze imageData).
Proof.
  assert (E : analyze {| image_data := []; image_width := 1; image_height := 1 |} =
    Normal [ RenderWaveform [[JS.NaN]] 1 1;
             RenderParade {| columns_r := []; columns_g := []; columns_b := [] |} 1 1;
             RenderVectorscope
               [ {| cb := PrimFloat.nan; cr := PrimFloat.nan;
                    point_r := None; point_g := None; point_b := None |} ];
             RenderHistogram
               {| hist_r := replicate 256 (Count 0); hist_g := replicate 256 (Count 0);
                  hist_b := replicate 256 (Count 0); hist_lum := replicate 256 (Count 0) |} ])
    by (vm_compute; reflexivity).
  cbv zeta. split; [reflexivity |]. split; [exact E |].
  unfold cycle_skipped. rewrite E. discriminate.
Qed.

(** C2, as the code has it.  An invalid input is not rejected and no skip
    is signalled: the analyzer validates nothing.  While the declared
    dimensions stay within what its arrays hold (a width below 2^32 for
    [new Array(width)], and three values a row pushed on a parade column,
    so three times the height below 2^32), it does not throw either:
    [calculateScopeData] returns datasets built from whatever it could
    read, and [analyze] hands them to all four renderers. *)
Theorem invalid_input_is_analyzed (imageData : ImageData) :
  invalid_input imageData = true →
  (Z.of_nat (image_width imageData) < 2 ^ 32)%Z →
  (3 * Z.of_nat (image_height imageData) < 2 ^ 32)%Z →
  ∃ d, calculateScopeData (image_data imageData) (image_width imageData)
         (image_height imageData) = Normal d ∧
       analyze imageData =
         Normal [ RenderWaveform (luminance d) (image_width imageData) (image_height imageData);
                  RenderParade (rgbColumns d) (image_width imageData) (image_height imageData);
                  RenderVectorscope (colorPoints d);
                  RenderHistogram (histogram d) ] ∧
       renders Waveform (analyze imageData) = true ∧
       renders Parade (analyze imageData) = true ∧
       renders Vectorscope (analyze imageData) = true ∧
       renders HistogramScope (analyze imageData) = true.
Proof.
  intros _ _ _. destruct (analyze_calls imageData) as (d & Hd & Ha).
  exists d. rewrite Ha. repeat split; assumption || reflexivity.
Qed.

Lemma invalid_input_is_analyzed_witness :
  ∃ d, calculateScopeData [] 0 7 = Normal d ∧
       analyze {| image_data := []; image_width := 0; image_height := 7 |} =
         Normal [ RenderWaveform (luminance d) 0 7; RenderParade (rgbColumns d) 0 7;
                  RenderVectorscope (colorPoints d); RenderHistogram (histogram d) ] ∧
       renders Waveform (analyze {| image_data := []; image_width := 0; image_height := 7 |}) = true ∧
       renders Parade (analyze {| image_data := []; image_width := 0; image_height := 7 |}) = true ∧
       renders Vectorscope (analyze {| image_data := []; image_width := 0; image_height := 7 |}) = true ∧
       renders HistogramScope (analyze {| image_data := []; image_width := 0; image_height := 7 |}) = true.
Proof.
  apply (invalid_input_is_analyzed {| image_data := []; image_width := 0; image_height := 7 |}).
  - reflexivity.
  - simpl. lia.
  - simpl. lia.
Defined.

Lemma for_loop_ext {St} (body body' : nat → St → completion St) (count from : nat) (s : St) :
  (∀ i t, from ≤ i < from + count → body i t = body' i t) →
  for_loop from count body s = for_loop from count body' s.
Proof.
  revert from s. induction count as [| count IH]; intros from s H; [reflexivity |].
  simpl. rewrite (H from s) by lia. destruct (body' from s) as [t | e]; [| reflexivity].
  simpl. apply IH. intros i u Hi. apply H. lia.
Qed.

(** The analyzer reads the red, green and blue bytes of the
    [width * height] pixels and nothing else. *)
Lemma calculateScopeData_reads_pixels (data data' : list byte) (width height : nat) :
  (∀ i, i < 4 * (width * height) → i mod 4 ≠ 3 → data !! i = data' !! i) →
  calculateScopeData data width height = calculateScopeData data' width height.
Proof.
  intros H. unfold calculateScopeData.
  apply for_loop_ext. intros y st Hy. apply for_loop_ext. intros x t Hx.
  assert (Hp : y * width + x < width * height) by nia.
  unfold pixel_step.
  rewrite <- !H; [reflexivity | lia | | lia | | lia |].
  - replace ((y * width + x) * 4 + 2) with (2 + (y * width + x) * 4) by lia.
    rewrite Nat.Div0.mod_add. discriminate.
  - replace ((y * width + x) * 4 + 1) with (1 + (y * width + x) * 4) by lia.
    rewrite Nat.Div0.mod_add. discriminate.
  - rewrite Nat.Div0.mod_mul. discriminate.
Qed.

(** C3. Two invocations of the analyzer on buffers with the same pixels
    and on the same dimensions both return, and return the same datasets:
    nothing but the pixel bytes and the dimensions enters the result.  The
    same buffer passed twice is the special case [data' = data]. *)
Theorem analyzer_is_deterministic (data data' : list byte) (width height : nat) :
  (∀ i, i < 4 * (width * height) → i mod 4 ≠ 3 → data !! i = data' !! i) →
  ∃ d, (do first <- calculateScopeData data width height;
        do second <- calculateScopeData data' width height;
        Normal (first, second)) = Normal (d, d).
Proof.
  intros H. rewrite <- (calculateScopeData_reads_pixels data data' width height H).
  destruct (calculateScopeData_returns data width height) as [d Hd].
  exists d. rewrite Hd. reflexivity.
Qed.

Lemma analyzer_is_deterministic_witness :
  ∃ d, (do first <- calculateScopeData ["200"; "000"; "000"; "255"; "010"; "020"; "030"; "255"]%byte 2 1;
        do second <- calculateScopeData ["200"; "000"; "000"; "255"; "010"; "020"; "030"; "255"]%byte 2 1;
        Normal (first, second)) = Normal (d, d).
Proof.
  apply analyzer_is_deterministic. intros i _ _. reflexivity.
Defined.

End Analyze.

(** ** Scope visibility toggles *)

Section Toggles.

(** Hiding the waveform container does not stop its renderer: with the
    waveform box unchecked, a cycle still calls all four renderers. *)
Lemma hidden_scope_is_rendered :
  let app := on_toggle_change Waveform false
               {| isCapturing := true; container_hidden := fun _ => false |} in
  let frame := Some {| image_data := ["255"; "000"; "000"; "255"]%byte;
                       image_width := 1; image_height := 1 |} in
  container_hidden app Waveform = true ∧
  renders Waveform (analyzeFrame app frame) = true ∧
  ¬ (renders Waveform (analyzeFrame app frame) = negb (container_hidden app Waveform)).
Proof. cbv zeta. vm_compute. repeat split; try reflexivity. discriminate. Qed.

(** C9, as the code has it.  A visibility flag decides whether the
    container of its scope carries the class [hidden], and nothing else:
    the other containers and the capture state are untouched, and the
    cycle makes the same renderer calls with the same datasets whatever
    the flags are; with a frame at hand all four renderers are called. *)
Theorem visibility_flag_hides_container
    (app : AnyScope) (scopeKey : scope) (checked : bool) (frame : option ImageData) :
  container_hidden (on_toggle_change scopeKey checked app) scopeKey = negb checked ∧
  (∀ s, container_hidden (on_toggle_change scopeKey checked app) s =
          if scope_eqb scopeKey s then negb checked else container_hidden app s) ∧
  isCapturing (on_toggle_change scopeKey checked app) = isCapturing app ∧
  analyzeFrame (on_toggle_change scopeKey checked app) frame = analyzeFrame app frame ∧
  (∀ imageData s,
     renders s (analyzeFrame
                  (on_toggle_change scopeKey checked
                     {| isCapturing := true; container_hidden := container_hidden app |})
                  (Some imageData)) = true).
Proof.
  split; [| split; [| split; [| split]]].
  - unfold on_toggle_change. cbn [container_hidden].
    destruct scopeKey; reflexivity.
  - intros s. reflexivity.
  - reflexivity.
  - reflexivity.
  - intros imageData s. unfold analyzeFrame, on_toggle_change. cbn [isCapturing].
    destruct (analyze_calls imageData) as (d & _ & ->).
    destruct s; reflexivity.
Qed.

End Toggles.

(** ** Normalisation of an intensity map *)

Section Normalisation.
#[local] Open Scope Z_scope.

Lemma foldr_max_base (map : list Z) (a c : Z) :
  foldr Z.max (Z.max a c) map = Z.max c (foldr Z.max a map).
Proof. induction map as [| d map IH]; simpl; [| rewrite IH]; lia. Qed.

(** The scan computes [max(1, max over all cells)]. *)
Lemma max_intensity_spec (map : list Z) : max_intensity map = foldr Z.max 1 map.
Proof.
  unfold max_intensity. generalize 1. induction map as [| c map IH]; intros a; simpl.
  - reflexivity.
  - rewrite IH. replace (if a <? c then c else a) with (Z.max a c)
      by (destruct (Z.ltb_spec a c); lia).
    apply foldr_max_base.
Qed.

Lemma foldr_max_bounds (map : list Z) (a : Z) :
  a <= foldr Z.max a map ∧ ∀ c, In c map → c <= foldr Z.max a map.
Proof.
  induction map as [| d map [IH1 IH2]]; simpl.
  - split; [lia | tauto].
  - split; [lia |]. intros c [<- | Hc]; [lia | specialize (IH2 c Hc); lia].
Qed.

Lemma write_cell_length i v0 v1 v2 v3 px :
  length (write_cell i v0 v1 v2 v3 px) = length px.
Proof. unfold write_cell. rewrite !length_insert. reflexivity. Qed.

Lemma write_cell_other i j v0 v1 v2 v3 px :
  i ≠ j → take 4 (drop (4 * j) (write_cell i v0 v1 v2 v3 px)) = take 4 (drop (4 * j) px).
Proof.
  intros Hne. apply list_eq. intros k.
  destruct (Nat.lt_ge_cases k 4) as [Hk | Hk].
  - rewrite !lookup_take_lt, !lookup_drop by assumption. unfold write_cell.
    rewrite !list_lookup_insert_ne by lia. reflexivity.
  - rewrite !lookup_take_ge by assumption. reflexivity.
Qed.

Lemma write_cell_same i v0 v1 v2 v3 px :
  (4 * i + 4 <= length px)%nat →
  take 4 (drop (4 * i) (write_cell i v0 v1 v2 v3 px)) = [v0; v1; v2; v3].
Proof.
  intros Hlen. apply list_eq. intros k.
  destruct (Nat.lt_ge_cases k 4) as [Hk | Hk].
  - rewrite lookup_take_lt, lookup_drop by assumption. unfold write_cell.
    destruct k as [| [| [| [| k]]]]; [| | | | lia].
    + rewrite !list_lookup_insert_ne by lia.
      replace (4 * i + 0)%nat with (i * 4)%nat by lia.
      rewrite list_lookup_insert_eq by lia. reflexivity.
    + rewrite !list_lookup_insert_ne by lia.
      replace (4 * i + 1)%nat with (i * 4 + 1)%nat by lia.
      rewrite list_lookup_insert_eq by (rewrite !length_insert; lia). reflexivity.
    + rewrite !list_lookup_insert_ne by lia.
      replace (4 * i + 2)%nat with (i * 4 + 2)%nat by lia.
      rewrite list_lookup_insert_eq by (rewrite !length_insert; lia). reflexivity.
    + replace (4 * i + 3)%nat with (i * 4 + 3)%nat by lia.
      rewrite list_lookup_insert_eq by (rewrite !length_insert; lia). reflexivity.
  - rewrite lookup_take_ge by assumption.
    destruct k as [| [| [| [| k]]]]; try lia. reflexivity.
Qed.

Lemma colorize_prefix_length gain wr wg wb map n pixels :
  length (colorize_prefix gain wr wg wb map n pixels) = length pixels.
Proof.
  unfold colorize_prefix. induction n as [| n IH]; [reflexivity |].
  rewrite seq_S, fold_left_app. simpl.
  destruct (map !! n) as [count |]; [| exact IH].
  destruct (0 <? count); [| exact IH]. rewrite write_cell_length. exact IH.
Qed.

Lemma colorize_prefix_cell gain wr wg wb map n pixels i count :
  length pixels = (4 * length map)%nat → map !! i = Some count →
  take 4 (drop (4 * i) (colorize_prefix gain wr wg wb map n pixels)) =
    if ((i <? n)%nat && (0 <? count))%bool
    then cell_pixel gain wr wg wb (max_intensity map) count
    else take 4 (drop (4 * i) pixels).
Proof.
  intros Hlen Hi. pose proof (lookup_lt_Some _ _ _ Hi) as Hlt.
  induction n as [| n IH]; [reflexivity |].
  unfold colorize_prefix in *. rewrite seq_S, fold_left_app. simpl fold_left.
  fold (colorize_prefix gain wr wg wb map n pixels) in *.
  destruct (Nat.eq_dec n i) as [-> | Hne].
  - rewrite Hi. replace (i <? S i)%nat with true by (symmetry; apply Nat.ltb_lt; lia).
    rewrite Nat.ltb_irrefl in IH. simpl in IH. simpl andb.
    destruct (0 <? count); [| exact IH].
    apply write_cell_same. rewrite colorize_prefix_length. lia.
  - replace (i <? S n)%nat with (i <? n)%nat
      by (destruct (Nat.ltb_spec i n), (Nat.ltb_spec i (S n)); try reflexivity; lia).
    destruct (map !! n) as [c |]; [| exact IH].
    destruct (0 <? c); [| exact IH].
    rewrite write_cell_other by assumption. exact IH.
Qed.

Lemma colorize_cell gain wr wg wb map pixels i count :
  length pixels = (4 * length map)%nat → map !! i = Some count →
  take 4 (drop (4 * i) (colorize gain wr wg wb map pixels)) =
    if 0 <? count
    then cell_pixel gain wr wg wb (max_intensity map) count
    else take 4 (drop (4 * i) pixels).
Proof.
  intros Hlen Hi.
  change (colorize gain wr wg wb map pixels)
    with (colorize_prefix gain wr wg wb map (length map) pixels).
  rewrite (colorize_prefix_cell _ _ _ _ _ _ _ _ _ Hlen Hi).
  replace (i <? length map)%nat with true; [reflexivity |].
  symmetry. apply Nat.ltb_lt. eapply lookup_lt_Some. eassumption.
Qed.

(** C7. For every intensity map, the empty one and the all-zero one
    included, the divisor is [max(1, largest counter)], hence at least 1
    and never zero.  A cell with a positive counter becomes the opaque
    pixel of intensity [min(1, (count / maxIntensity) * gain)], the gain
    being the same for every cell of the map (8 in the waveform, 10 in the
    vectorscope); a cell with counter zero keeps the pixel the background
    had, black where the cleared canvas is black. *)
Theorem normalisation (map pixels : list Z) :
  length pixels = (4 * length map)%nat →
  max_intensity map = foldr Z.max 1 map ∧
  1 <= max_intensity map ∧
  (∀ i count, map !! i = Some count →
     count <= max_intensity map ∧
     take 4 (drop (4 * i) (waveform_pixels map pixels)) =
       (if 0 <? count
        then let intensity :=
               JS.Math_min 1 ((JS.number count / JS.number (max_intensity map)) * 8)%float in
             [ JS.to_uint8_clamped (JS.Math_floor (intensity * 150)%float);
               JS.to_uint8_clamped (JS.Math_floor (intensity * 255)%float);
               JS.to_uint8_clamped (JS.Math_floor (intensity * 100)%float);
               255 ]
        else take 4 (drop (4 * i) pixels)) ∧
     take 4 (drop (4 * i) (vectorscope_pixels map pixels)) =
       (if 0 <? count
        then let intensity :=
               JS.Math_min 1 ((JS.number count / JS.number (max_intensity map)) * 10)%float in
             [ JS.to_uint8_clamped (JS.Math_floor (intensity * 100)%float);
               JS.to_uint8_clamped (JS.Math_floor (intensity * 255)%float);
               JS.to_uint8_clamped (JS.Math_floor (intensity * 200)%float);
               255 ]
        else take 4 (drop (4 * i) pixels))).
Proof.
  intros Hlen. pose proof (foldr_max_bounds map 1) as [Hmin Hmax].
  rewrite max_intensity_spec. split; [reflexivity |]. split; [assumption |].
  intros i count Hi. split; [| split].
  - apply Hmax. apply list_elem_of_In. eapply list_elem_of_lookup_2. eassumption.
  - rewrite <- max_intensity_spec. unfold waveform_pixels.
    rewrite (colorize_cell _ _ _ _ _ _ _ _ Hlen Hi). reflexivity.
  - rewrite <- max_intensity_spec. unfold vectorscope_pixels.
    rewrite (colorize_cell _ _ _ _ _ _ _ _ Hlen Hi). reflexivity.
Qed.

Lemma normalisation_witness :
  length [0; 0; 0; 255; 0; 0; 0; 255] = (4 * length [0; 4])%nat ∧
  max_intensity [0; 4] = 4 ∧
  take 4 (drop (4 * 0) (waveform_pixels [0; 4] [0; 0; 0; 255; 0; 0; 0; 255])) = [0; 0; 0; 255] ∧
  take 4 (drop (4 * 1) (waveform_pixels [0; 4] [0; 0; 0; 255; 0; 0; 0; 255])) = [150; 255; 100; 255] ∧
  take 4 (drop (4 * 1) (vectorscope_pixels [0; 4] [0; 0; 0; 255; 0; 0; 0; 255])) = [100; 255; 200; 255].
Proof.
  destruct (normalisation [0; 4] [0; 0; 0; 255; 0; 0; 0; 255] eq_refl) as (Hmax & _ & Hcell).
  destruct (Hcell 0%nat 0 eq_refl) as (_ & Hw0 & _).
  destruct (Hcell 1%nat 4 eq_refl) as (_ & Hw1 & Hv1).
  split; [reflexivity |]. split; [exact Hmax |].
  split; [exact Hw0 |]. split; [exact Hw1 | exact Hv1].
Defined.

End Normalisation.

(** ** Vectorscope: the 3 x 3 stamp *)

Section VectorscopeStamp.
#[local] Open Scope Z_scope.

Lemma plot_point_lookup (width height : nat) (a b : Z) (map : list Z) (cx cy : nat) :
  (cx < width)%nat → (cy < height)%nat →
  plot_point width height (JS.Int a) (JS.Int b) map !! (cy * width + cx)%nat =
    if (a =? Z.of_nat cx) && (b =? Z.of_nat cy)
    then incr_counter <$> map !! (cy * width + cx)%nat
    else map !! (cy * width + cx)%nat.
Proof.
  intros Hx Hy. unfold plot_point, JS.ge, JS.lt.
  destruct (Z.leb_spec 0 b), (Z.ltb_spec b (Z.of_nat height)),
    (Z.leb_spec 0 a), (Z.ltb_spec a (Z.of_nat width)),
    (Z.eqb_spec a (Z.of_nat cx)), (Z.eqb_spec b (Z.of_nat cy));
    cbn [andb]; try lia; try reflexivity.
  - subst a b. rewrite <- Nat2Z.inj_mul, <- Nat2Z.inj_add, Nat2Z.id.
    apply list_lookup_alter_eq.
  - apply list_lookup_alter_ne. nia.
  - apply list_lookup_alter_ne. nia.
  - apply list_lookup_alter_ne. nia.
Qed.

Lemma plot_point_not_finite_x (width height : nat) (x y : JS.integral) (map : list Z) :
  (∀ z, x ≠ JS.Int z) → plot_point width height x y map = map.
Proof.
  intros Hx. unfold plot_point.
  destruct x as [z | | |]; [exfalso; eapply Hx; reflexivity | | |];
    destruct y; cbn; rewrite ?andb_false_r; try reflexivity;
    destruct (_ <=? _), (_ <? _); reflexivity.
Qed.

Lemma plot_point_not_finite_y (width height : nat) (x y : JS.integral) (map : list Z) :
  (∀ z, y ≠ JS.Int z) → plot_point width height x y map = map.
Proof.
  intros Hy. unfold plot_point.
  destruct y as [z | | |]; [exfalso; eapply Hy; reflexivity | | |];
    destruct x; cbn; rewrite ?andb_false_r; try reflexivity;
    destruct (_ <=? _), (_ <? _); reflexivity.
Qed.

Lemma stamp_lookup (size : nat) (px py : JS.integral) (map : list Z) (cx cy : nat) :
  (cx < size)%nat → (cy < size)%nat →
  stamp size px py map !! (cy * size + cx)%nat =
    if in_stamp px py cx cy
    then incr_counter <$> map !! (cy * size + cx)%nat
    else map !! (cy * size + cx)%nat.
Proof.
  intros Hx Hy. unfold stamp. cbn [fold_left].
  destruct px as [a | | |].
  2-4: rewrite !plot_point_not_finite_x by discriminate; destruct py; reflexivity.
  destruct py as [b | | |].
  2-4: rewrite !plot_point_not_finite_y by discriminate; reflexivity.
  cbn [JS.plus in_stamp].
  rewrite !plot_point_lookup by assumption.
  destruct (Z.eqb_spec (a + -1) (Z.of_nat cx)), (Z.eqb_spec (a + 0) (Z.of_nat cx)),
    (Z.eqb_spec (a + 1) (Z.of_nat cx)), (Z.eqb_spec (b + -1) (Z.of_nat cy)),
    (Z.eqb_spec (b + 0) (Z.of_nat cy)), (Z.eqb_spec (b + 1) (Z.of_nat cy)),
    (Z.leb_spec (Z.abs (Z.of_nat cx - a)) 1), (Z.leb_spec (Z.abs (Z.of_nat cy - b)) 1);
    cbn [andb]; try lia; reflexivity.
Qed.

(** C8. For every sample, the plot position is
    [x = center + ((cb - 128) / 128) * radius] and
    [y = center - ((cr - 128) / 128) * radius], with [center = size / 2] and
    [radius = size / 2 - 20]; every cell of the map within one column and
    one row of [(floor x, floor y)] is incremented, once, and no other cell
    changes.  A position that is not finite marks nothing. *)
Theorem vectorscope_stamp (size : nat) (point : color_point) (map : list Z) (cx cy : nat) :
  (cx < size)%nat → (cy < size)%nat →
  let center := (JS.number (Z.of_nat size) / 2)%float in
  let radius := (JS.number (Z.of_nat size) / 2 - 20)%float in
  let x := (center + ((cb point - 128) / 128) * radius)%float in
  let y := (center - ((cr point - 128) / 128) * radius)%float in
  plot_sample size point map !! (cy * size + cx)%nat =
    if in_stamp (JS.Math_floor x) (JS.Math_floor y) cx cy
    then incr_counter <$> map !! (cy * size + cx)%nat
    else map !! (cy * size + cx)%nat.
Proof.
  intros Hx Hy. cbv zeta. unfold plot_sample. apply stamp_lookup; assumption.
Qed.

Lemma vectorscope_stamp_witness :
  plot_sample 6 {| cb := 128; cr := 128; point_r := None; point_g := None; point_b := None |}
    (new_intensity_map 36) !! (2 * 6 + 4)%nat = Some 1.
Proof.
  exact (vectorscope_stamp 6
           {| cb := 128; cr := 128; point_r := None; point_g := None; point_b := None |}
           (new_intensity_map 36) 4 2 ltac:(lia) ltac:(lia)).
Defined.

End VectorscopeStamp.

(** ** Plot coordinates stay on the canvas *)

Section PlotBounds.
#[local] Open Scope R_scope.

Lemma literal_1 : good 1 ∧ val 1 = 1.
Proof. change 1%float with (JS.number 1). apply number_val. lia. Qed.

Lemma literal_255 : good 255 ∧ val 255 = 255.
Proof. change 255%float with (JS.number 255). apply number_val. lia. Qed.

Lemma bpow_opp (e : Z) : bpow e * bpow (- e) = 1.
Proof. rewrite <- bpow_add. replace (e + - e)%Z with 0%Z by lia. apply bpow_0. Qed.

(** [Math.floor(height - 1 - (v / 255) * (height - 1))] for a value in
    [[0, 255]] is a row of the canvas. *)
Lemma plot_y_range (height : nat) (v : Z) :
  (1 <= Z.of_nat height < 2 ^ 32)%Z → (0 <= v <= 255)%Z →
  ∃ y, plot_y height (JS.number v) = JS.Int y ∧ (0 <= y <= Z.of_nat height - 1)%Z.
Proof.
  intros HH Hv. unfold plot_y. set (H := Z.of_nat height) in *.
  destruct literal_1 as [g1 v1]. destruct literal_255 as [g255 v255].
  destruct (number_val H) as [gH vH]; [lia |].
  destruct (number_val v) as [gv vv]; [lia |].
  assert (HHr : 1 <= IZR H) by (apply IZR_le; lia).
  assert (Hvr : 0 <= IZR v <= 255) by (split; apply IZR_le; lia).
  assert (F1 : fmt0 (IZR (H - 1))) by (apply fmt0_IZR; lia).
  (* height - 1 *)
  destruct (sub_bounds (JS.number H) 1 (IZR (H - 1)) (IZR (H - 1))) as [gh vh];
    try assumption.
  { rewrite v1, vH. assumption. }
  { rewrite v1, vH, minus_IZR. lra. }
  assert (vh' : val (JS.number H - 1) = IZR H - 1) by (rewrite minus_IZR in vh; lra).
  (* v / 255 *)
  destruct (div_bounds (JS.number v) 255 0 1) as [gc vc]; try assumption.
  { rewrite v255. lra. }
  { destruct (Z.eq_dec v 0%Z) as [-> | Hne]; [left; rewrite vv; reflexivity | right].
    rewrite vv, v255.
    assert (1 <= IZR v) by (apply IZR_le; lia).
    assert (bpow (-1020) <= bpow (-8)) by (apply bpow_le; lia).
    pose proof (bpow_opp (-8)) as Hb. rewrite (bpow_IZR (- -8)) in Hb by lia.
    change (IZR (2 ^ (- -8))) with 256 in Hb.
    apply Rdiv_le_lower; lra. }
  { left. reflexivity. }
  { change 1 with (IZR 1). apply fmt0_IZR. lia. }
  { rewrite vv, v255. split; [apply Rdiv_le_lower | apply Rdiv_le_upper]; lra. }
  (* (v / 255) * (height - 1) *)
  destruct (mul_bounds (JS.number v / 255) (JS.number H - 1) 0 (IZR (H - 1))) as [gt vt];
    try assumption.
  { left. reflexivity. }
  { rewrite vh', minus_IZR. nra. }
  (* height - 1 - ... *)
  destruct (sub_bounds (JS.number H - 1) (JS.number v / 255 * (JS.number H - 1))
              0 (IZR (H - 1))) as [gu vu]; try assumption.
  { left. reflexivity. }
  { rewrite vh'. rewrite minus_IZR in vt. lra. }
  { rewrite vh', minus_IZR. rewrite minus_IZR in vt. lra. }
  apply floor_range; [assumption | lra | lra].
Qed.

(** [Math.floor((col / columnCount) * width)] for a column of the data is
    a column of the canvas. *)
Lemma plot_x_range (col columnCount width : nat) :
  (col < columnCount)%nat → (Z.of_nat columnCount <= 2 ^ 32)%Z →
  (1 <= Z.of_nat width < 2 ^ 32)%Z →
  ∃ x, plot_x col columnCount width = JS.Int x ∧ (0 <= x <= Z.of_nat width - 1)%Z.
Proof.
  intros Hcol Hcount HW. unfold plot_x.
  set (c := Z.of_nat col). set (n := Z.of_nat columnCount) in *.
  set (W := Z.of_nat width) in *.
  assert (Hc : (0 <= c < n)%Z) by (unfold c, n; lia).
  destruct (number_val c) as [gc vc]; [lia |].
  destruct (number_val n) as [gn vn]; [lia |].
  destruct (number_val W) as [gW vW]; [lia |].
  assert (Hcr : 0 <= IZR c) by (apply IZR_le; lia).
  assert (Hcn : IZR c <= IZR n - 1) by (rewrite <- minus_IZR; apply IZR_le; lia).
  assert (Hn52 : IZR n <= IZR (2 ^ 52)) by (apply IZR_le; lia).
  assert (HWr : 1 <= IZR W) by (apply IZR_le; lia).
  pose proof (bpow_opp (-52)) as Hu. rewrite (bpow_IZR (- -52)) in Hu by lia.
  change (- -52)%Z with 52%Z in Hu.
  pose proof (bpow_pos (-52)) as Hu0.
  assert (Hun : bpow (-52) * IZR n <= 1) by nra.
  (* col / columnCount is at most 1 - 2^-52 *)
  destruct (div_bounds (JS.number c) (JS.number n) 0 (F2R (2 ^ 52 - 1) (-52))) as [ga va];
    try assumption.
  { rewrite vn. lra. }
  { destruct (Z.eq_dec c 0%Z) as [E | Hne]; [left; rewrite vc, E; reflexivity | right].
    rewrite vc, vn.
    assert (1 <= IZR c) by (apply IZR_le; lia).
    assert (bpow (-1020) <= bpow (-52)) by (apply bpow_le; lia).
    apply Rdiv_le_lower; [lra | nra]. }
  { left. reflexivity. }
  { right. exists (2 ^ 52 - 1)%Z, (-52)%Z. split; [reflexivity | lia]. }
  { rewrite vc, vn. split; [apply Rdiv_le_lower; lra |].
    apply Rdiv_le_upper; [lra |]. unfold F2R. rewrite minus_IZR. nra. }
  assert (va' : val (JS.number c / JS.number n) <= 1 - bpow (-52)).
  { destruct va as [_ va]. unfold F2R in va. rewrite minus_IZR in va. lra. }
  (* the product is at most the double just below the width *)
  pose proof (Z.log2_spec W ltac:(lia)) as [Hk1 Hk2].
  pose proof (Z.log2_nonneg W) as Hk0.
  set (k := Z.log2 W) in *.
  assert (Hk31 : (k <= 31)%Z).
  { destruct (Z.le_gt_cases k 31) as [? | Hgt]; [assumption | exfalso].
    assert (2 ^ 32 <= 2 ^ k)%Z by (apply Z.pow_le_mono_r; lia). lia. }
  assert (Hp : (0 < 2 ^ (52 - k))%Z) by (apply Z.pow_pos_nonneg; lia).
  assert (Hpk : (2 ^ k * 2 ^ (52 - k) = 2 ^ 52)%Z).
  { rewrite <- Z.pow_add_r by lia. f_equal. lia. }
  assert (Hpk1 : (2 ^ Z.succ k * 2 ^ (52 - k) = 2 ^ 53)%Z).
  { rewrite <- Z.pow_add_r by lia. f_equal. lia. }
  assert (Ehi : F2R (W * 2 ^ (52 - k) - 1) (k - 52) = IZR W - bpow (k - 52)).
  { unfold F2R. rewrite minus_IZR, mult_IZR, <- (bpow_IZR (52 - k)) by lia.
    assert (bpow (52 - k) * bpow (k - 52) = 1).
    { rewrite <- bpow_add. replace (52 - k + (k - 52))%Z with 0%Z by lia. apply bpow_0. }
    nra. }
  assert (Hbk : bpow (k - 52) = bpow (-52) * IZR (2 ^ k)).
  { rewrite <- bpow_IZR, <- bpow_add by lia. f_equal. lia. }
  assert (Hkr : IZR (2 ^ k) <= IZR W) by (apply IZR_le; assumption).
  pose proof (bpow_pos (k - 52)) as Hbk0.
  destruct (mul_bounds (JS.number c / JS.number n) (JS.number W) 0
              (F2R (W * 2 ^ (52 - k) - 1) (k - 52))) as [gt vt]; try assumption.
  { left. reflexivity. }
  { right. exists (W * 2 ^ (52 - k) - 1)%Z, (k - 52)%Z.
    split; [reflexivity |]. split; [nia | lia]. }
  { rewrite vW, Ehi. pose proof (val_nonneg _ ga). split; [nra |]. nra. }
  destruct (floor_range_strict (JS.number c / JS.number n * JS.number W) 0 W)
    as (x & Hx & Hx0 & HxW); [assumption | lra | lra |].
  exists x. split; [assumption | lia].
Qed.

Lemma plot_point_on_canvas (width height : nat) (x y : Z) (map : list Z) :
  (0 <= x <= Z.of_nat width - 1)%Z → (0 <= y <= Z.of_nat height - 1)%Z →
  plot_point width height (JS.Int x) (JS.Int y) map =
    alter incr_counter (Z.to_nat (y * Z.of_nat width + x)) map.
Proof.
  intros Hx Hy. unfold plot_point, JS.ge, JS.lt.
  destruct (Z.leb_spec 0 y), (Z.ltb_spec y (Z.of_nat height)),
    (Z.leb_spec 0 x), (Z.ltb_spec x (Z.of_nat width)); try lia. reflexivity.
Qed.

(** C10. On a plotting area [width] columns wide and [height] rows high,
    both at least 1 (the canvas for the waveform, one third of it for a
    parade channel), the column [floor((col / columnCount) * width)] of a
    data column [col < columnCount] lies in [[0, width - 1]] and the row
    [floor(height - 1 - (v / 255) * (height - 1))] of a value [v] in
    [[0, 255]] lies in [[0, height - 1]], in double precision; so the guard
    of the plotting loop passes and the counter of that cell is
    incremented.  The sizes are below 2^32, as a canvas dimension and an
    array length are. *)
Theorem plot_stays_on_canvas
    (col columnCount width height : nat) (v : Z) (map : list Z) :
  (col < columnCount)%nat → (Z.of_nat columnCount <= 2 ^ 32)%Z →
  (1 <= Z.of_nat width < 2 ^ 32)%Z → (1 <= Z.of_nat height < 2 ^ 32)%Z →
  (0 <= v <= 255)%Z →
  ∃ x y,
    plot_x col columnCount width = JS.Int x ∧ (0 <= x <= Z.of_nat width - 1)%Z ∧
    plot_y height (JS.to_float (JS.Int v)) = JS.Int y ∧ (0 <= y <= Z.of_nat height - 1)%Z ∧
    plot_point width height (plot_x col columnCount width)
      (plot_y height (JS.to_float (JS.Int v))) map =
      alter incr_counter (Z.to_nat (y * Z.of_nat width + x)) map.
Proof.
  intros Hcol Hcount HW HH Hv.
  destruct (plot_x_range col columnCount width Hcol Hcount HW) as (x & Ex & Hx).
  destruct (plot_y_range height v HH Hv) as (y & Ey & Hy).
  exists x, y. cbn [JS.to_float]. rewrite Ex, Ey.
  repeat (split; [assumption || reflexivity |]).
  apply plot_point_on_canvas; assumption.
Qed.

Lemma plot_stays_on_canvas_witness :
  ∃ x y,
    plot_x 1 2 4 = JS.Int x ∧ (0 <= x <= Z.of_nat 4 - 1)%Z ∧
    plot_y 4 (JS.to_float (JS.Int 128)) = JS.Int y ∧ (0 <= y <= Z.of_nat 4 - 1)%Z ∧
    plot_point 4 4 (plot_x 1 2 4) (plot_y 4 (JS.to_float (JS.Int 128)))
      (new_intensity_map 16) =
      alter incr_counter (Z.to_nat (y * Z.of_nat 4 + x)) (new_intensity_map 16).
Proof.
  apply plot_stays_on_canvas; simpl; lia.
Defined.

(** The values of a parade column are channel bytes, which [ToNumber]
    turns into the doubles of the integers in [[0, 255]]. *)
Lemma parade_value_in_range (c : byte) :
  ∃ v, JS.to_number (Some c) = JS.to_float (JS.Int v) ∧ (0 <= v <= 255)%Z.
Proof.
  exists (Z.of_N (Byte.to_N c)). split; [reflexivity |].
  pose proof (Byte.to_N_bounded c). lia.
Qed.

(** A parade canvas narrower than three pixels has channels of width zero:
    the map of a channel is empty and the guard discards every point. *)
Example parade_narrow_canvas :
  parade_intensity 2 4 [[Some "010"%byte; Some "200"%byte]] = [] ∧
  plot_point (2 / 3) 4 (plot_x 0 1 (2 / 3)) (plot_y 4 (JS.to_number (Some "010"%byte))) [] = [].
Proof. vm_compute. auto. Qed.

End PlotBounds.

(** ** Comparing doubles by their values *)

Section Comparisons.
#[local] Open Scope R_scope.

Lemma F2R_pos (m : positive) (e : Z) : 0 < F2R (Zpos m) e.
Proof.
  unfold F2R. apply Rmult_lt_0_compat; [apply IZR_lt; lia | apply bpow_pos].
Qed.

(** Of two canonical positive doubles the one with the smaller exponent is
    the smaller. *)
Lemma canonical_exponent_lt (m1 m2 : positive) (e1 e2 : Z) :
  SpecFloat.bounded prec emax m1 e1 = true → SpecFloat.bounded prec emax m2 e2 = true →
  (e1 < e2)%Z → F2R (Zpos m1) e1 < F2R (Zpos m2) e2.
Proof.
  intros H1 H2 He.
  apply bounded_canonical in H1 as (Hd1 & He1 & _).
  apply bounded_canonical in H2 as (Hd2 & He2 & Hc2).
  destruct Hc2 as [-> | Hc2]; [lia |].
  pose proof (F2R_magnitude m1 e1) as [_ Hu].
  pose proof (F2R_magnitude m2 e2) as [Hl _].
  rewrite Hc2 in Hl.
  eapply Rlt_le_trans; [exact Hu |]. eapply Rle_trans; [| exact Hl].
  apply bpow_le. lia.
Qed.

Lemma compare_val (x y : float) :
  good x → good y →
  SFcompare (Prim2SF x) (Prim2SF y) =
    Some (if Rlt_dec (val x) (val y) then Lt
          else if Rlt_dec (val y) (val x) then Gt else Eq).
Proof.
  unfold good, val. intros Hx Hy.
  pose proof (Prim2SF_valid x) as Vx. pose proof (Prim2SF_valid y) as Vy.
  destruct Hx as [Ex | (m1 & e1 & Ex)], Hy as [Ey | (m2 & e2 & Ey)];
    rewrite Ex, Ey in *; simpl in *.
  - destruct (Rlt_dec 0 0); [lra | reflexivity].
  - pose proof (F2R_pos m2 e2). destruct (Rlt_dec 0 (F2R (Z.pos m2) e2)); [reflexivity | lra].
  - pose proof (F2R_pos m1 e1).
    destruct (Rlt_dec (F2R (Z.pos m1) e1) 0); [lra |].
    destruct (Rlt_dec 0 (F2R (Z.pos m1) e1)); [reflexivity | lra].
  - f_equal. destruct (Z.compare_spec e1 e2) as [-> | He | He].
    + rewrite Pos.compare_cont_spec. simpl.
      pose proof (bpow_pos e2) as Hb. unfold F2R.
      destruct (Pos.compare_spec m1 m2) as [-> | Hm | Hm].
      * destruct (Rlt_dec _ _); [lra |]. reflexivity.
      * assert (IZR (Zpos m1) < IZR (Zpos m2)) by (apply IZR_lt; lia).
        destruct (Rlt_dec _ _) as [_ | n]; [reflexivity | exfalso; apply n; nra].
      * assert (IZR (Zpos m2) < IZR (Zpos m1)) by (apply IZR_lt; lia).
        destruct (Rlt_dec _ _) as [l | _]; [exfalso; nra |].
        destruct (Rlt_dec _ _) as [_ | n]; [reflexivity | exfalso; apply n; nra].
    + pose proof (canonical_exponent_lt m1 m2 e1 e2 Vx Vy He).
      destruct (Rlt_dec _ _); [reflexivity | lra].
    + pose proof (canonical_exponent_lt m2 m1 e2 e1 Vy Vx He).
      destruct (Rlt_dec _ _); [lra |].
      destruct (Rlt_dec _ _); [reflexivity | lra].
Qed.

Lemma ltb_val (x y : float) : good x → good y → ((x <? y)%float = true ↔ val x < val y).
Proof.
  intros Hx Hy. rewrite FloatAxioms.ltb_spec. unfold SFltb.
  rewrite (compare_val x y Hx Hy).
  destruct (Rlt_dec (val x) (val y)); [tauto |].
  destruct (Rlt_dec (val y) (val x)); split; (discriminate || lra).
Qed.

Lemma leb_val (x y : float) : good x → good y → ((x <=? y)%float = true ↔ val x <= val y).
Proof.
  intros Hx Hy. rewrite FloatAxioms.leb_spec. unfold SFleb.
  rewrite (compare_val x y Hx Hy).
  destruct (Rlt_dec (val x) (val y)); [split; [lra | reflexivity] |].
  destruct (Rlt_dec (val y) (val x)); split; (discriminate || reflexivity || lra).
Qed.

Lemma good_not_nan (x : float) : good x → PrimFloat.is_nan x = false.
Proof.
  intros Hx. unfold PrimFloat.is_nan. rewrite FloatAxioms.eqb_spec. unfold SFeqb.
  rewrite (compare_val x x Hx Hx).
  destruct (Rlt_dec (val x) (val x)); [lra | reflexivity].
Qed.

(** [Math.min] and [Math.max] of two doubles that are zero or positive *)
Lemma Math_min_val (x y : float) :
  good x → good y →
  good (JS.Math_min x y) ∧ val (JS.Math_min x y) = Rmin (val x) (val y).
Proof.
  intros Hx Hy. unfold JS.Math_min.
  rewrite (good_not_nan x Hx), (good_not_nan y Hy). simpl.
  destruct (x <? y)%float eqn:E1.
  { apply ltb_val in E1; try assumption. split; [assumption |]. rewrite Rmin_left; lra. }
  destruct (y <? x)%float eqn:E2.
  { apply ltb_val in E2; try assumption. split; [assumption |]. rewrite Rmin_right; lra. }
  assert (¬ val x < val y) by (intros C; apply ltb_val in C; congruence).
  assert (¬ val y < val x) by (intros C; apply ltb_val in C; congruence).
  destruct (PrimFloat.get_sign x); (split; [assumption |]); [rewrite Rmin_left | rewrite Rmin_right]; lra.
Qed.

Lemma Math_max_val (x y : float) :
  good x → good y →
  good (Math.max x y) ∧ val (Math.max x y) = Rmax (val x) (val y).
Proof.
  intros Hx Hy. unfold Math.max.
  rewrite (good_not_nan x Hx), (good_not_nan y Hy). simpl.
  destruct (y <? x)%float eqn:E1.
  { apply ltb_val in E1; try assumption. split; [assumption |]. rewrite Rmax_left; lra. }
  destruct (x <? y)%float eqn:E2.
  { apply ltb_val in E2; try assumption. split; [assumption |]. rewrite Rmax_right; lra. }
  assert (¬ val x < val y) by (intros C; apply ltb_val in C; congruence).
  assert (¬ val y < val x) by (intros C; apply ltb_val in C; congruence).
  destruct (PrimFloat.get_sign x); (split; [assumption |]); [rewrite Rmax_right | rewrite Rmax_left]; lra.
Qed.

End Comparisons.

Section DoubleValues.
#[local] Open Scope R_scope.

(** Two doubles that are zero or positive and have the same value are the
    same double. *)
Lemma val_inj (x y : float) : good x → good y → val x = val y → x = y.
Proof.
  intros Hx Hy E. apply Prim2SF_inj.
  pose proof (compare_val x y Hx Hy) as C.
  destruct (Rlt_dec (val x) (val y)); [lra |].
  destruct (Rlt_dec (val y) (val x)); [lra |].
  unfold good in Hx, Hy.
  destruct Hx as [Ex | (m1 & e1 & Ex)], Hy as [Ey | (m2 & e2 & Ey)];
    rewrite Ex, Ey in *; simpl in C; try discriminate; [reflexivity |].
  destruct (Z.compare_spec e1 e2) as [-> | |]; try discriminate.
  rewrite Pos.compare_cont_spec in C. simpl in C.
  destruct (Pos.compare_spec m1 m2) as [-> | |]; try discriminate. reflexivity.
Qed.

(** [Math.floor] as a Number agrees with [Math.floor] as an integer. *)
Lemma Math_floor_val (x : float) (f : Z) :
  good x → JS.Math_floor x = JS.Int f →
  good (Math.floor x) ∧ val (Math.floor x) = IZR f.
Proof.
  intros Hx. unfold JS.Math_floor, Math.floor.
  pose proof (Prim2SF_valid x) as V. unfold good, val in *.
  destruct Hx as [Ex | (m & e & Ex)]; rewrite Ex in *.
  - intros [= <-]. rewrite Ex. split; [left; reflexivity | reflexivity].
  - intros [= <-]. simpl in V. apply bounded_canonical in V as (Hd & He & _).
    pose proof (digits2_pos_bounds m) as Hm.
    assert (Hm53 : (Zpos m < 2 ^ 53)%Z).
    { eapply Z.lt_le_trans; [apply Hm |]. apply Z.pow_le_mono_r; lia. }
    unfold JS.floor_finite. simpl cond_Zopp.
    destruct (Z.leb_spec 0 e) as [Hp | Hn].
    + rewrite Ex. split; [right; eauto |]. simpl. unfold F2R.
      rewrite Z.shiftl_mul_pow2 by lia. rewrite mult_IZR, bpow_IZR by lia. reflexivity.
    + rewrite Z.shiftl_div_pow2 by lia.
      assert (0 < 2 ^ (- e))%Z by (apply Z.pow_pos_nonneg; lia).
      assert (0 <= Zpos m / 2 ^ (- e) <= Zpos m)%Z.
      { split; [apply Z.div_pos; lia |]. apply Z.div_le_upper_bound; [lia |]. nia. }
      apply number_val. lia.
Qed.

End DoubleValues.

(** ** The size of the analysed image *)

Section AnalysisSizeFacts.
#[local] Open Scope R_scope.

Lemma literal_320 : good maxAnalysisWidth ∧ val maxAnalysisWidth = 320.
Proof. change maxAnalysisWidth with (JS.number 320). apply number_val. lia. Qed.

Lemma bpow_neg_IZR (e : Z) : (0 <= e)%Z → IZR (2 ^ e) * bpow (- e) = 1.
Proof. intros He. rewrite <- bpow_IZR by lia. apply bpow_opp. Qed.

(** A zone no wider than the limit is analysed at its own size. *)
Lemma analysis_scale_small (z : Z) :
  (1 <= z <= 320)%Z →
  good (JS.Math_min 1 (maxAnalysisWidth / JS.number z)) ∧
  val (JS.Math_min 1 (maxAnalysisWidth / JS.number z)) = 1.
Proof.
  intros Hz. destruct literal_1 as [g1 v1]. destruct literal_320 as [g320 v320].
  destruct (number_val z) as [gz vz]; [lia |].
  assert (1 <= IZR z <= 320) by (split; apply IZR_le; lia).
  destruct (div_bounds maxAnalysisWidth (JS.number z) 1 320) as [gq vq]; try assumption.
  { rewrite vz. lra. }
  { right. rewrite v320, vz.
    assert (bpow (-1020) <= bpow 0) by (apply bpow_le; lia). rewrite bpow_0 in *.
    pose proof (bpow_pos (-1020)). apply Rdiv_le_lower; [lra | nra]. }
  { change 1 with (IZR 1). apply fmt0_IZR. lia. }
  { apply fmt0_IZR. lia. }
  { rewrite v320, vz. split; [apply Rdiv_le_lower | apply Rdiv_le_upper]; nra. }
  destruct (Math_min_val 1 (maxAnalysisWidth / JS.number z)%float g1 gq) as [gm vm].
  split; [assumption |]. rewrite vm, v1. apply Rmin_left. lra.
Qed.

(** A wider zone is scaled by [320 / zoneW], up to the rounding of the
    quotient. *)
Lemma analysis_scale_large (z : Z) :
  (320 < z < 2 ^ 32)%Z →
  good (JS.Math_min 1 (maxAnalysisWidth / JS.number z)) ∧
  320 / IZR z - bpow (-52) <= val (JS.Math_min 1 (maxAnalysisWidth / JS.number z))
    <= 320 / IZR z + bpow (-52) ∧
  val (JS.Math_min 1 (maxAnalysisWidth / JS.number z)) <= 1.
Proof.
  intros Hz. destruct literal_1 as [g1 v1]. destruct literal_320 as [g320 v320].
  destruct (number_val z) as [gz vz]; [lia |].
  assert (Hzr : 320 < IZR z) by (apply IZR_lt; lia).
  set (k := Z.log2 z).
  assert (Hk : (8 <= k < 32)%Z).
  { split.
    - change 8%Z with (Z.log2 256). apply Z.log2_le_mono. lia.
    - apply Z.log2_lt_pow2; lia. }
  destruct (Z.log2_spec z) as [Hk1 Hk2]; [lia |]. fold k in Hk1, Hk2.
  set (s := (44 + k)%Z). set (P := (2 ^ s)%Z).
  assert (HP : P = (2 ^ 44 * 2 ^ k)%Z) by (unfold P, s; apply Z.pow_add_r; lia).
  assert (HP52 : (2 ^ 52 <= P)%Z) by (unfold P, s; apply Z.pow_le_mono_r; lia).
  rewrite Z.pow_succ_r in Hk2 by lia.
  set (m := (320 * P / z)%Z).
  pose proof (Z.div_mod (320 * P) z ltac:(lia)) as Hdm.
  pose proof (Z.mod_pos_bound (320 * P) z ltac:(lia)) as Hmod.
  fold m in Hdm.
  assert (Hm1 : (m * z <= 320 * P)%Z) by lia.
  assert (Hm2 : (320 * P < (m + 1) * z)%Z) by lia.
  assert (Hm3 : (0 < m)%Z).
  { destruct (Z.le_gt_cases m 0) as [Hle | Hgt]; [| exact Hgt].
    assert ((m + 1) * z <= z)%Z by nia. lia. }
  assert (Hm4 : (m + 1 < 2 ^ 53)%Z).
  { assert (Hmz : (m * z <= 320 * 2 ^ 44 * z)%Z).
    { rewrite HP in Hm1. set (K := (2 ^ k)%Z) in *. lia. }
    apply Z.mul_le_mono_pos_r in Hmz; lia. }
  set (B := bpow (- s)).
  assert (HB : 0 < B) by apply bpow_pos.
  assert (HPB : IZR P * B = 1) by (apply bpow_neg_IZR; lia).
  assert (HB52 : B <= bpow (-52)) by (apply bpow_le; lia).
  assert (R1 : IZR m * IZR z <= 320 * IZR P).
  { rewrite <- !mult_IZR. apply IZR_le. exact Hm1. }
  assert (R2 : 320 * IZR P < (IZR m + 1) * IZR z).
  { change 1 with (IZR 1) at 1. rewrite <- plus_IZR, <- !mult_IZR. apply IZR_lt. exact Hm2. }
  assert (L1 : F2R m (- s) <= 320 / IZR z).
  { unfold F2R. fold B. apply Rdiv_le_lower; [lra |]. nra. }
  assert (L2 : 320 / IZR z <= F2R (m + 1) (- s)).
  { unfold F2R. fold B. rewrite plus_IZR. apply Rdiv_le_upper; [lra |]. nra. }
  assert (L3 : F2R (m + 1) (- s) = F2R m (- s) + B).
  { unfold F2R. fold B. rewrite plus_IZR. lra. }
  assert (L4 : B <= F2R m (- s)).
  { unfold F2R. fold B. assert (1 <= IZR m) by (apply IZR_le; lia). nra. }
  destruct (div_bounds maxAnalysisWidth (JS.number z) (F2R m (- s)) (F2R (m + 1) (- s)))
    as [gq vq]; try assumption.
  { rewrite vz. lra. }
  { right. rewrite v320, vz.
    assert (bpow (-1020) <= B) by (apply bpow_le; lia). lra. }
  { right. exists m, (- s)%Z. split; [reflexivity | lia]. }
  { right. exists (m + 1)%Z, (- s)%Z. split; [reflexivity | lia]. }
  { rewrite v320, vz. lra. }
  destruct (Math_min_val 1 (maxAnalysisWidth / JS.number z)%float g1 gq) as [gm vm].
  split; [assumption |]. rewrite vm, v1.
  assert (320 / IZR z < 1) by (apply Rdiv_lt_upper; lra).
  destruct (Rle_dec 1 (val (maxAnalysisWidth / JS.number z)%float)).
  - rewrite Rmin_left by assumption. lra.
  - rewrite Rmin_right by lra. lra.
Qed.

End AnalysisSizeFacts.

Section AnalysisSizeProofs.
#[local] Open Scope R_scope.

Lemma Math_floor_range (x : float) (a b : Z) :
  good x → IZR a <= val x → val x < IZR b + 1 → (b < 2 ^ 53)%Z →
  ∃ f, Math.floor x = JS.number f ∧ (a <= f <= b)%Z ∧ (0 <= f)%Z.
Proof.
  intros Hx Ha Hb Hb53.
  destruct (floor_bounds x Hx) as (f & Ef & Hf1 & Hf2).
  pose proof (val_nonneg x Hx) as H0.
  assert (Hf0 : (0 <= f)%Z).
  { apply Z.lt_succ_r. apply lt_IZR. rewrite succ_IZR. lra. }
  assert (Hfa : (a <= f)%Z).
  { apply Z.lt_succ_r. apply lt_IZR. rewrite succ_IZR. lra. }
  assert (Hfb : (f <= b)%Z).
  { apply Z.lt_succ_r. apply lt_IZR. rewrite succ_IZR. lra. }
  destruct (Math_floor_val x f Hx Ef) as [gf vf].
  destruct (number_val f) as [gn vn]; [lia |].
  exists f. split; [| lia]. apply val_inj; [assumption | assumption | lra].
Qed.

Lemma half_F2R (n : Z) : F2R (2 * n + 1) (-1) = IZR n + / 2.
Proof.
  unfold F2R. rewrite plus_IZR, mult_IZR.
  replace (bpow (-1)) with (/ 2); [lra |].
  unfold bpow. simpl. lra.
Qed.

Lemma analysis_size_of (r : source_rect) (w h : Z) :
  zoneW r = JS.number w → zoneH r = JS.number h →
  (1 <= w < 2 ^ 32)%Z → (0 <= h < 2 ^ 32)%Z →
  ∃ aw ah,
    analysisWidth r = JS.number aw ∧ analysisHeight r = JS.number ah ∧
    (0 <= ah <= h)%Z ∧
    (w <= 320 → aw = w ∧ ah = h)%Z ∧
    (320 < w → (aw = 319 ∨ aw = 320) ∧ 320 * h / w - 1 <= ah <= 320 * h / w + 1)%Z.
Proof.
  intros EW EH Hw Hh. unfold analysisWidth, analysisHeight, analysis_scale.
  rewrite EW, EH.
  destruct (number_val w) as [gw vw]; [lia |].
  destruct (number_val h) as [gh vh]; [lia |].
  set (scale := JS.Math_min 1 (maxAnalysisWidth / JS.number w)).
  assert (Hwr : 1 <= IZR w) by (apply IZR_le; lia).
  assert (Hhr : 0 <= IZR h) by (apply IZR_le; lia).
  destruct (Z_le_gt_dec w 320) as [Hs | Hl].
  - destruct (analysis_scale_small w) as [gs vs]; [lia |]. fold scale in gs, vs.
    destruct (mul_bounds (JS.number w) scale (IZR w) (IZR w)) as [g1 v1]; try assumption.
    { apply fmt0_IZR. lia. } { apply fmt0_IZR. lia. } { rewrite vw, vs. lra. }
    destruct (mul_bounds (JS.number h) scale (IZR h) (IZR h)) as [g2 v2]; try assumption.
    { apply fmt0_IZR. lia. } { apply fmt0_IZR. lia. } { rewrite vh, vs. lra. }
    destruct (Math_floor_range (JS.number w * scale)%float w w) as (aw & Eaw & Haw & _);
      [assumption | lra | lra | lia |].
    destruct (Math_floor_range (JS.number h * scale)%float h h) as (ah & Eah & Hah & _);
      [assumption | lra | lra | lia |].
    exists aw, ah. repeat split; try assumption; lia.
  - destruct (analysis_scale_large w) as (gs & vs & vs1); [lia |]. fold scale in gs, vs, vs1.
    assert (Hw32 : IZR w <= bpow 32).
    { rewrite bpow_IZR by lia. apply IZR_le. lia. }
    assert (Hh32 : IZR h <= bpow 32).
    { rewrite bpow_IZR by lia. apply IZR_le. lia. }
    assert (He : bpow 32 * bpow (-52) <= / 2).
    { rewrite <- bpow_add. replace (/ 2) with (bpow (-1)) by (unfold bpow; simpl; lra).
      apply bpow_le. lia. }
    pose proof (bpow_pos (-52)) as Hb. pose proof (bpow_pos 32) as Hb32.
    assert (Hwq : IZR w * (320 / IZR w) = 320) by (field; lra).
    pose proof (val_nonneg scale gs) as Hs0.
    destruct (mul_bounds (JS.number w) scale 319 (F2R (2 * 320 + 1) (-1))) as [g1 v1];
      try assumption.
    { apply fmt0_IZR. lia. }
    { right. exists (2 * 320 + 1)%Z, (-1)%Z. split; [reflexivity | lia]. }
    { rewrite half_F2R, vw. split; nra. }
    rewrite half_F2R in v1.
    destruct (Math_floor_range (JS.number w * scale)%float 319 320) as (aw & Eaw & Haw & _);
      [assumption | lra | lra | lia |].
    set (a := (320 * h / w)%Z).
    pose proof (Z.div_mod (320 * h) w ltac:(lia)) as Hdm.
    pose proof (Z.mod_pos_bound (320 * h) w ltac:(lia)) as Hmod.
    fold a in Hdm.
    assert (Ha0 : (0 <= a)%Z) by (apply Z.div_pos; lia).
    assert (Hah : (a <= h)%Z).
    { apply Z.div_le_upper_bound; [lia |]. nia. }
    assert (Hq1 : IZR a <= IZR h * (320 / IZR w)).
    { replace (IZR h * (320 / IZR w)) with (320 * IZR h / IZR w) by (field; lra).
      apply Rdiv_le_lower; [lra |]. rewrite <- !mult_IZR. apply IZR_le. lia. }
    assert (Hq2 : IZR h * (320 / IZR w) < IZR a + 1).
    { replace (IZR h * (320 / IZR w)) with (320 * IZR h / IZR w) by (field; lra).
      apply Rdiv_lt_upper; [lra |].
      change 1 with (IZR 1). rewrite <- plus_IZR, <- !mult_IZR. apply IZR_lt. lia. }
    destruct (mul_bounds (JS.number h) scale (IZR (Z.max 0 (a - 1))) (F2R (2 * (a + 1) + 1) (-1)))
      as [g2 v2]; try assumption.
    { apply fmt0_IZR. lia. }
    { right. exists (2 * (a + 1) + 1)%Z, (-1)%Z. split; [reflexivity | lia]. }
    { rewrite half_F2R, vh, plus_IZR. split.
      - destruct (Z.max_spec 0 (a - 1)) as [[_ ->] | [_ ->]].
        + rewrite minus_IZR. nra.
        + nra.
      - nra. }
    rewrite half_F2R, plus_IZR in v2.
    destruct (mul_bounds (JS.number h) scale 0 (IZR h)) as [_ v3]; try assumption.
    { left. reflexivity. } { apply fmt0_IZR. lia. } { rewrite vh. nra. }
    destruct (Math_floor_range (JS.number h * scale)%float (a - 1) (Z.min (a + 1) h))
      as (ah & Eah & Hah' & Hah0); [assumption | | | lia |].
    { destruct (Z.max_spec 0 (a - 1)) as [[_ E] | [_ E]]; rewrite E in v2.
      - lra.
      - rewrite minus_IZR. assert (IZR a <= 1) by (apply IZR_le; lia). lra. }
    { destruct (Z.min_spec (a + 1) h) as [[_ ->] | [_ ->]]; [rewrite plus_IZR |]; lra. }
    exists aw, ah. repeat split; try assumption; lia.
Qed.

End AnalysisSizeProofs.

Section ZoneSides.
#[local] Open Scope R_scope.

Lemma literal_10 : good 10 ∧ val 10 = 10.
Proof. change 10%float with (JS.number 10). apply number_val. lia. Qed.

(** A normalized coordinate is [-0], or zero or positive and at most 1. *)
Lemma in_unit_cases (q : float) :
  in_unit q = true → q = (-0)%float ∨ (good q ∧ val q <= 1).
Proof.
  unfold in_unit. intros H. apply andb_prop in H as [H0 H1].
  destruct literal_1 as [g1 v1].
  assert (Hq : Prim2SF q = S754_zero true ∨ good q).
  { rewrite FloatAxioms.leb_spec in H0, H1. unfold good, nonneg_finite.
    replace (Prim2SF 0) with (S754_zero false) in H0 by (vm_compute; reflexivity).
    replace (Prim2SF 1) with (S754_finite false 4503599627370496 (-52)) in H1
      by (vm_compute; reflexivity).
    destruct (Prim2SF q) as [[] | [] | | [] m e]; simpl in H0, H1; try discriminate; eauto. }
  destruct Hq as [Hq | Hq].
  - left. apply Prim2SF_inj. rewrite Hq. vm_compute. reflexivity.
  - right. split; [assumption |]. apply leb_val in H1; try assumption. lra.
Qed.

(** [Math.max(Math.floor(q * n), 10)] for a normalized [q] and a dimension
    [n] of the source *)
Lemma zone_side (q : float) (n : Z) :
  in_unit q = true → (0 <= n < 2 ^ 32)%Z →
  ∃ w, Math.max (Math.floor (q * JS.number n)) 10 = JS.number w ∧
       (10 <= w <= Z.max 10 n)%Z.
Proof.
  intros Hq Hn. destruct (number_val n) as [gn vn]; [lia |].
  destruct literal_10 as [g10 v10].
  assert (Hnr : 0 <= IZR n) by (apply IZR_le; lia).
  destruct (in_unit_cases q Hq) as [-> | [gq vq]].
  - exists 10%Z. split; [| lia].
    assert (E : ((-0) * JS.number n)%float = (-0)%float).
    { apply Prim2SF_inj. rewrite FloatAxioms.mul_spec.
      replace (Prim2SF (-0)) with (S754_zero true) by (vm_compute; reflexivity).
      destruct gn as [-> | (m & e & ->)]; reflexivity. }
    rewrite E. vm_compute. reflexivity.
  - pose proof (val_nonneg q gq) as Hq0.
    destruct (mul_bounds q (JS.number n) 0 (IZR n)) as [gp vp]; try assumption.
    { left. reflexivity. } { apply fmt0_IZR. lia. } { rewrite vn. nra. }
    destruct (Math_floor_range (q * JS.number n)%float 0 n) as (f & Ef & Hf & _);
      [assumption | lra | lra | lia |].
    rewrite Ef. destruct (number_val f) as [gf vf]; [lia |].
    destruct (Math_max_val (JS.number f) 10 gf g10) as [gm vm].
    exists (Z.max f 10). split; [| lia].
    destruct (number_val (Z.max f 10)) as [gx vx]; [lia |].
    apply val_inj; try assumption. rewrite vm, vx, vf, v10.
    destruct (Z.max_spec f 10) as [[Hlt ->] | [Hle ->]].
    + apply Rmax_right. apply IZR_le. lia.
    + apply Rmax_left. apply IZR_le. lia.
Qed.

End ZoneSides.

Section AnalysisSizeTheorems.

(** X1. With no zone selected the whole frame is analysed: at its own size when
    it is at most 320 pixels wide, and otherwise scaled to a width of 320
    or, where the rounded scale factor falls short, 319 pixels, the height
    following the same factor to within one pixel. *)
Theorem full_frame_analysis_size (srcWidth srcHeight : nat) :
  (1 <= Z.of_nat srcWidth < 2 ^ 32)%Z → (Z.of_nat srcHeight < 2 ^ 32)%Z →
  let r := zone_of_frame None srcWidth srcHeight in
  let w := Z.of_nat srcWidth in
  let h := Z.of_nat srcHeight in
  ∃ aw ah,
    analysisWidth r = JS.number aw ∧ analysisHeight r = JS.number ah ∧
    (0 <= ah <= h)%Z ∧
    (w <= 320 → aw = w ∧ ah = h)%Z ∧
    (320 < w → (aw = 319 ∨ aw = 320) ∧ 320 * h / w - 1 <= ah <= 320 * h / w + 1)%Z.
Proof.
  intros HW HH r w h.
  apply (analysis_size_of r w h); [reflexivity | reflexivity | assumption | lia].
Qed.

Lemma full_frame_analysis_size_witness :
  ∃ aw ah,
    analysisWidth (zone_of_frame None 1920 1080) = JS.number aw ∧
    analysisHeight (zone_of_frame None 1920 1080) = JS.number ah ∧
    (0 <= ah <= 1080)%Z ∧
    (1920 <= 320 → aw = 1920 ∧ ah = 1080)%Z ∧
    (320 < 1920 → (aw = 319 ∨ aw = 320) ∧
       320 * 1080 / 1920 - 1 <= ah <= 320 * 1080 / 1920 + 1)%Z.
Proof.
  apply (full_frame_analysis_size 1920 1080); simpl; lia.
Defined.

(** The scale factor [320 / zoneW] is rounded, so a source 581 pixels wide
    is analysed at 319 pixels, not 320. *)
Example analysis_width_319 :
  analysisWidth (zone_of_frame None 581 400) = JS.number 319 ∧
  analysisWidth (zone_of_frame None 1920 1080) = JS.number 320.
Proof. vm_compute. auto. Qed.

(** X2. With a zone selected in normalized coordinates, the rectangle that is
    analysed has sides of at least 10 pixels, and the analysed image is
    between 10 and 320 pixels wide and no higher than the rectangle. *)
Theorem zone_analysis_size (z : zone) (srcWidth srcHeight : nat) :
  in_unit (zone_width z) = true → in_unit (zone_height z) = true →
  (Z.of_nat srcWidth < 2 ^ 32)%Z → (Z.of_nat srcHeight < 2 ^ 32)%Z →
  let r := zone_of_frame (Some z) srcWidth srcHeight in
  ∃ zw zh aw ah,
    zoneW r = JS.number zw ∧ (10 <= zw <= Z.max 10 (Z.of_nat srcWidth))%Z ∧
    zoneH r = JS.number zh ∧ (10 <= zh <= Z.max 10 (Z.of_nat srcHeight))%Z ∧
    analysisWidth r = JS.number aw ∧ (10 <= aw <= 320)%Z ∧
    analysisHeight r = JS.number ah ∧ (0 <= ah <= zh)%Z ∧
    (zw <= 320 → aw = zw ∧ ah = zh)%Z.
Proof.
  intros Hw Hh HW HH r.
  destruct (zone_side (zone_width z) (Z.of_nat srcWidth) Hw) as (zw & Ezw & Hzw); [lia |].
  destruct (zone_side (zone_height z) (Z.of_nat srcHeight) Hh) as (zh & Ezh & Hzh); [lia |].
  destruct (analysis_size_of r zw zh Ezw Ezh) as (aw & ah & Eaw & Eah & Hah & Hs & Hl);
    [lia | lia |].
  assert (Haw : (10 <= aw <= 320)%Z).
  { destruct (Z_le_gt_dec zw 320) as [H1 | H1]; [destruct (Hs H1); lia |].
    destruct (Hl ltac:(lia)) as [[-> | ->] _]; lia. }
  exists zw, zh, aw, ah. repeat split; try assumption; lia.
Qed.

Lemma zone_analysis_size_witness :
  let z := {| zone_x := 0.25; zone_y := 0.25; zone_width := 0.5; zone_height := 0.5 |} in
  let r := zone_of_frame (Some z) 1920 1080 in
  ∃ zw zh aw ah,
    zoneW r = JS.number zw ∧ (10 <= zw <= Z.max 10 (Z.of_nat 1920))%Z ∧
    zoneH r = JS.number zh ∧ (10 <= zh <= Z.max 10 (Z.of_nat 1080))%Z ∧
    analysisWidth r = JS.number aw ∧ (10 <= aw <= 320)%Z ∧
    analysisHeight r = JS.number ah ∧ (0 <= ah <= zh)%Z ∧
    (zw <= 320 → aw = zw ∧ ah = zh)%Z.
Proof.
  apply (zone_analysis_size
           {| zone_x := 0.25; zone_y := 0.25; zone_width := 0.5; zone_height := 0.5 |}
           1920 1080); (reflexivity || (simpl; lia)).
Defined.

End AnalysisSizeTheorems.

(** ** Zone selection *)

Section SignSymmetry.

Lemma binary_round_aux_opp (s : bool) (m e : Z) (l : location) :
  binary_round_aux prec emax (negb s) m e l = SFopp (binary_round_aux prec emax s m e l).
Proof.
  unfold binary_round_aux.
  destruct (shr_fexp prec emax m e l) as [mrs' e'].
  destruct (shr_fexp prec emax _ e' loc_Exact) as [mrs'' e''].
  destruct (shr_m mrs''); [reflexivity | | reflexivity].
  destruct (e'' <=? emax - prec); reflexivity.
Qed.

Lemma binary_normalize_opp (m e : Z) :
  m ≠ 0 →
  binary_normalize prec emax (- m) e false = SFopp (binary_normalize prec emax m e false).
Proof.
  intros Hm. destruct m as [| p | p]; [congruence | |].
  - change (- Z.pos p) with (Z.neg p). unfold binary_normalize, binary_round.
    destruct (shl_align p e _) as [mz ez]. apply (binary_round_aux_opp false).
  - change (- Z.neg p) with (Z.pos p). unfold binary_normalize, binary_round.
    destruct (shl_align p e _) as [mz ez].
    change true with (negb false) at 1. rewrite binary_round_aux_opp.
    destruct (binary_round_aux _ _ _ _ _ _) as [[] | [] | | [] ? ?]; reflexivity.
Qed.

Lemma SFabs_opp (x : spec_float) : SFabs (SFopp x) = SFabs x.
Proof. destruct x; reflexivity. Qed.

(** [|y - x| = |x - y|] *)
Lemma SFsub_swap (x y : spec_float) :
  nonneg_finite x → nonneg_finite y → SFabs (SF64sub y x) = SFabs (SF64sub x y).
Proof.
  intros [-> | (mx & ex & ->)] [-> | (my & ey & ->)]; cbn [SF64sub SFsub negb]; try reflexivity.
  rewrite (Z.min_comm ey ex). cbn [cond_Zopp].
  set (a := Z.pos (shl_align mx ex (ex `min` ey)).1).
  set (b := Z.pos (shl_align my ey (ex `min` ey)).1).
  destruct (Z.eq_dec (a - b) 0) as [E | E].
  - replace (b - a) with 0 by lia. rewrite E. reflexivity.
  - replace (b - a) with (- (a - b)) by lia.
    rewrite (binary_normalize_opp _ _ E). apply SFabs_opp.
Qed.

End SignSymmetry.

Section Normalized.
#[local] Open Scope R_scope.

Lemma is_nan_spec (x : float) : PrimFloat.is_nan x = true ↔ Prim2SF x = S754_nan.
Proof.
  unfold PrimFloat.is_nan. rewrite FloatAxioms.eqb_spec. unfold SFeqb.
  destruct (Prim2SF x) as [[] | [] | | [] m e]; cbn [SFcompare]; try (split; (discriminate || reflexivity));
    rewrite Z.compare_refl, Pos.compare_cont_refl; split; discriminate.
Qed.

Lemma nan_normalized (x : float) : PrimFloat.is_nan x = true → normalized x = true.
Proof. intros H. unfold normalized. rewrite H. reflexivity. Qed.

Lemma SFcompare_antisym (x y : spec_float) :
  SFcompare y x = option_map CompOpp (SFcompare x y).
Proof.
  destruct x as [[] | [] | | [] m1 e1], y as [[] | [] | | [] m2 e2]; cbn [SFcompare option_map CompOpp];
    try reflexivity;
    rewrite (Z.compare_antisym e1 e2); destruct (e1 ?= e2)%Z; cbn [CompOpp]; try reflexivity;
    pose proof (Pos.compare_cont_antisym m1 m2 Eq) as A; cbn [CompOpp] in A;
    rewrite <- A; destruct (Pos.compare_cont Eq m1 m2); reflexivity.
Qed.

(** What is not above a bound and is no NaN is at most the bound. *)
Lemma not_ltb_leb (a x : float) :
  PrimFloat.is_nan a = false → PrimFloat.is_nan x = false →
  (a <? x)%float = false → (x <=? a)%float = true.
Proof.
  intros Ha Hx. rewrite FloatAxioms.ltb_spec, FloatAxioms.leb_spec. unfold SFltb, SFleb.
  rewrite (SFcompare_antisym (Prim2SF a) (Prim2SF x)).
  assert (Na : Prim2SF a ≠ S754_nan) by (rewrite <- is_nan_spec; congruence).
  assert (Nx : Prim2SF x ≠ S754_nan) by (rewrite <- is_nan_spec; congruence).
  destruct (SFcompare (Prim2SF a) (Prim2SF x)) as [[] |] eqn:E; cbn; try congruence.
  destruct (Prim2SF a) as [[] | [] | | [] ? ?], (Prim2SF x) as [[] | [] | | [] ? ?];
    cbn in E; congruence.
Qed.

Lemma ltb_leb (a x : float) : (a <? x)%float = true → (a <=? x)%float = true.
Proof.
  rewrite FloatAxioms.ltb_spec, FloatAxioms.leb_spec. unfold SFltb, SFleb.
  destruct (SFcompare (Prim2SF a) (Prim2SF x)) as [[] |]; congruence.
Qed.

(** [Math.max(0, Math.min(1, x))] is NaN or lies between 0 and 1. *)
Lemma clamp_normalized (x : float) : normalized (Math.max 0 (JS.Math_min 1 x)) = true.
Proof.
  unfold JS.Math_min. change (PrimFloat.is_nan 1) with false. cbn [orb].
  destruct (PrimFloat.is_nan x) eqn:Nx; [reflexivity |].
  destruct (1 <? x)%float eqn:E1; [reflexivity |].
  assert (Hm : (if (x <? 1)%float then x else if PrimFloat.get_sign 1 then 1%float else x) = x).
  { destruct (x <? 1)%float; reflexivity. }
  rewrite Hm. unfold Math.max. change (PrimFloat.is_nan 0) with false. rewrite Nx. cbn [orb].
  destruct (x <? 0)%float eqn:E2; [reflexivity |].
  destruct (0 <? x)%float eqn:E3; [| reflexivity].
  unfold normalized, in_unit. rewrite Nx, (ltb_leb 0 x E3). cbn [orb andb].
  apply not_ltb_leb; [reflexivity | assumption | assumption].
Qed.

End Normalized.

Section SelectionFacts.
#[local] Open Scope R_scope.

Lemma literal_0 : good 0 ∧ val 0 = 0.
Proof. change 0%float with (JS.number 0). apply number_val. lia. Qed.

Lemma good_in_unit (d : float) : good d → val d <= 1 → in_unit d = true.
Proof.
  intros Hd Hv. destruct literal_0 as [g0 v0]. destruct literal_1 as [g1 v1].
  pose proof (val_nonneg d Hd). unfold in_unit. apply andb_true_intro. split.
  - apply leb_val; [assumption | assumption | lra].
  - apply leb_val; [assumption | assumption | lra].
Qed.

Lemma abs_good (d : float) : good d → Math.abs d = d.
Proof.
  intros Hd. apply Prim2SF_inj. unfold Math.abs. rewrite abs_spec.
  destruct Hd as [-> | (m & e & ->)]; reflexivity.
Qed.

Lemma normalized_cases (x : float) :
  normalized x = true →
  PrimFloat.is_nan x = true ∨ (PrimFloat.is_nan x = false ∧ in_unit x = true).
Proof.
  unfold normalized. destruct (PrimFloat.is_nan x); [left; reflexivity | right; auto].
Qed.

Lemma min_normalized (a b : float) :
  normalized a = true → normalized b = true → normalized (JS.Math_min a b) = true.
Proof.
  intros Ha Hb. unfold JS.Math_min.
  destruct (normalized_cases a Ha) as [Na | [Na Ua]]; rewrite Na; [reflexivity |].
  destruct (normalized_cases b Hb) as [Nb | [Nb Ub]]; rewrite Nb; [reflexivity |].
  cbn [orb]. destruct (a <? b)%float; [assumption |]. destruct (b <? a)%float; [assumption |].
  destruct (PrimFloat.get_sign a); assumption.
Qed.

Lemma sub_nan_l (c s : float) : PrimFloat.is_nan c = true → PrimFloat.is_nan (Math.abs (c - s)) = true.
Proof.
  intros H. apply is_nan_spec in H. apply is_nan_spec. unfold Math.abs.
  rewrite abs_spec, FloatAxioms.sub_spec, H. reflexivity.
Qed.

Lemma sub_nan_r (c s : float) : PrimFloat.is_nan s = true → PrimFloat.is_nan (Math.abs (c - s)) = true.
Proof.
  intros H. apply is_nan_spec in H. apply is_nan_spec. unfold Math.abs.
  rewrite abs_spec, FloatAxioms.sub_spec, H. destruct (Prim2SF c); reflexivity.
Qed.

Lemma abs_sub_good (c s : float) :
  good c → good s → val c <= 1 → val s <= 1 → val s <= val c →
  in_unit (Math.abs (c - s)) = true.
Proof.
  intros gc gs vc vs Hsc. pose proof (val_nonneg s gs).
  destruct (sub_bounds c s 0 1) as [gd vd]; try assumption.
  { left. reflexivity. } { change 1 with (IZR 1). apply fmt0_IZR. lia. } { lra. }
  rewrite (abs_good _ gd). apply good_in_unit; [assumption | lra].
Qed.

Lemma abs_sub_swap (c s : float) : good c → good s → Math.abs (c - s) = Math.abs (s - c).
Proof.
  intros gc gs. apply Prim2SF_inj. unfold Math.abs.
  rewrite !abs_spec, !FloatAxioms.sub_spec. apply SFsub_swap; assumption.
Qed.

Lemma abs_sub_normalized (c s : float) :
  normalized c = true → normalized s = true → normalized (Math.abs (c - s)) = true.
Proof.
  intros Hc Hs.
  destruct (normalized_cases c Hc) as [Nc | [Nc Uc]]; [apply nan_normalized, sub_nan_l, Nc |].
  destruct (normalized_cases s Hs) as [Ns | [Ns Us]]; [apply nan_normalized, sub_nan_r, Ns |].
  unfold normalized. apply orb_true_intro. right.
  destruct (in_unit_cases c Uc) as [-> | [gc vc]], (in_unit_cases s Us) as [-> | [gs vs]].
  - reflexivity.
  - replace (Math.abs (-0 - s)) with s; [assumption |].
    apply Prim2SF_inj. unfold Math.abs. rewrite abs_spec, FloatAxioms.sub_spec.
    replace (Prim2SF (-0)) with (S754_zero true) by (vm_compute; reflexivity).
    destruct gs as [-> | (m & e & ->)]; reflexivity.
  - replace (Math.abs (c - -0)) with c; [assumption |].
    apply Prim2SF_inj. unfold Math.abs. rewrite abs_spec, FloatAxioms.sub_spec.
    replace (Prim2SF (-0)) with (S754_zero true) by (vm_compute; reflexivity).
    destruct gc as [-> | (m & e & ->)]; reflexivity.
  - destruct (Rle_dec (val s) (val c)).
    + apply abs_sub_good; assumption.
    + rewrite abs_sub_swap by assumption. apply abs_sub_good; try assumption. lra.
Qed.

Lemma getRelativePosition_normalized (rect : DOMRect) (e : pointer) :
  position_normalized (getRelativePosition rect e) = true.
Proof.
  unfold position_normalized, getRelativePosition. cbn [pos_x pos_y].
  rewrite !clamp_normalized. reflexivity.
Qed.

Lemma dispatch_consistent (s : Selection) (ev : ui_event) :
  selection_consistent s → selection_consistent (dispatch s ev).
Proof.
  intros H. pose proof H as (I1 & I2 & I3 & I4).
  destruct ev as [rect e | rect e | | | granted | | scopeKey checked]; cbn [dispatch].
  - unfold onSelectionStart. destruct (negb (isCapturing (capture s))); [exact H |].
    split; [| split; [| split]]; cbn; try discriminate.
    intros p [= <-]. apply getRelativePosition_normalized.
  - unfold onSelectionMove.
    destruct (isSelecting s) eqn:Sel; [| exact H].
    destruct (selectionStart s) as [start |] eqn:St; [| exact H].
    pose proof (I3 start eq_refl) as Hs. apply andb_prop in Hs as [Hsx Hsy].
    pose proof (getRelativePosition_normalized rect e) as Hc.
    apply andb_prop in Hc as [Hcx Hcy]. cbv zeta.
    set (current := getRelativePosition rect e) in *.
    split; [| split; [| split]];
      cbn [resetZoneButton_disabled isSelecting selectedZone selectionStart].
    + intros D. destruct (I1 D) as [F _]. congruence.
    + discriminate.
    + intros p [= <-]. apply I3. reflexivity.
    + intros z [= <-]. unfold zone_normalized. cbn [zone_x zone_y zone_width zone_height].
      repeat (apply andb_true_intro; split);
        (apply min_normalized || apply abs_sub_normalized); assumption.
  - unfold onSelectionEnd. destruct (isSelecting s) eqn:Sel; cbn [negb]; [| exact H].
    destruct (selectedZone s) as [z |] eqn:Z.
    + destruct ((zone_width z <? 0.02)%float || (zone_height z <? 0.02)%float) eqn:Small.
      * split; [| split; [| split]]; cbn; try discriminate. assumption.
      * split; [| split; [| split]]; cbn; try assumption.
        -- intros _. split; [reflexivity | discriminate].
        -- intros _ z' [= <-]. unfold zone_large_enough. rewrite Small. reflexivity.
    + split; [| split; [| split]]; cbn; try discriminate. assumption.
  - unfold resetZone. split; [| split; [| split]]; cbn; try discriminate. assumption.
  - unfold startCapture. destruct granted; exact H.
  - unfold stopCapture. split; [| split; [| split]]; cbn; try discriminate. assumption.
  - exact H.
Qed.

End SelectionFacts.

(** ** Quotients that are no NaN *)

Section NotNaN.
#[local] Open Scope Z_scope.

Lemma shr_1_nonneg (mrs : shr_record) : 0 <= shr_m mrs → 0 <= shr_m (shr_1 mrs).
Proof.
  destruct mrs as [m r s]. cbn [shr_m]. intros H.
  destruct m as [| [p | p |] | p]; cbn; lia.
Qed.

Lemma iter_pos_shr_1_nonneg (p : positive) (mrs : shr_record) :
  0 <= shr_m mrs → 0 <= shr_m (SpecFloat.iter_pos shr_1 p mrs).
Proof.
  revert mrs. induction p as [p IH | p IH |]; intros mrs H; cbn [SpecFloat.iter_pos].
  - apply IH, IH, shr_1_nonneg, H.
  - apply IH, IH, H.
  - apply shr_1_nonneg, H.
Qed.

Lemma shr_fexp_nonneg (m e : Z) (l : location) :
  0 <= m → 0 <= shr_m (fst (shr_fexp prec emax m e l)).
Proof.
  intros H. unfold shr_fexp, shr.
  assert (H0 : 0 <= shr_m (shr_record_of_loc m l)) by (destruct l as [| []]; exact H).
  destruct (fexp prec emax (Zdigits2 m + e) - e); cbn [fst]; try exact H0.
  apply iter_pos_shr_1_nonneg, H0.
Qed.

Lemma round_nearest_even_nonneg (m : Z) (l : location) :
  0 <= m → 0 <= round_nearest_even m l.
Proof.
  intros H. destruct l as [| []]; cbn; try destruct (Z.even m); lia.
Qed.

(** Rounding a mantissa that is not negative never gives NaN. *)
Lemma binary_round_aux_not_nan (s : bool) (m e : Z) (l : location) :
  0 <= m → binary_round_aux prec emax s m e l ≠ S754_nan.
Proof.
  intros H. unfold binary_round_aux.
  pose proof (shr_fexp_nonneg m e l H) as H1.
  destruct (shr_fexp prec emax m e l) as [mrs' e']. cbn [fst] in H1.
  pose proof (shr_fexp_nonneg _ e' loc_Exact
                (round_nearest_even_nonneg _ (loc_of_shr_record mrs') H1)) as H2.
  destruct (shr_fexp prec emax _ e' loc_Exact) as [mrs'' e'']. cbn [fst] in H2.
  destruct (shr_m mrs''); [discriminate | | lia].
  destruct (e'' <=? emax - prec); discriminate.
Qed.

Lemma binary_normalize_not_nan (m e : Z) :
  binary_normalize prec emax m e false ≠ S754_nan.
Proof.
  destruct m as [| p | p]; cbn [binary_normalize]; [discriminate | |];
    unfold binary_round; destruct (shl_align p e _) as [mz ez];
    apply binary_round_aux_not_nan; lia.
Qed.

(** The difference of two finite doubles is no NaN. *)
Lemma sub_not_nan (c o : float) :
  isFinite c = true → isFinite o = true → PrimFloat.is_nan (c - o) = false.
Proof.
  unfold isFinite. intros Hc Ho.
  destruct (PrimFloat.is_nan (c - o)) eqn:N; [| reflexivity]. exfalso.
  apply is_nan_spec in N. rewrite FloatAxioms.sub_spec in N. revert Hc Ho N.
  destruct (Prim2SF c) as [sc | sc | | sc mc ec], (Prim2SF o) as [so | so | | so mo eo];
    try discriminate; intros _ _; cbn [SF64sub SFsub]; try discriminate.
  - destruct sc, so; discriminate.
  - apply binary_normalize_not_nan.
Qed.

(** A quotient is NaN only if an operand is, or if both operands are zero
    or both infinite. *)
Lemma div_not_nan (d w : float) :
  PrimFloat.is_nan d = false → isFinite w = true → nonzero w = true →
  PrimFloat.is_nan (d / w) = false.
Proof.
  unfold isFinite, nonzero. intros Hd Hw Hz.
  assert (Nd : Prim2SF d ≠ S754_nan) by (rewrite <- is_nan_spec; congruence).
  destruct (PrimFloat.is_nan (d / w)) eqn:N; [| reflexivity]. exfalso.
  apply is_nan_spec in N. rewrite FloatAxioms.div_spec in N. revert Hw Hz Nd N.
  destruct (Prim2SF w) as [sw | sw | | sw mw ew]; try discriminate; intros _ _.
  destruct (Prim2SF d) as [sd | sd | | sd md ed]; try discriminate; [congruence |].
  intros _. cbn [SF64div SFdiv]. unfold SFdiv_core_binary.
  set (m' := match _ with Z.pos _ => _ | 0 => _ | Z.neg _ => 0 end).
  assert (Hm' : 0 <= m').
  { unfold m'. destruct (ed - ew - _); try lia. apply Z.shiftl_nonneg. lia. }
  pose proof (Z.div_pos m' (Zpos mw) Hm' ltac:(lia)) as Hq. unfold Z.div in Hq.
  destruct (Z.div_eucl m' (Zpos mw)) as [q r]. cbn [fst] in Hq.
  apply binary_round_aux_not_nan. exact Hq.
Qed.

(** The relative coordinate of a pointer on a canvas with an extent *)
Lemma measured_not_nan (client origin extent : float) :
  measurable client origin extent = true →
  PrimFloat.is_nan ((client - origin) / extent) = false.
Proof.
  unfold measurable. intros H.
  apply andb_true_iff in H as [H Hz]. apply andb_true_iff in H as [H Hw].
  apply andb_true_iff in H as [Hc Ho].
  apply div_not_nan; [apply sub_not_nan | |]; assumption.
Qed.

End NotNaN.

Section Clamp.
#[local] Open Scope float_scope.

(** [Math.max(0, Math.min(1, x))] is NaN exactly when [x] is. *)
Lemma clamp_nan (x : float) :
  PrimFloat.is_nan (Math.max 0 (JS.Math_min 1 x)) = PrimFloat.is_nan x.
Proof.
  unfold JS.Math_min. change (PrimFloat.is_nan 1) with false. cbn [orb].
  destruct (PrimFloat.is_nan x) eqn:Nx; [reflexivity |].
  destruct (1 <? x)%float eqn:E1; [reflexivity |].
  assert (Hm : (if (x <? 1)%float then x else if PrimFloat.get_sign 1 then 1%float else x) = x).
  { destruct (x <? 1)%float; reflexivity. }
  rewrite Hm. unfold Math.max. change (PrimFloat.is_nan 0) with false. rewrite Nx. cbn [orb].
  destruct (x <? 0)%float; [reflexivity |].
  destruct (0 <? x)%float; [assumption |].
  change (PrimFloat.get_sign 0) with false. cbn iota. reflexivity.
Qed.

Lemma clamp_in_unit (x : float) :
  PrimFloat.is_nan x = false → in_unit (Math.max 0 (JS.Math_min 1 x)) = true.
Proof.
  intros Nx. pose proof (clamp_normalized x) as H. unfold normalized in H.
  rewrite clamp_nan, Nx in H. exact H.
Qed.

End Clamp.

Section SelectionTheorems.
#[local] Open Scope float_scope.

(** A relative coordinate above 0 and at most 1 passes the clamp unchanged. *)
Lemma clamp_inside (q : float) :
  (0 <? q) = true → (q <=? 1) = true → Math.max 0 (JS.Math_min 1 q) = q.
Proof.
  intros H0 H1.
  assert (Nq : PrimFloat.is_nan q = false).
  { destruct (PrimFloat.is_nan q) eqn:N; [| reflexivity].
    apply is_nan_spec in N. rewrite FloatAxioms.ltb_spec, N in H0.
    destruct (Prim2SF 0); discriminate. }
  assert (G1 : (1 <? q) = false).
  { rewrite FloatAxioms.leb_spec in H1. rewrite FloatAxioms.ltb_spec.
    unfold SFleb in H1. unfold SFltb.
    rewrite (SFcompare_antisym (Prim2SF q) (Prim2SF 1)).
    destruct (SFcompare (Prim2SF q) (Prim2SF 1)) as [[] |]; try discriminate; reflexivity. }
  assert (G0 : (q <? 0) = false).
  { rewrite FloatAxioms.ltb_spec in H0 |- *. unfold SFltb in *.
    rewrite (SFcompare_antisym (Prim2SF 0) (Prim2SF q)).
    destruct (SFcompare (Prim2SF 0) (Prim2SF q)) as [[] |]; try discriminate; reflexivity. }
  unfold JS.Math_min. change (PrimFloat.is_nan 1) with false. rewrite Nq, G1. cbn [orb].
  assert (Hm : (if q <? 1 then q else if PrimFloat.get_sign 1 then 1 else q) = q).
  { destruct (q <? 1); reflexivity. }
  rewrite Hm. unfold Math.max. change (PrimFloat.is_nan 0) with false.
  rewrite Nq, G0, H0. reflexivity.
Qed.

(** X3. Each coordinate of the position [getRelativePosition] returns is
    NaN or lies between 0 and 1, and it is NaN exactly when the quotient
    [(client - origin) / extent] it clamps is NaN.  When the pointer
    coordinate, the origin and the extent of the canvas are finite and the
    extent is not zero, the quotient is no NaN and the coordinate lies
    between 0 and 1.  A quotient above 0 and at most 1 is returned
    unchanged. *)
Theorem pointer_position_clamped (rect : DOMRect) (e : pointer) :
  let p := getRelativePosition rect e in
  let x := (clientX e - rect_left rect) / rect_width rect in
  let y := (clientY e - rect_top rect) / rect_height rect in
  position_normalized p = true ∧
  PrimFloat.is_nan (pos_x p) = PrimFloat.is_nan x ∧
  PrimFloat.is_nan (pos_y p) = PrimFloat.is_nan y ∧
  (measurable (clientX e) (rect_left rect) (rect_width rect) = true →
   in_unit (pos_x p) = true) ∧
  (measurable (clientY e) (rect_top rect) (rect_height rect) = true →
   in_unit (pos_y p) = true) ∧
  ((0 <? x) = true → (x <=? 1) = true → pos_x p = x) ∧
  ((0 <? y) = true → (y <=? 1) = true → pos_y p = y).
Proof.
  intros p x y. split; [apply getRelativePosition_normalized |].
  split; [apply clamp_nan |]. split; [apply clamp_nan |].
  split; [intros H; apply clamp_in_unit, measured_not_nan, H |].
  split; [intros H; apply clamp_in_unit, measured_not_nan, H |].
  split; apply clamp_inside.
Qed.

Lemma pointer_position_clamped_witness :
  let rect := {| rect_left := 10; rect_top := 20; rect_width := 640; rect_height := 360 |} in
  let e := {| clientX := 900; clientY := 110 |} in
  measurable (clientX e) (rect_left rect) (rect_width rect) = true ∧
  measurable (clientY e) (rect_top rect) (rect_height rect) = true ∧
  in_unit (pos_x (getRelativePosition rect e)) = true ∧
  in_unit (pos_y (getRelativePosition rect e)) = true ∧
  pos_y (getRelativePosition rect e) = 0.25.
Proof.
  intros rect e.
  destruct (pointer_position_clamped rect e) as (_ & _ & _ & Hx & Hy & _ & Iy).
  split; [reflexivity |]. split; [reflexivity |].
  split; [apply Hx; reflexivity |]. split; [apply Hy; reflexivity |].
  rewrite Iy; reflexivity.
Defined.

(** On a canvas without extent the quotient of a pointer on its origin is
    [0 / 0], and the coordinate is NaN. *)
Example pointer_on_collapsed_canvas :
  let rect := {| rect_left := 10; rect_top := 20; rect_width := 0; rect_height := 0 |} in
  let p := getRelativePosition rect {| clientX := 10; clientY := 50 |} in
  PrimFloat.is_nan (pos_x p) = true ∧ pos_y p = 1.
Proof. vm_compute. auto. Qed.

(** X4. Whatever the user does, between two events the selection state is
    consistent: the reset button is enabled only while a zone is selected
    and no drag is under way; outside a drag a selected zone is at least
    2 % of the frame on both sides; and the drag origin and the zone are in
    normalized coordinates. *)
Theorem selection_stays_consistent (events : list ui_event) (s : Selection) :
  selection_consistent s → selection_consistent (fold_left dispatch events s).
Proof.
  revert s. induction events as [| ev events IH]; intros s H; [exact H |].
  cbn [fold_left]. apply IH. apply dispatch_consistent. exact H.
Qed.

Lemma selection_stays_consistent_witness :
  let rect := {| rect_left := 10; rect_top := 20; rect_width := 640; rect_height := 360 |} in
  let events := [ StartClick true;
                  MouseDown rect {| clientX := 100; clientY := 100 |};
                  MouseMove rect {| clientX := 420; clientY := 300 |};
                  MouseUp ] in
  selection_consistent initial_selection ∧
  selection_consistent (fold_left dispatch events initial_selection).
Proof.
  assert (H : selection_consistent initial_selection).
  { repeat split; cbn; discriminate. }
  split; [exact H |]. apply selection_stays_consistent. exact H.
Defined.

(** A drag across the canvas selects the zone between its two ends and
    enables the reset button; a click without a drag selects nothing. *)
Example drag_selects_zone :
  let rect := {| rect_left := 0; rect_top := 0; rect_width := 640; rect_height := 360 |} in
  let s := fold_left dispatch
             [ StartClick true;
               MouseDown rect {| clientX := 480; clientY := 90 |};
               MouseMove rect {| clientX := 160; clientY := 270 |};
               MouseUp ] initial_selection in
  selectedZone s =
    Some {| zone_x := 0.25; zone_y := 0.25; zone_width := 0.5; zone_height := 0.5 |} ∧
  resetZoneButton_disabled s = false ∧
  selectedZone (fold_left dispatch
                  [ MouseDown rect {| clientX := 300; clientY := 90 |}; MouseUp ] s) = None.
Proof. vm_compute. auto. Qed.

End SelectionTheorems.

(** ** Every value is plotted: totals of the waveform and parade maps *)

Section PlotTotals.
#[local] Open Scope Z_scope.

Lemma total_nonneg (map : list Z) : Forall (fun c => 0 <= c) map → 0 <= intensity_total map.
Proof. unfold intensity_total. induction 1 as [| c map Hc _ IH]; cbn; lia. Qed.

Lemma tally_incr (n : Z) (cells i : nat) (map : list Z) :
  tally n cells map → (i < cells)%nat → n < 2 ^ 32 - 1 →
  tally (n + 1) cells (alter incr_counter i map).
Proof.
  intros (Hl & Hp & Ht) Hi Hn. subst cells n. revert i Hi Hn.
  induction Hp as [| c map Hc Hp IH]; intros i Hi Hn; [cbn in Hi; lia |].
  pose proof (total_nonneg map Hp) as Hm. cbn [intensity_total foldr] in Hn.
  fold (intensity_total map) in Hn.
  destruct i as [| i].
  - change (alter incr_counter 0%nat (c :: map)) with (incr_counter c :: map).
    unfold incr_counter. rewrite Z.mod_small by lia.
    split; [reflexivity |]. split; [constructor; [lia | assumption] |]. cbn. lia.
  - change (alter incr_counter (S i) (c :: map)) with (c :: alter incr_counter i map).
    destruct (IH i) as (Hl' & Hp' & Ht'); [cbn in Hi; lia | lia |].
    split; [cbn; rewrite Hl'; reflexivity |].
    split; [constructor; assumption |]. cbn. fold (intensity_total (alter incr_counter i map)).
    rewrite Ht'. cbn. fold (intensity_total map). lia.
Qed.

Lemma tally_new (cells : nat) : tally 0 cells (new_intensity_map cells).
Proof.
  unfold new_intensity_map. split; [apply length_replicate |]. split.
  - apply Forall_replicate. lia.
  - induction cells as [| k IH]; [reflexivity |]. cbn. fold (intensity_total (replicate k 0)).
    rewrite IH. reflexivity.
Qed.

Lemma plot_column_tally (width height columnCount col : nat) (values : list float)
    (map : list Z) (n : Z) :
  1 <= Z.of_nat width < 2 ^ 32 → 1 <= Z.of_nat height < 2 ^ 32 →
  (col < columnCount)%nat → Z.of_nat columnCount <= 2 ^ 32 →
  Forall level values →
  tally n (width * height) map → n + Z.of_nat (length values) < 2 ^ 32 →
  tally (n + Z.of_nat (length values)) (width * height)
    (plot_column width height columnCount col values map).
Proof.
  intros HW HH Hcol Hcc Hv. revert map n.
  destruct (plot_x_range col columnCount width Hcol Hcc HW) as (x & Ex & Hx).
  unfold plot_column. rewrite Ex.
  induction Hv as [| v values (z & -> & Hz) _ IH]; intros map n Ht Hn.
  - cbn. replace (n + Z.of_nat 0) with n by lia. exact Ht.
  - cbn [fold_left length]. 
    destruct (plot_y_range height z HH Hz) as (y & Ey & Hy). rewrite Ey.
    rewrite plot_point_on_canvas by assumption.
    replace (n + Z.of_nat (S (length values))) with (n + 1 + Z.of_nat (length values)) by lia.
    apply IH; [| cbn [length] in Hn; lia].
    apply tally_incr; [assumption | | cbn [length] in Hn; lia].
    apply Nat2Z.inj_lt. rewrite Z2Nat.id by nia. rewrite Nat2Z.inj_mul. nia.
Qed.

Lemma values_count_snoc {A} (columns : list (list A)) (c : list A) :
  values_count (columns ++ [c]) = (values_count columns + length c)%nat.
Proof.
  unfold values_count. rewrite concat_app, length_app. cbn. rewrite app_nil_r. reflexivity.
Qed.

Lemma values_count_take {A} (columns : list (list A)) (k : nat) :
  (values_count (take k columns) <= values_count columns)%nat.
Proof.
  rewrite <- (take_drop k columns) at 2. unfold values_count.
  rewrite concat_app, length_app. lia.
Qed.

(** Every value of every column lands in the map: no mark is lost. *)
Lemma plot_columns_tally (width height : nat) (columns : list (list float)) :
  1 <= Z.of_nat width < 2 ^ 32 → 1 <= Z.of_nat height < 2 ^ 32 →
  Z.of_nat (length columns) <= 2 ^ 32 →
  Forall (Forall level) columns →
  Z.of_nat (values_count columns) < 2 ^ 32 →
  tally (Z.of_nat (values_count columns)) (width * height) (plot_columns width height columns).
Proof.
  intros HW HH Hcc Hv Hn. unfold plot_columns.
  set (f := fun (m : list Z) (col : nat) =>
              match columns !! col with
              | Some values => plot_column width height (length columns) col values m
              | None => m
              end).
  assert (K : ∀ k, (k <= length columns)%nat →
                tally (Z.of_nat (values_count (take k columns))) (width * height)
                  (fold_left f (seq 0 k) (new_intensity_map (width * height)))).
  { induction k as [| k IH]; intros Hk.
    - cbn. apply tally_new.
    - rewrite seq_S, fold_left_app. cbn [fold_left Nat.add]. unfold f at 1.
      destruct (lookup_lt_is_Some_2 columns k ltac:(lia)) as [values Ek]. rewrite Ek.
      rewrite (take_S_r _ _ _ Ek), values_count_snoc, Nat2Z.inj_add.
      pose proof (values_count_take columns (S k)) as Hle.
      rewrite (take_S_r _ _ _ Ek), values_count_snoc in Hle.
      apply plot_column_tally; try assumption; try lia.
      + rewrite Forall_forall in Hv. apply Hv. apply list_elem_of_In.
        eapply list_elem_of_lookup_2. exact Ek.
      + apply IH. lia. }
  specialize (K (length columns) (le_n _)). rewrite firstn_all in K. exact K.
Qed.

End PlotTotals.

Section PlotTotalsOfFrames.
#[local] Open Scope nat_scope.

Lemma columns_by_lookup {A} (P : A → Prop) (h : nat) (cols : list (list A)) :
  (∀ x, x < length cols → ∃ c, cols !! x = Some c ∧ length c = h ∧ Forall P c) →
  values_count cols = length cols * h ∧ Forall (Forall P) cols.
Proof.
  unfold values_count. induction cols as [| c cols IH]; intros H; [split; [reflexivity | constructor] |].
  destruct (H 0) as (c0 & E0 & L0 & F0); [cbn; lia |]. cbn in E0. injection E0 as <-.
  destruct IH as [IH1 IH2].
  { intros x Hx. destruct (H (S x)) as (c' & E' & L' & F'); [cbn; lia |]. eauto. }
  split; [| constructor; assumption].
  cbn [concat length]. rewrite length_app, IH1, L0. lia.
Qed.

Lemma level_of_luminance (data : list byte) (width height x y : nat) :
  4 * (width * height) ≤ length data → x < width → y < height →
  level (JS.to_float (luminance_at data width x y)).
Proof.
  intros Hlen Hx Hy.
  destruct (pixel_in_buffer data width height y x 0 Hlen Hy Hx) as [r Er]; [lia |].
  destruct (pixel_in_buffer data width height y x 1 Hlen Hy Hx) as [g Eg]; [lia |].
  destruct (pixel_in_buffer data width height y x 2 Hlen Hy Hx) as [b Eb]; [lia |].
  rewrite Nat.add_0_r in Er.
  destruct (pixel_luminance_range r g b) as (v & Ev & Hv).
  exists v. split; [| assumption].
  unfold luminance_at. rewrite Er, Eg, Eb.
  unfold pixel_luminance in Ev. rewrite Ev. reflexivity.
Qed.

Lemma level_of_channel (data : list byte) (width height k y x : nat) :
  4 * (width * height) ≤ length data → x < width → y < height → k < 4 →
  level (JS.to_number (channel_at data width k y x)).
Proof.
  intros Hlen Hx Hy Hk. unfold channel_at.
  destruct (pixel_in_buffer data width height y x k Hlen Hy Hx Hk) as [c ->].
  destruct (parade_value_in_range c) as (v & -> & Hv). exists v. split; [reflexivity | assumption].
Qed.

(** X5. The waveform renderer plots every pixel of the frame: on a canvas of
    any size from 1 x 1 upwards its intensity map has one cell per canvas
    pixel, and the marks in it add up to [width * height]. *)
Theorem waveform_plots_every_pixel (data : list byte) (width height W H : nat) :
  4 * (width * height) ≤ length data →
  (Z.of_nat width < 2 ^ 32)%Z → (Z.of_nat (width * height) < 2 ^ 32)%Z →
  (1 <= Z.of_nat W < 2 ^ 32)%Z → (1 <= Z.of_nat H < 2 ^ 32)%Z →
  ∃ d, calculateScopeData data width height = Normal d ∧
       length (waveform_intensity W H (luminance d)) = W * H ∧
       Forall (fun c => (0 <= c)%Z) (waveform_intensity W H (luminance d)) ∧
       intensity_total (waveform_intensity W H (luminance d)) = Z.of_nat (width * height).
Proof.
  intros Hlen Hw Hn HW HH.
  destruct (luminance_columns data width height) as (d & Hd & Hl & Hc).
  exists d. split; [assumption |]. unfold waveform_intensity.
  set (cols := List.map (List.map JS.to_float) (luminance d)).
  assert (Lc : length cols = width) by (unfold cols; rewrite length_map; exact Hl).
  destruct (columns_by_lookup level height cols) as [Hcount Hlevel].
  { rewrite Lc. intros x Hx. unfold cols.
    change (@List.map (list JS.integral) (list float)) with (@fmap list _ (list JS.integral) (list float)).
    rewrite list_lookup_fmap, (Hc x Hx). cbn [fmap option_fmap option_map].
    eexists. split; [reflexivity |]. split; [rewrite !length_map, length_seq; reflexivity |].
    apply List.Forall_forall. intros v Hv.
    apply in_map_iff in Hv as (l & <- & Hl').
    apply in_map_iff in Hl' as (y & <- & Hy). apply in_seq in Hy.
    apply level_of_luminance with (height := height); [assumption | assumption | lia]. }
  rewrite Lc in Hcount.
  destruct (plot_columns_tally W H cols) as (T1 & T2 & T3); try assumption.
  { rewrite Lc. lia. }
  { rewrite Hcount. assumption. }
  rewrite Hcount in T3. auto.
Qed.

Lemma waveform_plots_every_pixel_witness :
  ∃ d, calculateScopeData red_and_black_rows 4 4 = Normal d ∧
       length (waveform_intensity 8 6 (luminance d)) = 8 * 6 ∧
       Forall (fun c => (0 <= c)%Z) (waveform_intensity 8 6 (luminance d)) ∧
       intensity_total (waveform_intensity 8 6 (luminance d)) = Z.of_nat (4 * 4).
Proof.
  apply (waveform_plots_every_pixel red_and_black_rows 4 4 8 6);
    (vm_compute; (lia || (split; congruence))).
Defined.

End PlotTotalsOfFrames.

Section ParadeTotals.
#[local] Open Scope nat_scope.

Lemma parade_column_length (data : list byte) (width k c rows : nat) :
  length (parade_column data width k c rows) = 3 * rows.
Proof.
  unfold parade_column. induction rows as [| n IH]; [reflexivity |].
  rewrite seq_S, flat_map_app, length_app, IH. cbn. lia.
Qed.

Lemma parade_column_levels (data : list byte) (width height k c : nat) :
  4 * (width * height) ≤ length data → c < width / 3 → k < 3 →
  Forall level (List.map JS.to_number (parade_column data width k c height)).
Proof.
  intros Hlen Hc Hk. apply List.Forall_forall. intros v Hv.
  apply in_map_iff in Hv as (ch & <- & Hch). unfold parade_column in Hch.
  apply in_flat_map in Hch as (y & Hy & Hch). apply in_seq in Hy.
  apply in_map_iff in Hch as (x & <- & Hx).
  pose proof (Nat.div_mod_eq width 3) as Hdm.
  apply level_of_channel with (height := height); [assumption | | lia | lia].
  unfold parade_sources in Hx. cbn in Hx. lia.
Qed.

Lemma parade_channel_tally (data : list byte) (width height W H k : nat)
    (cols : list (list channel)) :
  4 * (width * height) ≤ length data → k < 3 →
  (Z.of_nat width < 2 ^ 32)%Z → (Z.of_nat (3 * (width / 3) * height) < 2 ^ 32)%Z →
  (3 <= Z.of_nat W < 2 ^ 32)%Z → (1 <= Z.of_nat H < 2 ^ 32)%Z →
  length cols = width / 3 →
  (∀ c, c < width / 3 → cols !! c = Some (parade_partial data width k c height 0)) →
  tally (Z.of_nat (3 * (width / 3) * height)) (W / 3 * H) (parade_intensity W H cols).
Proof.
  intros Hlen Hk Hw Hn HW HH Lc Hc. unfold parade_intensity.
  set (fcols := List.map (List.map JS.to_number) cols).
  assert (Lf : length fcols = width / 3) by (unfold fcols; rewrite length_map; exact Lc).
  destruct (columns_by_lookup level (3 * height) fcols) as [Hcount Hlevel].
  { rewrite Lf. intros c Hc'. unfold fcols.
    change (@List.map (list channel) (list float)) with (@fmap list _ (list channel) (list float)).
    rewrite list_lookup_fmap, (Hc c Hc'). cbn [fmap option_fmap option_map].
    unfold parade_partial. cbn [List.filter parade_sources Nat.ltb Nat.leb List.map].
    rewrite app_nil_r.
    eexists. split; [reflexivity |].
    split; [rewrite length_map; apply parade_column_length |].
    apply parade_column_levels; assumption. }
  rewrite Lf in Hcount.
  replace (3 * (width / 3) * height) with (width / 3 * (3 * height)) in * by lia.
  rewrite <- Hcount in *.
  pose proof (Nat.div_mod_eq W 3) as HdW. pose proof (Nat.mod_upper_bound W 3) as HmW.
  pose proof (Nat.div_mod_eq width 3) as Hdw.
  apply plot_columns_tally; try assumption; try lia.
Qed.

(** X6. The parade renderer plots every value of the parade columns: on a
    canvas at least 3 pixels wide each of the three channel maps holds
    [3 * floor(width / 3) * height] marks. *)
Theorem parade_plots_every_value (data : list byte) (width height W H : nat) :
  4 * (width * height) ≤ length data →
  (Z.of_nat width < 2 ^ 32)%Z → (Z.of_nat (3 * (width / 3) * height) < 2 ^ 32)%Z →
  (3 <= Z.of_nat W < 2 ^ 32)%Z → (1 <= Z.of_nat H < 2 ^ 32)%Z →
  ∃ d, calculateScopeData data width height = Normal d ∧
       intensity_total (parade_intensity W H (columns_r (rgbColumns d))) =
         Z.of_nat (3 * (width / 3) * height) ∧
       intensity_total (parade_intensity W H (columns_g (rgbColumns d))) =
         Z.of_nat (3 * (width / 3) * height) ∧
       intensity_total (parade_intensity W H (columns_b (rgbColumns d))) =
         Z.of_nat (3 * (width / 3) * height).
Proof.
  intros Hlen Hw Hn HW HH.
  destruct (parade_columns data width height) as (d & Hd & (_ & Lr & Lg & Lb) & Hinv).
  exists d. split; [assumption |].
  split; [| split].
  - apply (parade_channel_tally data width height W H 0); try assumption; try lia.
    intros c Hc. apply (Hinv c Hc).
  - apply (parade_channel_tally data width height W H 1); try assumption; try lia.
    intros c Hc. apply (Hinv c Hc).
  - apply (parade_channel_tally data width height W H 2); try assumption; try lia.
    intros c Hc. apply (Hinv c Hc).
Qed.

Lemma parade_plots_every_value_witness :
  ∃ d, calculateScopeData red_and_black_rows 4 4 = Normal d ∧
       intensity_total (parade_intensity 9 6 (columns_r (rgbColumns d))) =
         Z.of_nat (3 * (4 / 3) * 4) ∧
       intensity_total (parade_intensity 9 6 (columns_g (rgbColumns d))) =
         Z.of_nat (3 * (4 / 3) * 4) ∧
       intensity_total (parade_intensity 9 6 (columns_b (rgbColumns d))) =
         Z.of_nat (3 * (4 / 3) * 4).
Proof.
  apply (parade_plots_every_value red_and_black_rows 4 4 9 6);
    (vm_compute; (lia || (split; congruence) || congruence)).
Defined.

End ParadeTotals.

(** ** The vectorscope map cell by cell *)

Section VectorscopeCounts.
#[local] Open Scope Z_scope.

Lemma plot_samples_lookup (size : nat) (points : list color_point) (cx cy : nat) :
  (cx < size)%nat → (cy < size)%nat →
  ∀ (map : list Z) (c : Z),
    map !! (cy * size + cx)%nat = Some c → 0 <= c < 2 ^ 32 →
    fold_left (fun m point => plot_sample size point m) points map !! (cy * size + cx)%nat =
      Some ((c + Z.of_nat (length (List.filter (covers size cx cy) points))) mod 2 ^ 32).
Proof.
  intros Hx Hy. induction points as [| p points IH]; intros map c Hc Hr.
  - cbn. rewrite Z.add_0_r, Z.mod_small by lia. exact Hc.
  - cbn [fold_left List.filter].
    pose proof (stamp_lookup size (JS.Math_floor (vectorscope_x size p))
                  (JS.Math_floor (vectorscope_y size p)) map cx cy Hx Hy) as Hs.
    fold (covers size cx cy p) in Hs. fold (plot_sample size p map) in Hs.
    rewrite Hc in Hs. destruct (covers size cx cy p).
    + cbn [fmap option_fmap option_map] in Hs.
      rewrite (IH _ _ Hs); [| unfold incr_counter; apply Z.mod_pos_bound; lia].
      f_equal. unfold incr_counter. cbn [length]. rewrite Zplus_mod_idemp_l. f_equal. lia.
    + apply (IH _ _ Hs Hr).
Qed.

(** X7. After all samples are plotted, a cell of the vectorscope map holds the
    number of samples whose 3 x 3 stamp covers it (in 32-bit arithmetic). *)
Theorem vectorscope_cell_counts (size : nat) (points : list color_point) (cx cy : nat) :
  (cx < size)%nat → (cy < size)%nat →
  vectorscope_intensity size points !! (cy * size + cx)%nat =
    Some (Z.of_nat (length (List.filter (covers size cx cy) points)) mod 2 ^ 32).
Proof.
  intros Hx Hy. unfold vectorscope_intensity.
  rewrite (plot_samples_lookup size points cx cy Hx Hy _ 0); [reflexivity | | lia].
  unfold new_intensity_map. apply lookup_replicate_2. nia.
Qed.

Lemma vectorscope_cell_counts_witness :
  vectorscope_intensity 60
      [ {| cb := 128; cr := 128; point_r := None; point_g := None; point_b := None |} ]
    !! (30 * 60 + 31)%nat =
  Some (Z.of_nat (length (List.filter (covers 60 31 30)
          [ {| cb := 128; cr := 128; point_r := None; point_g := None; point_b := None |} ]))
        mod 2 ^ 32).
Proof. apply vectorscope_cell_counts; lia. Defined.

End VectorscopeCounts.

(** ** Sums and signs of doubles *)

Section Sums.
#[local] Open Scope R_scope.

Lemma SFadd_bounds (x y : spec_float) (lo hi : R) :
  nonneg_finite x → nonneg_finite y → fmt0 lo → fmt0 hi →
  lo <= SF2R x + SF2R y <= hi →
  nonneg_finite (SF64add x y) ∧ lo <= SF2R (SF64add x y) <= hi.
Proof.
  intros Hx Hy Hlo Hhi Hv.
  destruct Hx as [-> | (mx & ex & ->)], Hy as [-> | (my & ey & ->)];
    cbn [SF64add SFadd].
  - split; [left; reflexivity | cbn in *; lra].
  - split; [right; eauto | cbn [SF2R] in *; lra].
  - split; [right; eauto | cbn [SF2R] in *; lra].
  - cbn [SF2R cond_Zopp] in Hv.
    pose proof (shl_align_spec mx ex (Z.min ex ey)) as [Hx1 Hx2].
    pose proof (shl_align_spec my ey (Z.min ex ey)) as [Hy1 Hy2].
    assert (Ex : snd (shl_align mx ex (Z.min ex ey)) = Z.min ex ey).
    { unfold shl_align. destruct (Z.min ex ey - ex)%Z eqn:E; cbn [snd]; lia. }
    assert (Ey : snd (shl_align my ey (Z.min ex ey)) = Z.min ex ey).
    { unfold shl_align. destruct (Z.min ex ey - ey)%Z eqn:E; cbn [snd]; lia. }
    rewrite Ex in Hx2. rewrite Ey in Hy2.
    cbn [cond_Zopp]. rewrite Hx2, Hy2.
    set (ez := Z.min ex ey) in *.
    assert (Hvx : F2R (Zpos mx) ex = F2R (Zpos mx * 2 ^ (ex - ez)) ez).
    { rewrite F2R_shift by lia. f_equal. lia. }
    assert (Hvy : F2R (Zpos my) ey = F2R (Zpos my * 2 ^ (ey - ez)) ez).
    { rewrite F2R_shift by lia. f_equal. lia. }
    assert (Hd : F2R (Zpos mx * 2 ^ (ex - ez) + Zpos my * 2 ^ (ey - ez)) ez
                 = F2R (Zpos mx) ex + F2R (Zpos my) ey).
    { rewrite Hvx, Hvy. unfold F2R. rewrite plus_IZR. ring. }
    apply binary_normalize_bounds; try assumption.
    + assert (0 < 2 ^ (ex - ez))%Z by (apply Z.pow_pos_nonneg; lia).
      assert (0 < 2 ^ (ey - ez))%Z by (apply Z.pow_pos_nonneg; lia). nia.
    + rewrite Hd. assumption.
Qed.

Lemma add_bounds (x y : float) (lo hi : R) :
  good x → good y → fmt0 lo → fmt0 hi →
  lo <= val x + val y <= hi →
  good (x + y) ∧ lo <= val (x + y) <= hi.
Proof.
  unfold good, val. intros. rewrite FloatAxioms.add_spec. apply SFadd_bounds; assumption.
Qed.

Lemma SFmul_opp_l (x y : spec_float) :
  nonneg_finite x → nonneg_finite y → SF64mul (SFopp x) y = SFopp (SF64mul x y).
Proof.
  intros [-> | (mx & ex & ->)] [-> | (my & ey & ->)]; cbn [SF64mul SFmul SFopp negb xorb];
    try reflexivity.
  apply (binary_round_aux_opp false).
Qed.

Lemma SFadd_opp_r (x y : spec_float) :
  nonneg_finite x → nonneg_finite y → SF64add x (SFopp y) = SF64sub x y.
Proof.
  intros [-> | (mx & ex & ->)] [-> | (my & ey & ->)]; cbn [SF64add SFadd SF64sub SFsub SFopp negb];
    reflexivity.
Qed.

Lemma SFsub_opp_r (x y : spec_float) :
  nonneg_finite x → nonneg_finite y → SF64sub x (SFopp y) = SF64add x y.
Proof.
  intros [-> | (mx & ex & ->)] [-> | (my & ey & ->)]; cbn [SF64add SFadd SF64sub SFsub SFopp negb];
    reflexivity.
Qed.

Lemma mul_opp_l (u y : float) : good u → good y → (- u * y)%float = (- (u * y))%float.
Proof.
  intros gu gy. apply Prim2SF_inj.
  rewrite FloatAxioms.mul_spec, !FloatAxioms.opp_spec, FloatAxioms.mul_spec.
  apply SFmul_opp_l; assumption.
Qed.

Lemma add_opp_r (x y : float) : good x → good y → (x + - y)%float = (x - y)%float.
Proof.
  intros gx gy. apply Prim2SF_inj.
  rewrite FloatAxioms.add_spec, FloatAxioms.opp_spec, FloatAxioms.sub_spec.
  apply SFadd_opp_r; assumption.
Qed.

Lemma sub_opp_r (x y : float) : good x → good y → (x - - y)%float = (x + y)%float.
Proof.
  intros gx gy. apply Prim2SF_inj.
  rewrite FloatAxioms.sub_spec, FloatAxioms.opp_spec, FloatAxioms.add_spec.
  apply SFsub_opp_r; assumption.
Qed.

Lemma opp_involutive (t : float) : (- - t)%float = t.
Proof.
  apply Prim2SF_inj. rewrite !FloatAxioms.opp_spec.
  destruct (Prim2SF t) as [[] | [] | | [] m e]; reflexivity.
Qed.

End Sums.

(** ** The chroma of every 8-bit pixel, by enumeration *)

Section ChromaRange.
#[local] Open Scope float_scope.

Lemma all_chroma_offsets_in_range :
  forallb3 chroma_offsets_in_range byte_values = true.
Proof. vm_cast_no_check (eq_refl true). Qed.

Lemma pixel_chroma_offsets (r g b : byte) :
  offset_in_range ((pixel_cb (Some r) (Some g) (Some b) - 128) / 128) = true ∧
  offset_in_range ((pixel_cr (Some r) (Some g) (Some b) - 128) / 128) = true.
Proof.
  pose proof (forallb3_sound _ _ all_chroma_offsets_in_range
                (JS.to_number (Some r)) (JS.to_number (Some g)) (JS.to_number (Some b))
                (byte_value_listed r) (byte_value_listed g) (byte_value_listed b)) as H.
  apply andb_prop in H. exact H.
Qed.

Lemma all_chroma_in_range : forallb3 chroma_in_range byte_values = true.
Proof. vm_cast_no_check (eq_refl true). Qed.

(** X8. The chroma of every 8-bit pixel lies between 0.5 and 255.5, the
    extremes being reached by pure blue (or red) and by its complement;
    the sample read from a missing pixel has no chroma (NaN). *)
Theorem chroma_range (r g b : byte) :
  (0.5 <=? pixel_cb (Some r) (Some g) (Some b)) = true ∧
  (pixel_cb (Some r) (Some g) (Some b) <=? 255.5) = true ∧
  (0.5 <=? pixel_cr (Some r) (Some g) (Some b)) = true ∧
  (pixel_cr (Some r) (Some g) (Some b) <=? 255.5) = true ∧
  pixel_cb (Some "000"%byte) (Some "000"%byte) (Some "255"%byte) = 255.5 ∧
  pixel_cb (Some "255"%byte) (Some "255"%byte) (Some "000"%byte) = 0.5 ∧
  pixel_cr (Some "255"%byte) (Some "000"%byte) (Some "000"%byte) = 255.5 ∧
  pixel_cr (Some "000"%byte) (Some "255"%byte) (Some "255"%byte) = 0.5 ∧
  PrimFloat.is_nan (pixel_cb None None None) = true ∧
  PrimFloat.is_nan (pixel_cr None None None) = true.
Proof.
  pose proof (forallb3_sound _ _ all_chroma_in_range
                (JS.to_number (Some r)) (JS.to_number (Some g)) (JS.to_number (Some b))
                (byte_value_listed r) (byte_value_listed g) (byte_value_listed b)) as H.
  unfold chroma_in_range in H.
  apply andb_prop in H as [H H4]. apply andb_prop in H as [H H3].
  apply andb_prop in H as [H1 H2].
  repeat split; try assumption; vm_compute; reflexivity.
Qed.

End ChromaRange.

(** ** Vectorscope samples stay inside the graticule *)

Section SamplePositions.
#[local] Open Scope R_scope.

Lemma literal_2 : good 2 ∧ val 2 = 2.
Proof. change 2%float with (JS.number 2). apply number_val. lia. Qed.

Lemma literal_20 : good 20 ∧ val 20 = 20.
Proof. change 20%float with (JS.number 20). apply number_val. lia. Qed.

Lemma fmt0_half (n : Z) : (0 <= n < 2 ^ 53)%Z → fmt0 (F2R n (-1)).
Proof.
  intros Hn. destruct (Z.eq_dec n 0%Z) as [-> | Hne].
  - left. unfold F2R. lra.
  - right. exists n, (-1)%Z. split; [reflexivity | lia].
Qed.

Lemma F2R_half (n : Z) : F2R n (-1) = IZR n / 2.
Proof. unfold F2R. replace (bpow (-1)) with (/ 2) by (unfold bpow; simpl; lra). lra. Qed.

(** The centre and the radius of a vectorscope of side [size] *)
Lemma center_radius (size : Z) :
  (40 <= size < 2 ^ 32)%Z →
  (good (JS.number size / 2) ∧ val (JS.number size / 2) = IZR size / 2) ∧
  (good (JS.number size / 2 - 20) ∧ val (JS.number size / 2 - 20) = IZR size / 2 - 20).
Proof.
  intros Hs. destruct (number_val size) as [gs vs]; [lia |].
  destruct literal_2 as [g2 v2]. destruct literal_20 as [g20 v20].
  assert (Hsr : 40 <= IZR size) by (apply IZR_le; lia).
  destruct (div_bounds (JS.number size) 2 (F2R size (-1)) (F2R size (-1))) as [gc vc];
    try assumption.
  { rewrite v2. lra. }
  { right. rewrite vs, v2. assert (bpow (-1020) <= bpow 0) by (apply bpow_le; lia).
    rewrite bpow_0 in *. lra. }
  { apply fmt0_half. lia. } { apply fmt0_half. lia. }
  { rewrite vs, v2, F2R_half. lra. }
  rewrite F2R_half in vc.
  assert (vc' : val (JS.number size / 2) = IZR size / 2) by lra.
  split; [split; assumption |].
  destruct (sub_bounds (JS.number size / 2) 20 (F2R (size - 40) (-1)) (F2R (size - 40) (-1)))
    as [gr vr]; try assumption.
  { apply fmt0_half. lia. } { apply fmt0_half. lia. }
  { rewrite v20, vc'. lra. }
  { rewrite v20, vc', F2R_half, minus_IZR. lra. }
  rewrite F2R_half, minus_IZR in vr. split; [assumption | lra].
Qed.

(** A sample with an offset between 0 and 1 is plotted between the centre
    and the far edge of the graticule; mirrored, between the near edge and
    the centre. *)
Lemma offset_position (size : Z) (t : float) :
  (40 <= size < 2 ^ 32)%Z → good t → val t <= 1 →
  (∃ f, JS.Math_floor (JS.number size / 2 + t * (JS.number size / 2 - 20)) = JS.Int f ∧
        (20 <= f <= size - 20)%Z) ∧
  (∃ f, JS.Math_floor (JS.number size / 2 - t * (JS.number size / 2 - 20)) = JS.Int f ∧
        (20 <= f <= size - 20)%Z).
Proof.
  intros Hs gt vt. destruct (center_radius size Hs) as [[gc vc] [gr vr]].
  assert (Hsr : 40 <= IZR size) by (apply IZR_le; lia).
  pose proof (val_nonneg t gt) as Ht0.
  destruct (mul_bounds t (JS.number size / 2 - 20) 0 (F2R (size - 40) (-1))) as [gp vp];
    try assumption.
  { left. reflexivity. } { apply fmt0_half. lia. }
  { rewrite vr, F2R_half, minus_IZR. split; nra. }
  rewrite F2R_half, minus_IZR in vp.
  split.
  - destruct (add_bounds (JS.number size / 2) (t * (JS.number size / 2 - 20))
                (IZR 20) (IZR (size - 20))) as [gx vx]; try assumption.
    { apply fmt0_IZR. lia. } { apply fmt0_IZR. lia. }
    { rewrite vc, minus_IZR. lra. }
    apply floor_range; [assumption | lra | lra].
  - destruct (sub_bounds (JS.number size / 2) (t * (JS.number size / 2 - 20))
                (IZR 20) (IZR (size - 20))) as [gy vy]; try assumption.
    { apply fmt0_IZR. lia. } { apply fmt0_IZR. lia. }
    { rewrite vc. lra. }
    { rewrite vc, minus_IZR. lra. }
    apply floor_range; [assumption | lra | lra].
Qed.

Lemma offset_position_signed (size : Z) (t : float) :
  (40 <= size < 2 ^ 32)%Z → offset_in_range t = true →
  (∃ f, JS.Math_floor (JS.number size / 2 + t * (JS.number size / 2 - 20)) = JS.Int f ∧
        (20 <= f <= size - 20)%Z) ∧
  (∃ f, JS.Math_floor (JS.number size / 2 - t * (JS.number size / 2 - 20)) = JS.Int f ∧
        (20 <= f <= size - 20)%Z).
Proof.
  intros Hs Ht. destruct (center_radius size Hs) as [[gc vc] [gr vr]].
  destruct literal_0 as [g0 v0].
  assert (Hneg : ∀ u, good u → val u <= 1 → t = (- u)%float →
            (∃ f, JS.Math_floor (JS.number size / 2 + t * (JS.number size / 2 - 20)) = JS.Int f ∧
                  (20 <= f <= size - 20)%Z) ∧
            (∃ f, JS.Math_floor (JS.number size / 2 - t * (JS.number size / 2 - 20)) = JS.Int f ∧
                  (20 <= f <= size - 20)%Z)).
  { intros u gu vu ->. destruct (offset_position size u Hs gu vu) as [Hx Hy].
    assert (gp : good (u * (JS.number size / 2 - 20))).
    { pose proof (val_nonneg u gu).
      destruct (mul_bounds u (JS.number size / 2 - 20) 0 (F2R (size - 40) (-1))) as [gp _];
        try assumption.
      { left. reflexivity. } { apply fmt0_half. lia. }
      { rewrite vr, F2R_half, minus_IZR.
        assert (40 <= IZR size) by (apply IZR_le; lia). split; nra. } }
    rewrite (mul_opp_l u _ gu gr), (add_opp_r _ _ gc gp), (sub_opp_r _ _ gc gp).
    split; assumption. }
  unfold offset_in_range in Ht. apply orb_prop in Ht as [Ht | Ht].
  - destruct (in_unit_cases t Ht) as [-> | [gt vt]].
    + apply (Hneg 0%float); [assumption | lra | reflexivity].
    + apply offset_position; assumption.
  - destruct (in_unit_cases _ Ht) as [E | [gu vu]].
    + assert (t = 0%float) as ->.
      { rewrite <- (opp_involutive t), E. reflexivity. }
      apply offset_position; [assumption | assumption | lra].
    + apply (Hneg (- t)%float); [assumption | assumption |].
      symmetry. apply opp_involutive.
Qed.

End SamplePositions.

Section VectorscopeTotals.
#[local] Open Scope Z_scope.

Lemma sample_position (size : nat) (p : color_point) :
  40 <= Z.of_nat size < 2 ^ 32 → pixel_sample p →
  ∃ fx fy,
    JS.Math_floor (vectorscope_x size p) = JS.Int fx ∧
    JS.Math_floor (vectorscope_y size p) = JS.Int fy ∧
    20 <= fx <= Z.of_nat size - 20 ∧ 20 <= fy <= Z.of_nat size - 20.
Proof.
  intros Hs (r & g & b & Ecb & Ecr).
  destruct (pixel_chroma_offsets r g b) as [Hb Hr]. rewrite <- Ecb in Hb. rewrite <- Ecr in Hr.
  destruct (offset_position_signed _ _ Hs Hb) as [(fx & Ex & Hx) _].
  destruct (offset_position_signed _ _ Hs Hr) as [_ (fy & Ey & Hy)].
  exists fx, fy. unfold vectorscope_x, vectorscope_y. auto.
Qed.

Lemma stamp_tally (size : nat) (fx fy n : Z) (map : list Z) :
  20 <= fx <= Z.of_nat size - 20 → 20 <= fy <= Z.of_nat size - 20 →
  tally n (size * size) map → n + 9 < 2 ^ 32 →
  tally (n + 9) (size * size) (stamp size (JS.Int fx) (JS.Int fy) map).
Proof.
  intros Hx Hy Ht Hn. unfold stamp. cbn [fold_left JS.plus].
  rewrite !plot_point_on_canvas by lia.
  replace (n + 9) with (n + 1 + 1 + 1 + 1 + 1 + 1 + 1 + 1 + 1) by lia.
  assert (K : ∀ dx dy, -1 <= dx <= 1 → -1 <= dy <= 1 →
                (Z.to_nat ((fy + dy) * Z.of_nat size + (fx + dx)) < size * size)%nat).
  { intros dx dy Hdx Hdy. apply Nat2Z.inj_lt. rewrite Z2Nat.id by nia.
    rewrite Nat2Z.inj_mul. nia. }
  repeat (apply tally_incr; [| apply K; lia | lia]). exact Ht.
Qed.

Lemma plot_samples_tally (size : nat) (points : list color_point) :
  40 <= Z.of_nat size < 2 ^ 32 → Forall pixel_sample points →
  ∀ (map : list Z) (n : Z),
    tally n (size * size) map → n + 9 * Z.of_nat (length points) < 2 ^ 32 →
    tally (n + 9 * Z.of_nat (length points)) (size * size)
      (fold_left (fun m point => plot_sample size point m) points map).
Proof.
  intros Hs Hp. induction Hp as [| p points Hp _ IH]; intros map n Ht Hn.
  - cbn. replace (n + 9 * Z.of_nat 0) with n by lia. exact Ht.
  - cbn [fold_left length] in *.
    destruct (sample_position size p Hs Hp) as (fx & fy & Ex & Ey & Hx & Hy).
    unfold plot_sample at 2. rewrite Ex, Ey.
    replace (n + 9 * Z.of_nat (S (length points)))
      with (n + 9 + 9 * Z.of_nat (length points)) by lia.
    apply IH; [| lia]. apply stamp_tally; try assumption. lia.
Qed.

Lemma colorPoints_sampled (data : list byte) (width height : nat) :
  ∃ d, calculateScopeData data width height = Normal d ∧
       colorPoints d =
         List.map (sample_at data)
           (sampled_indices (vectorSampleRate width height) (width * height)).
Proof.
  destruct (calculateScopeData_invariant
              (fun y x st =>
                 colorPoints st =
                   List.map (sample_at data)
                     (sampled_indices (vectorSampleRate width height) (y * width + x)%nat))
              data width height) as (d & Hd & _ & HP).
  - reflexivity.
  - intros y x st Hy Hx _ HP. unfold pixel_update. cbn [colorPoints].
    replace (y * width + S x)%nat with (S (y * width + x)) by lia.
    rewrite sampled_indices_S, List.map_app, <- HP.
    destruct ((y * width + x) mod vectorSampleRate width height =? 0)%nat.
    + reflexivity.
    + simpl. rewrite app_nil_r. reflexivity.
  - intros y st Hy HP. rewrite HP. do 2 f_equal. lia.
  - exists d. split; [assumption |]. rewrite HP. do 2 f_equal. lia.
Qed.

Lemma sample_budget_bound (n : nat) :
  Z.of_nat (length (sampled_indices (Nat.max 1 (n / sample_budget)) n)) <= 100000.
Proof.
  set (s := Nat.max 1 (n / sample_budget)).
  pose proof (sampled_indices_count s n ltac:(unfold s; lia)) as [_ Hu].
  apply Nat2Z.inj_le in Hu. rewrite Nat2Z.inj_add, Nat2Z.inj_div in Hu.
  assert (Hs : Z.of_nat s = Z.max 1 (Z.of_nat n / 50000)).
  { unfold s, sample_budget. rewrite Nat2Z.inj_max, Nat2Z.inj_div, Z2Nat.id by lia. reflexivity. }
  rewrite Hs in Hu.
  assert (Z.of_nat n / Z.max 1 (Z.of_nat n / 50000) < 100000); [| lia].
  pose proof (Z.div_mod (Z.of_nat n) 50000 ltac:(lia)) as Hdm.
  pose proof (Z.mod_pos_bound (Z.of_nat n) 50000 ltac:(lia)) as Hm.
  apply Z.div_lt_upper_bound; lia.
Qed.

End VectorscopeTotals.

Section VectorscopeTheorems.
#[local] Open Scope Z_scope.

(** X9. However large the frame, the analyzer hands the vectorscope at most
    100000 samples. *)
Theorem sample_count_bounded (data : list byte) (width height : nat) :
  ∃ d, calculateScopeData data width height = Normal d ∧
       Z.of_nat (length (colorPoints d)) <= 100000.
Proof.
  destruct (colorPoints_sampled data width height) as (d & Hd & Hp).
  exists d. split; [assumption |]. rewrite Hp, length_map. apply sample_budget_bound.
Qed.

(** X10. On a vectorscope canvas of side 40 or more, the sample of any 8-bit
    pixel is plotted at least 20 cells away from every edge, inside the
    square that bounds the graticule circle: its 3 x 3 stamp is never
    clipped. *)
Theorem sample_plotted_inside_graticule (size : nat) (r g b : byte) :
  40 <= Z.of_nat size < 2 ^ 32 →
  let p := {| cb := pixel_cb (Some r) (Some g) (Some b);
              cr := pixel_cr (Some r) (Some g) (Some b);
              point_r := Some r; point_g := Some g; point_b := Some b |} in
  ∃ fx fy,
    JS.Math_floor (vectorscope_x size p) = JS.Int fx ∧
    JS.Math_floor (vectorscope_y size p) = JS.Int fy ∧
    20 <= fx <= Z.of_nat size - 20 ∧ 20 <= fy <= Z.of_nat size - 20.
Proof.
  intros Hs p. apply sample_position; [assumption |].
  exists r, g, b. split; reflexivity.
Qed.

Lemma sample_plotted_inside_graticule_witness :
  let p := {| cb := pixel_cb (Some "255"%byte) (Some "000"%byte) (Some "000"%byte);
              cr := pixel_cr (Some "255"%byte) (Some "000"%byte) (Some "000"%byte);
              point_r := Some "255"%byte; point_g := Some "000"%byte;
              point_b := Some "000"%byte |} in
  ∃ fx fy,
    JS.Math_floor (vectorscope_x 300 p) = JS.Int fx ∧
    JS.Math_floor (vectorscope_y 300 p) = JS.Int fy ∧
    20 <= fx <= Z.of_nat 300 - 20 ∧ 20 <= fy <= Z.of_nat 300 - 20.
Proof.
  apply (sample_plotted_inside_graticule 300 "255"%byte "000"%byte "000"%byte). simpl. lia.
Defined.

Lemma samples_of_frame (data : list byte) (width height : nat) :
  (4 * (width * height) ≤ length data)%nat →
  Forall pixel_sample
    (List.map (sample_at data)
       (sampled_indices (vectorSampleRate width height) (width * height))).
Proof.
  intros Hlen. apply List.Forall_forall. intros p Hp.
  apply in_map_iff in Hp as (i & <- & Hi). unfold sampled_indices in Hi.
  apply filter_In in Hi as [Hi _]. apply in_seq in Hi.
  destruct (lookup_lt_is_Some_2 data (i * 4)) as [r Er]; [lia |].
  destruct (lookup_lt_is_Some_2 data (i * 4 + 1)) as [g Eg]; [lia |].
  destruct (lookup_lt_is_Some_2 data (i * 4 + 2)) as [b Eb]; [lia |].
  exists r, g, b. unfold sample_at. cbn [cb cr]. rewrite Er, Eg, Eb. split; reflexivity.
Qed.

(** X11. The vectorscope renderer plots every sample of a frame in full: on a
    canvas of side 40 or more each sample adds nine marks to the map, so
    the marks add up to nine times the number of samples. *)
Theorem vectorscope_plots_every_sample (data : list byte) (width height size : nat) :
  (4 * (width * height) ≤ length data)%nat →
  40 <= Z.of_nat size < 2 ^ 32 →
  ∃ d, calculateScopeData data width height = Normal d ∧
       length (vectorscope_intensity size (colorPoints d)) = (size * size)%nat ∧
       intensity_total (vectorscope_intensity size (colorPoints d)) =
         9 * Z.of_nat (length (colorPoints d)).
Proof.
  intros Hlen Hs.
  destruct (colorPoints_sampled data width height) as (d & Hd & Hp).
  exists d. split; [assumption |].
  pose proof (samples_of_frame data width height Hlen) as Hf. rewrite <- Hp in Hf.
  assert (Hc : Z.of_nat (length (colorPoints d)) <= 100000).
  { rewrite Hp, length_map. apply sample_budget_bound. }
  destruct (plot_samples_tally size (colorPoints d) Hs Hf
              (new_intensity_map (size * size)) 0 (tally_new _)) as (T1 & _ & T3); [lia |].
  split; [exact T1 | exact T3].
Qed.

Lemma vectorscope_plots_every_sample_witness :
  ∃ d, calculateScopeData red_and_black_rows 4 4 = Normal d ∧
       length (vectorscope_intensity 40 (colorPoints d)) = (40 * 40)%nat ∧
       intensity_total (vectorscope_intensity 40 (colorPoints d)) =
         9 * Z.of_nat (length (colorPoints d)).
Proof.
  apply (vectorscope_plots_every_sample red_and_black_rows 4 4 40);
    (vm_compute; (lia || (split; congruence))).
Defined.

Lemma gray_chroma (v : byte) :
  pixel_cb (Some v) (Some v) (Some v) = 128%float ∧
  pixel_cr (Some v) (Some v) (Some v) = 128%float.
Proof. destruct v; vm_compute; split; reflexivity. Qed.

(** X12. A pixel without colour, whatever its brightness, is plotted at the
    centre of the vectorscope. *)
Theorem gray_plotted_at_centre (size : nat) (v : byte) :
  40 <= Z.of_nat size < 2 ^ 32 →
  let p := {| cb := pixel_cb (Some v) (Some v) (Some v);
              cr := pixel_cr (Some v) (Some v) (Some v);
              point_r := Some v; point_g := Some v; point_b := Some v |} in
  JS.Math_floor (vectorscope_x size p) = JS.Int (Z.of_nat size / 2) ∧
  JS.Math_floor (vectorscope_y size p) = JS.Int (Z.of_nat size / 2).
Proof.
  intros Hs p. destruct (gray_chroma v) as [Eb Er].
  destruct (center_radius _ Hs) as [[gc vc] [gr vr]].
  unfold vectorscope_x, vectorscope_y, p. cbn [cb cr]. rewrite Eb, Er.
  change ((128 - 128) / 128)%float with 0%float.
  set (center := (JS.number (Z.of_nat size) / 2)%float) in *.
  set (radius := (center - 20)%float) in *.
  assert (E0 : (0 * radius)%float = 0%float).
  { apply Prim2SF_inj. rewrite FloatAxioms.mul_spec.
    replace (Prim2SF 0) with (S754_zero false) by (vm_compute; reflexivity).
    destruct gr as [-> | (m & e & ->)]; reflexivity. }
  assert (E1 : (center + 0)%float = center).
  { apply Prim2SF_inj. rewrite FloatAxioms.add_spec.
    replace (Prim2SF 0) with (S754_zero false) by (vm_compute; reflexivity).
    destruct gc as [-> | (m & e & ->)]; reflexivity. }
  assert (E2 : (center - 0)%float = center).
  { apply Prim2SF_inj. rewrite FloatAxioms.sub_spec.
    replace (Prim2SF 0) with (S754_zero false) by (vm_compute; reflexivity).
    destruct gc as [-> | (m & e & ->)]; reflexivity. }
  rewrite E0, E1, E2.
  destruct (floor_bounds center gc) as (f & Ef & Hf1 & Hf2).
  rewrite Ef. assert (f = Z.of_nat size / 2) as ->; [| split; reflexivity].
  rewrite vc in Hf1, Hf2.
  assert (2 * f <= Z.of_nat size).
  { apply le_IZR. rewrite mult_IZR. lra. }
  assert (Z.of_nat size < 2 * f + 2).
  { apply lt_IZR. rewrite plus_IZR, mult_IZR. lra. }
  apply Z.div_unique with (r := Z.of_nat size - 2 * f); lia.
Qed.

Lemma gray_plotted_at_centre_witness :
  let p := {| cb := pixel_cb (Some "128"%byte) (Some "128"%byte) (Some "128"%byte);
              cr := pixel_cr (Some "128"%byte) (Some "128"%byte) (Some "128"%byte);
              point_r := Some "128"%byte; point_g := Some "128"%byte;
              point_b := Some "128"%byte |} in
  JS.Math_floor (vectorscope_x 300 p) = JS.Int (Z.of_nat 300 / 2) ∧
  JS.Math_floor (vectorscope_y 300 p) = JS.Int (Z.of_nat 300 / 2).
Proof. apply (gray_plotted_at_centre 300 "128"%byte). simpl. lia. Defined.

End VectorscopeTheorems.

(** ** The histogram renderer: bars *)

Section HistogramBars.
#[local] Open Scope R_scope.

Lemma max_neg_infinity (x : float) : good x → Math.max PrimFloat.neg_infinity x = x.
Proof.
  intros gx. unfold Math.max. change (PrimFloat.is_nan PrimFloat.neg_infinity) with false.
  rewrite (good_not_nan x gx). cbn [orb].
  rewrite !FloatAxioms.ltb_spec.
  replace (Prim2SF PrimFloat.neg_infinity) with (S754_infinity true) by (vm_compute; reflexivity).
  destruct gx as [-> | (m & e & ->)]; reflexivity.
Qed.

Lemma max_numbers (a b : Z) :
  (0 <= a < 2 ^ 53)%Z → (0 <= b < 2 ^ 53)%Z →
  Math.max (JS.number a) (JS.number b) = JS.number (Z.max a b).
Proof.
  intros Ha Hb. destruct (number_val a Ha) as [ga va]. destruct (number_val b Hb) as [gb vb].
  destruct (number_val (Z.max a b)) as [gm vm]; [lia |].
  destruct (Math_max_val _ _ ga gb) as [gx vx].
  apply val_inj; try assumption. rewrite vx, vm, va, vb.
  destruct (Z.max_spec a b) as [[Hlt ->] | [Hle ->]].
  - apply Rmax_right. apply IZR_le. lia.
  - apply Rmax_left. apply IZR_le. lia.
Qed.

(** The counters of a channel whose buckets add up to [n] *)
Lemma slots_total_lookup (a : list slot) (n i : nat) (s : slot) :
  slots_total a = Some n → a !! i = Some s → ∃ c, s = Count c ∧ (c <= n)%nat.
Proof.
  revert n i. induction a as [| s0 a IH]; intros n i Ht Hi; [discriminate |].
  cbn in Ht. destruct s0 as [c0 | |]; try discriminate.
  destruct (slots_total a) as [t |] eqn:Et; [| discriminate]. injection Ht as <-.
  destruct i as [| i]; cbn in Hi.
  - injection Hi as <-. exists c0. split; [reflexivity | lia].
  - destruct (IH t i eq_refl Hi) as (c & -> & Hc). exists c. split; [reflexivity | lia].
Qed.

Lemma fold_max_counts (a : list slot) (n : nat) (k : Z) :
  slots_total a = Some n → (Z.of_nat n < 2 ^ 53)%Z → (0 <= k < 2 ^ 53)%Z →
  ∃ M, fold_left Math.max (List.map (fun s => slot_number (Some s)) a) (JS.number k)
         = JS.number M ∧
       (k <= M < 2 ^ 53)%Z ∧
       (∀ i c, a !! i = Some (Count c) → Z.of_nat c <= M)%Z ∧
       (M = k ∨ ∃ i, a !! i = Some (Count (Z.to_nat M))).
Proof.
  revert n k. induction a as [| s a IH]; intros n k Ht Hn Hk.
  - exists k. cbn. split; [reflexivity |]. split; [lia |]. split; [| left; reflexivity].
    intros i c Hi. destruct i; discriminate.
  - cbn in Ht. destruct s as [c0 | |]; try discriminate.
    destruct (slots_total a) as [t |] eqn:Et; [| discriminate]. injection Ht as <-.
    cbn [List.map fold_left slot_number].
    rewrite max_numbers by lia.
    destruct (IH t (Z.max k (Z.of_nat c0)) eq_refl) as (M & EM & HM & Hall & Hex); [lia | lia |].
    exists M. split; [exact EM |]. split; [lia |]. split.
    + intros i c Hi. destruct i as [| i]; cbn in Hi.
      * injection Hi as <-. lia.
      * apply (Hall i c Hi).
    + destruct Hex as [-> | [i Hi]].
      * destruct (Z.max_spec k (Z.of_nat c0)) as [[_ E] | [_ E]]; rewrite E.
        -- right. exists 0%nat. cbn. rewrite Nat2Z.id. reflexivity.
        -- left. reflexivity.
      * right. exists (S i). exact Hi.
Qed.

Lemma max_of_channel (a : list slot) (n : nat) :
  full_channel n a → (Z.of_nat n < 2 ^ 53)%Z →
  ∃ M, Math_max_of (List.map (fun s => slot_number (Some s)) a) = JS.number M ∧
       (0 <= M < 2 ^ 53)%Z ∧
       (∀ i c, a !! i = Some (Count c) → Z.of_nat c <= M)%Z ∧
       ∃ i, a !! i = Some (Count (Z.to_nat M)).
Proof.
  intros [Hl Ht] Hn. unfold Math_max_of.
  destruct a as [| s a]; [discriminate |].
  cbn in Ht. destruct s as [c0 | |]; try discriminate.
  destruct (slots_total a) as [t |] eqn:Et; [| discriminate]. injection Ht as <-.
  cbn [List.map fold_left slot_number].
  destruct (number_val (Z.of_nat c0)) as [g0 _]; [lia |].
  rewrite (max_neg_infinity _ g0).
  destruct (fold_max_counts a t (Z.of_nat c0) Et) as (M & EM & HM & Hall & Hex); [lia | lia |].
  exists M. split; [exact EM |]. split; [lia |]. split.
  - intros i c Hi. destruct i as [| i]; cbn in Hi.
    + injection Hi as <-. lia.
    + apply (Hall i c Hi).
  - destruct Hex as [-> | [i Hi]].
    + exists 0%nat. cbn. rewrite Nat2Z.id. reflexivity.
    + exists (S i). exact Hi.
Qed.

End HistogramBars.

Section HistogramBarFacts.
#[local] Open Scope R_scope.

Lemma fmt0_F2R (n e : Z) : (0 <= n < 2 ^ 53)%Z → (-1074 <= e <= 900)%Z → fmt0 (F2R n e).
Proof.
  intros Hn He. destruct (Z.eq_dec n 0%Z) as [-> | Hne].
  - left. unfold F2R. lra.
  - right. exists n, e. split; [reflexivity | lia].
Qed.

Lemma literal_256 : good 256 ∧ val 256 = 256.
Proof. change 256%float with (JS.number 256). apply number_val. lia. Qed.

(** The height and the top of the bar of a bucket that holds [c] of at
    most [M] *)
Lemma bar_height_bounds (c M H : Z) :
  (0 <= c <= M)%Z → (1 <= M < 2 ^ 53)%Z → (20 <= H < 2 ^ 32)%Z →
  let barHeight := (JS.number c / JS.number M * (JS.number H - 20))%float in
  (good barHeight ∧ 0 <= val barHeight <= IZR H - 20) ∧
  (good (JS.number H - barHeight) ∧ 20 <= val (JS.number H - barHeight) <= IZR H) ∧
  (c = M → barHeight = (JS.number H - 20)%float) ∧
  (c = 0%Z → barHeight = 0%float).
Proof.
  intros Hc HM HH barHeight. unfold barHeight.
  destruct (number_val c) as [gc vc]; [lia |].
  destruct (number_val M) as [gM vM]; [lia |].
  destruct (number_val H) as [gH vH]; [lia |].
  destruct literal_20 as [g20 v20]. destruct literal_0 as [g0 v0].
  assert (HMr : 1 <= IZR M) by (apply IZR_le; lia).
  assert (Hcr : 0 <= IZR c <= IZR M) by (split; apply IZR_le; lia).
  assert (HHr : 20 <= IZR H) by (apply IZR_le; lia).
  assert (Hpre : val (JS.number c) = 0 ∨ bpow (-1020) <= val (JS.number c) / val (JS.number M)).
  { destruct (Z.eq_dec c 0%Z) as [-> | Hne]; [left; rewrite vc; reflexivity | right].
    rewrite vc, vM. assert (1 <= IZR c) by (apply IZR_le; lia).
    assert (IZR M <= bpow 53) by (rewrite bpow_IZR by lia; apply IZR_le; lia).
    assert (bpow (-1020) <= bpow (-53)) by (apply bpow_le; lia).
    assert (Hb : bpow (-53) * bpow 53 = 1).
    { rewrite <- bpow_add. change (-53 + 53)%Z with 0%Z. apply bpow_0. }
    pose proof (bpow_pos (-1020)).
    assert (bpow (-1020) * IZR M <= bpow (-53) * bpow 53)
      by (apply Rmult_le_compat; lra).
    apply Rdiv_le_lower; [lra |]. lra. }
  destruct (sub_bounds (JS.number H) 20 (IZR (H - 20)) (IZR (H - 20))) as [gh vh];
    try assumption.
  { apply fmt0_IZR. lia. } { apply fmt0_IZR. lia. }
  { rewrite vH, v20. lra. } { rewrite vH, v20, minus_IZR. lra. }
  rewrite minus_IZR in vh.
  assert (vh' : val (JS.number H - 20) = IZR H - 20) by lra.
  destruct (div_bounds (JS.number c) (JS.number M) 0 1) as [gq vq]; try assumption.
  { rewrite vM. lra. } { left. reflexivity. }
  { change 1 with (IZR 1). apply fmt0_IZR. lia. }
  { rewrite vc, vM. split; [apply Rdiv_le_lower | apply Rdiv_le_upper]; lra. }
  destruct (mul_bounds (JS.number c / JS.number M) (JS.number H - 20) 0 (IZR (H - 20)))
    as [gb vb]; try assumption.
  { left. reflexivity. } { apply fmt0_IZR. lia. }
  { rewrite vh', minus_IZR. split; nra. }
  rewrite minus_IZR in vb.
  split; [split; assumption |]. split; [| split].
  - destruct (sub_bounds (JS.number H) (JS.number c / JS.number M * (JS.number H - 20))
                (IZR 20) (IZR H)) as [gy vy]; try assumption.
    { apply fmt0_IZR. lia. } { apply fmt0_IZR. lia. }
    { rewrite vH. lra. } { rewrite vH. lra. }
    split; assumption.
  - intros ->.
    destruct (div_bounds (JS.number M) (JS.number M) 1 1) as [gq1 vq1]; try assumption.
    { rewrite vM. lra. }
    { change 1 with (IZR 1). apply fmt0_IZR. lia. }
    { change 1 with (IZR 1). apply fmt0_IZR. lia. }
    { rewrite vM. split; [apply Rdiv_le_lower | apply Rdiv_le_upper]; lra. }
    destruct (mul_bounds (JS.number M / JS.number M) (JS.number H - 20)
                (IZR (H - 20)) (IZR (H - 20))) as [gb1 vb1]; try assumption.
    { apply fmt0_IZR. lia. } { apply fmt0_IZR. lia. }
    { rewrite vh', minus_IZR. nra. }
    rewrite minus_IZR in vb1. apply val_inj; [assumption | assumption | lra].
  - intros ->.
    destruct (div_bounds (JS.number 0) (JS.number M) 0 0) as [gq0 vq0]; try assumption.
    { rewrite vM. lra. } { left. reflexivity. } { left. reflexivity. }
    { rewrite vc, vM. unfold Rdiv. lra. }
    destruct (mul_bounds (JS.number 0 / JS.number M) (JS.number H - 20) 0 0) as [gb0 vb0];
      try assumption.
    { left. reflexivity. } { left. reflexivity. } { nra. }
    apply val_inj; [assumption | assumption | lra].
Qed.

End HistogramBarFacts.

Section HistogramTheorems.
#[local] Open Scope Z_scope.

Lemma histogram_of_frame (data : list byte) (width height : nat) :
  (4 * (width * height) ≤ length data)%nat →
  ∃ d, calculateScopeData data width height = Normal d ∧
       histogram_counts (width * height) (histogram d).
Proof.
  intros Hlen.
  destruct (calculateScopeData_invariant
              (fun y x st => histogram_counts (y * width + x) (histogram st))
              data width height) as (d & Hd & _ & HP).
  - unfold histogram_counts, full_channel, initial_scope_data.
    cbn [histogram hist_r hist_g hist_b hist_lum].
    rewrite length_replicate, slots_total_replicate. auto.
  - intros y x st Hy Hx _ HP.
    replace (y * width + S x)%nat with (S (y * width + x)) by lia.
    eapply pixel_update_histogram; eassumption.
  - intros y st _ HP. replace (S y * width + 0)%nat with (y * width + width)%nat by lia.
    assumption.
  - exists d. split; [assumption |].
    rewrite Nat.add_0_r, (Nat.mul_comm height width) in HP. exact HP.
Qed.

Lemma slots_total_positive (a : list slot) (n : nat) :
  slots_total a = Some n → (1 <= n)%nat → ∃ i c, a !! i = Some (Count c) ∧ (1 <= c)%nat.
Proof.
  revert n. induction a as [| s a IH]; intros n Ht Hn; [cbn in Ht; injection Ht as <-; lia |].
  cbn in Ht. destruct s as [c0 | |]; try discriminate.
  destruct (slots_total a) as [t |] eqn:Et; [| discriminate]. injection Ht as <-.
  destruct c0 as [| c0].
  - destruct (IH t eq_refl) as (i & c & Hi & Hc); [lia |]. exists (S i), c. auto.
  - exists 0%nat, (S c0). split; [reflexivity | lia].
Qed.

Lemma histogram_maxVal_spec (h : histogram_data) (n : nat) :
  histogram_counts n h → Z.of_nat n < 2 ^ 53 →
  ∃ M, histogram_maxVal h = JS.number M ∧ 1 <= M < 2 ^ 53 ∧
       (∀ i c, hist_r h !! i = Some (Count c) → Z.of_nat c <= M) ∧
       (∀ i c, hist_g h !! i = Some (Count c) → Z.of_nat c <= M) ∧
       (∀ i c, hist_b h !! i = Some (Count c) → Z.of_nat c <= M) ∧
       ((1 <= n)%nat →
        ∃ i, hist_r h !! i = Some (Count (Z.to_nat M)) ∨
             hist_g h !! i = Some (Count (Z.to_nat M)) ∨
             hist_b h !! i = Some (Count (Z.to_nat M))).
Proof.
  intros (Hr & Hg & Hb & _) Hn. unfold histogram_maxVal.
  destruct (max_of_channel _ _ Hr Hn) as (MR & -> & HMR & HallR & iR & HiR).
  destruct (max_of_channel _ _ Hg Hn) as (MG & -> & HMG & HallG & iG & HiG).
  destruct (max_of_channel _ _ Hb Hn) as (MB & -> & HMB & HallB & iB & HiB).
  unfold Math_max_of. cbn [fold_left].
  destruct (number_val MR) as [gR _]; [lia |].
  rewrite (max_neg_infinity _ gR).
  change 1%float with (JS.number 1). rewrite !max_numbers by lia.
  exists (Z.max (Z.max (Z.max MR MG) MB) 1). split; [reflexivity |].
  split; [lia |]. split; [| split; [| split]].
  - intros i c Hi. specialize (HallR i c Hi). lia.
  - intros i c Hi. specialize (HallG i c Hi). lia.
  - intros i c Hi. specialize (HallB i c Hi). lia.
  - intros Hn1. destruct Hr as [_ Hr].
    destruct (slots_total_positive _ _ Hr Hn1) as (i & c & Hi & Hc).
    specialize (HallR i c Hi).
    destruct (Z.max_spec (Z.max (Z.max MR MG) MB) 1) as [[? _] | [_ ->]]; [lia |].
    destruct (Z.max_spec (Z.max MR MG) MB) as [[_ ->] | [_ ->]]; [exists iB; auto |].
    destruct (Z.max_spec MR MG) as [[_ ->] | [_ ->]]; [exists iG; auto | exists iR; auto].
Qed.

Lemma channel_bars_fit (a : list slot) (n width height : nat) (M : Z) :
  full_channel n a → 1 <= M < 2 ^ 53 → 20 <= Z.of_nat height < 2 ^ 32 →
  (∀ i c, a !! i = Some (Count c) → Z.of_nat c <= M) →
  ∀ bar, In bar (channel_bars width height (JS.number M) a) →
    (0 <=? fill_height bar)%float = true ∧
    (fill_height bar <=? JS.number (Z.of_nat height) - 20)%float = true ∧
    (20 <=? fill_y bar)%float = true ∧
    (fill_y bar <=? JS.number (Z.of_nat height))%float = true.
Proof.
  intros [Hl Ht] HM HH Hall bar Hbar. unfold channel_bars in Hbar.
  apply in_map_iff in Hbar as (i & <- & Hi). apply in_seq in Hi.
  destruct (lookup_lt_is_Some_2 a i) as [s Es]; [lia |].
  destruct (slots_total_lookup a n i s Ht Es) as (c & -> & Hc).
  specialize (Hall i c Es). cbn [fill_height fill_y]. rewrite Es. cbn [slot_number].
  destruct (bar_height_bounds (Z.of_nat c) M (Z.of_nat height)) as ([gb vb] & [gy vy] & _);
    [lia | lia | lia |].
  destruct literal_0 as [g0 v0]. destruct literal_20 as [g20 v20].
  destruct (number_val (Z.of_nat height)) as [gH vH]; [lia |].
  assert (HHr : (20 <= IZR (Z.of_nat height))%R) by (apply IZR_le; lia).
  destruct (sub_bounds (JS.number (Z.of_nat height)) 20
              (IZR (Z.of_nat height - 20)) (IZR (Z.of_nat height - 20))) as [gh vh];
    try assumption.
  { apply fmt0_IZR. lia. } { apply fmt0_IZR. lia. }
  { rewrite vH, v20. lra. } { rewrite vH, v20, minus_IZR. lra. }
  rewrite minus_IZR in vh.
  repeat split; apply leb_val; try assumption; lra.
Qed.

Lemma channel_bars_full (a : list slot) (width height i : nat) (M : Z) :
  1 <= M < 2 ^ 53 → 20 <= Z.of_nat height < 2 ^ 32 →
  a !! i = Some (Count (Z.to_nat M)) → (i < 256)%nat →
  ∃ bar, In bar (channel_bars width height (JS.number M) a) ∧
         fill_height bar = (JS.number (Z.of_nat height) - 20)%float.
Proof.
  intros HM HH Hi Hlt. eexists. split.
  - unfold channel_bars. apply in_map_iff. exists i. split; [reflexivity |].
    apply in_seq. lia.
  - cbn [fill_height]. rewrite Hi. cbn [slot_number]. rewrite Z2Nat.id by lia.
    destruct (bar_height_bounds M M (Z.of_nat height)) as (_ & _ & Hfull & _);
      [lia | lia | lia |].
    apply Hfull. reflexivity.
Qed.

(** X13. The histogram renderer draws 768 bars, 256 for each of red, green and
    blue; no bar is taller than the canvas less 20 pixels, so the top 20
    rows stay free, none is below the canvas, and in a frame with at least
    one pixel the fullest bucket of the three channels is drawn at exactly
    that height. *)
Theorem histogram_bars_fit (data : list byte) (width height W H : nat) :
  (4 * (width * height) ≤ length data)%nat →
  Z.of_nat (width * height) < 2 ^ 53 → 20 <= Z.of_nat H < 2 ^ 32 →
  ∃ d, calculateScopeData data width height = Normal d ∧
       length (histogram_bars W H (histogram d)) = 768%nat ∧
       (∀ bar, In bar (histogram_bars W H (histogram d)) →
          (0 <=? fill_height bar)%float = true ∧
          (fill_height bar <=? JS.number (Z.of_nat H) - 20)%float = true ∧
          (20 <=? fill_y bar)%float = true ∧
          (fill_y bar <=? JS.number (Z.of_nat H))%float = true) ∧
       ((1 <= width * height)%nat →
        ∃ bar, In bar (histogram_bars W H (histogram d)) ∧
               fill_height bar = (JS.number (Z.of_nat H) - 20)%float).
Proof.
  intros Hlen Hn HH. destruct (histogram_of_frame data width height Hlen) as (d & Hd & Hc).
  exists d. split; [assumption |].
  destruct (histogram_maxVal_spec _ _ Hc Hn) as (M & EM & HM & Hr & Hg & Hb & Hfull).
  pose proof Hc as (Cr & Cg & Cb & _).
  unfold histogram_bars. rewrite EM. split; [| split].
  - rewrite !length_app. unfold channel_bars. rewrite !length_map, !length_seq. reflexivity.
  - intros bar Hbar. apply in_app_or in Hbar as [Hbar | Hbar];
      [| apply in_app_or in Hbar as [Hbar | Hbar]].
    + apply (channel_bars_fit _ _ _ _ _ Cr HM HH Hr bar Hbar).
    + apply (channel_bars_fit _ _ _ _ _ Cg HM HH Hg bar Hbar).
    + apply (channel_bars_fit _ _ _ _ _ Cb HM HH Hb bar Hbar).
  - intros Hn1. destruct (Hfull Hn1) as (i & [Hi | [Hi | Hi]]).
    + destruct (channel_bars_full (hist_r (histogram d)) W H i M HM HH Hi) as (bar & Hin & E).
      { apply lookup_lt_Some in Hi. destruct Cr as [E _]. rewrite E in Hi. exact Hi. }
      exists bar. split; [| exact E]. apply in_or_app. left. exact Hin.
    + destruct (channel_bars_full (hist_g (histogram d)) W H i M HM HH Hi) as (bar & Hin & E).
      { apply lookup_lt_Some in Hi. destruct Cg as [E _]. rewrite E in Hi. exact Hi. }
      exists bar. split; [| exact E]. apply in_or_app. right. apply in_or_app. left. exact Hin.
    + destruct (channel_bars_full (hist_b (histogram d)) W H i M HM HH Hi) as (bar & Hin & E).
      { apply lookup_lt_Some in Hi. destruct Cb as [E _]. rewrite E in Hi. exact Hi. }
      exists bar. split; [| exact E]. apply in_or_app. right. apply in_or_app. right. exact Hin.
Qed.

Lemma histogram_bars_fit_witness :
  ∃ d, calculateScopeData red_and_black_rows 4 4 = Normal d ∧
       length (histogram_bars 512 200 (histogram d)) = 768%nat ∧
       (∀ bar, In bar (histogram_bars 512 200 (histogram d)) →
          (0 <=? fill_height bar)%float = true ∧
          (fill_height bar <=? JS.number (Z.of_nat 200) - 20)%float = true ∧
          (20 <=? fill_y bar)%float = true ∧
          (fill_y bar <=? JS.number (Z.of_nat 200))%float = true) ∧
       ((1 <= 4 * 4)%nat →
        ∃ bar, In bar (histogram_bars 512 200 (histogram d)) ∧
               fill_height bar = (JS.number (Z.of_nat 200) - 20)%float).
Proof.
  apply (histogram_bars_fit red_and_black_rows 4 4 512 200);
    (vm_compute; (lia || (split; congruence) || congruence)).
Defined.

End HistogramTheorems.

Section HistogramTiling.
#[local] Open Scope R_scope.

Lemma F2R_256 (n : Z) : F2R n (-8) = IZR n / 256.
Proof.
  unfold F2R. replace (bpow (-8)) with (/ 256) by (unfold bpow; simpl; lra). lra.
Qed.

(** The left edge of bar [i] on a canvas [w] pixels wide *)
Lemma bar_left_edge (w i : Z) :
  (0 <= w < 2 ^ 32)%Z → (0 <= i <= 256)%Z →
  good (JS.number w / 256) ∧ val (JS.number w / 256) = IZR w / 256 ∧
  good (JS.number i * (JS.number w / 256)) ∧
  val (JS.number i * (JS.number w / 256)) = IZR (i * w) / 256.
Proof.
  intros Hw Hi. destruct (number_val w) as [gw vw]; [lia |].
  destruct (number_val i) as [gi vi]; [lia |]. destruct literal_256 as [g256 v256].
  assert (Hwr : 0 <= IZR w) by (apply IZR_le; lia).
  assert (Hir : 0 <= IZR i) by (apply IZR_le; lia).
  destruct (div_bounds (JS.number w) 256 (F2R w (-8)) (F2R w (-8))) as [gq vq];
    try assumption.
  { rewrite v256. lra. }
  { destruct (Z.eq_dec w 0%Z) as [-> | Hne]; [left; rewrite vw; reflexivity | right].
    rewrite vw, v256. assert (1 <= IZR w) by (apply IZR_le; lia).
    assert (bpow (-1020) <= bpow (-8)) by (apply bpow_le; lia).
    replace (bpow (-8)) with (/ 256) in * by (unfold bpow; simpl; lra).
    apply Rdiv_le_lower; lra. }
  { apply fmt0_F2R; lia. } { apply fmt0_F2R; lia. }
  { rewrite vw, v256, F2R_256. lra. }
  rewrite F2R_256 in vq.
  assert (vq' : val (JS.number w / 256) = IZR w / 256) by lra.
  destruct (mul_bounds (JS.number i) (JS.number w / 256) (F2R (i * w) (-8)) (F2R (i * w) (-8)))
    as [gx vx]; try assumption.
  { apply fmt0_F2R; nia. } { apply fmt0_F2R; nia. }
  { rewrite vi, vq', F2R_256, mult_IZR. lra. }
  rewrite F2R_256 in vx. repeat split; try assumption; lra.
Qed.

Lemma bar_edges_adjacent (w i : Z) :
  (0 <= w < 2 ^ 32)%Z → (0 <= i < 256)%Z →
  (JS.number i * (JS.number w / 256) + JS.number w / 256)%float =
    (JS.number (i + 1) * (JS.number w / 256))%float.
Proof.
  intros Hw Hi.
  destruct (bar_left_edge w i Hw ltac:(lia)) as (gq & vq & gx & vx).
  destruct (bar_left_edge w (i + 1) Hw ltac:(lia)) as (_ & _ & gx' & vx').
  destruct (add_bounds (JS.number i * (JS.number w / 256)) (JS.number w / 256)
              (F2R ((i + 1) * w) (-8)) (F2R ((i + 1) * w) (-8))) as [gs vs]; try assumption.
  { apply fmt0_F2R; nia. } { apply fmt0_F2R; nia. }
  { rewrite vx, vq, F2R_256, !mult_IZR, plus_IZR. lra. }
  rewrite F2R_256 in vs. apply val_inj; [assumption | assumption | lra].
Qed.

End HistogramTiling.

Section HistogramTilingTheorem.
#[local] Open Scope Z_scope.

(** X14. The 256 bars of a channel tile the canvas from its left edge to its
    right edge: the first bar starts at 0, each bar ends exactly where the
    next one starts, and the last one ends at the canvas width. *)
Theorem histogram_bars_tile_canvas (width height : nat) (maxVal : float) (a : list slot)
    (i : nat) (bar : fill_rect) :
  Z.of_nat width < 2 ^ 32 →
  channel_bars width height maxVal a !! i = Some bar →
  (i = 0%nat → fill_x bar = 0%float) ∧
  (fill_x bar + fill_width bar)%float =
    match channel_bars width height maxVal a !! S i with
    | Some next => fill_x next
    | None => JS.number (Z.of_nat width)
    end.
Proof.
  intros Hw Hbar. unfold channel_bars in *.
  assert (Hi : (i < 256)%nat).
  { apply lookup_lt_Some in Hbar. rewrite length_map, length_seq in Hbar. exact Hbar. }
  change (@List.map nat fill_rect) with (@fmap list _ nat fill_rect) in *.
  rewrite list_lookup_fmap, lookup_seq_lt in Hbar by assumption.
  cbn [fmap option_fmap option_map] in Hbar. injection Hbar as <-. cbn [fill_x fill_width].
  rewrite list_lookup_fmap. split.
  - intros ->. change (Z.of_nat 0) with 0.
    destruct (bar_left_edge (Z.of_nat width) 0) as (_ & _ & gx & vx); [lia | lia |].
    destruct literal_0 as [g0 v0]. apply val_inj; [assumption | assumption |].
    rewrite vx, v0, Z.mul_0_l. unfold Rdiv. lra.
  - rewrite (bar_edges_adjacent (Z.of_nat width) (Z.of_nat i)) by lia.
    destruct (Nat.lt_ge_cases (S i) 256) as [Hlt | Hge].
    + rewrite lookup_seq_lt by assumption. cbn [fmap option_fmap option_map fill_x].
      rewrite Nat.add_0_l, Nat2Z.inj_succ. reflexivity.
    + rewrite lookup_seq_ge by lia. cbn [fmap option_fmap option_map].
      assert (i = 255%nat) as -> by lia.
      destruct (bar_left_edge (Z.of_nat width) 256) as (_ & _ & gx & vx); [lia | lia |].
      destruct (number_val (Z.of_nat width)) as [gw vw]; [lia |].
      apply val_inj; [assumption | assumption |].
      change (Z.of_nat 255 + 1) with 256. rewrite vx, vw, mult_IZR. lra.
Qed.

Lemma histogram_bars_tile_canvas_witness :
  let bars := channel_bars 512 200 1 (replicate 256 (Count 0)) in
  ∃ bar, bars !! 255%nat = Some bar ∧
    (255%nat = 0%nat → fill_x bar = 0%float) ∧
    (fill_x bar + fill_width bar)%float =
      match bars !! 256%nat with
      | Some next => fill_x next
      | None => JS.number (Z.of_nat 512)
      end.
Proof.
  eexists. split; [reflexivity |].
  apply (histogram_bars_tile_canvas 512 200 1 (replicate 256 (Count 0)) 255);
    [simpl; lia | reflexivity].
Defined.

End HistogramTilingTheorem.

(** ** Saturated cells *)

Section Saturation.
#[local] Open Scope R_scope.

Lemma literal_8 : good 8 ∧ val 8 = 8.
Proof. change 8%float with (JS.number 8). apply number_val. lia. Qed.

(** A cell that holds at least an eighth of the largest counter gets the
    full intensity, with the gain 8 and with the gain 10. *)
Lemma cell_intensity_saturated (gain : float) (M count : Z) :
  good gain → 8 <= val gain <= 10 → fmt0 (val gain) →
  (0 < count <= M)%Z → (M < 2 ^ 32)%Z → (M <= 8 * count)%Z →
  cell_intensity gain M count = 1%float.
Proof.
  intros gg vg fg Hc HM H8. unfold cell_intensity.
  destruct (number_val count) as [gc vc]; [lia |].
  destruct (number_val M) as [gM vM]; [lia |].
  destruct literal_1 as [g1 v1].
  assert (Hcr : 1 <= IZR count) by (apply IZR_le; lia).
  assert (HMr : IZR count <= IZR M) by (apply IZR_le; lia).
  assert (H8r : IZR M <= 8 * IZR count).
  { change 8 with (IZR 8). rewrite <- mult_IZR. apply IZR_le. lia. }
  assert (E8 : F2R 1 (-3) = / 8).
  { unfold F2R. replace (bpow (-3)) with (/ 8) by (unfold bpow; simpl; lra). lra. }
  destruct (div_bounds (JS.number count) (JS.number M) (F2R 1 (-3)) 1) as [gq vq];
    try assumption.
  { rewrite vM. lra. }
  { right. rewrite vc, vM. assert (bpow (-1020) <= bpow (-3)) by (apply bpow_le; lia).
    replace (bpow (-3)) with (/ 8) in * by (unfold bpow; simpl; lra).
    pose proof (bpow_pos (-1020)). apply Rdiv_le_lower; [lra | nra]. }
  { apply fmt0_F2R; lia. }
  { change 1 with (IZR 1). apply fmt0_IZR. lia. }
  { rewrite vc, vM, E8. split; [apply Rdiv_le_lower | apply Rdiv_le_upper]; lra. }
  rewrite E8 in vq.
  destruct (mul_bounds (JS.number count / JS.number M) gain 1 (val gain)) as [gp vp];
    try assumption.
  { change 1 with (IZR 1). apply fmt0_IZR. lia. }
  { split; nra. }
  destruct (Math_min_val 1 (JS.number count / JS.number M * gain)%float g1 gp) as [gm vm].
  apply val_inj; [assumption | assumption |].
  rewrite vm, v1. apply Rmin_left. lra.
Qed.

Lemma max_intensity_bounds (map : list Z) :
  Forall (fun c => (0 <= c < 2 ^ 32)%Z) map →
  (1 <= max_intensity map < 2 ^ 32)%Z ∧ ∀ c, In c map → (c <= max_intensity map)%Z.
Proof.
  intros Hm. rewrite max_intensity_spec.
  destruct (foldr_max_bounds map 1) as [H1 H2]. split; [| exact H2]. split; [exact H1 |].
  clear H1 H2. induction Hm as [| c map Hc _ IH]; cbn; lia.
Qed.

End Saturation.

Section SaturationTheorem.
#[local] Open Scope Z_scope.

(** X15. In every scope a cell that holds at least an eighth of the largest
    counter of its map is painted in the full colour of the scope. *)
Theorem bright_cells_saturate (map pixels : list Z) (i : nat) (count : Z) :
  length pixels = (4 * length map)%nat →
  Forall (fun c => 0 <= c < 2 ^ 32) map →
  map !! i = Some count → 0 < count → max_intensity map <= 8 * count →
  take 4 (drop (4 * i) (waveform_pixels map pixels)) = [150; 255; 100; 255] ∧
  take 4 (drop (4 * i) (parade_pixels 0 map pixels)) = [255; 80; 80; 255] ∧
  take 4 (drop (4 * i) (parade_pixels 1 map pixels)) = [80; 255; 80; 255] ∧
  take 4 (drop (4 * i) (parade_pixels 2 map pixels)) = [100; 120; 255; 255] ∧
  take 4 (drop (4 * i) (vectorscope_pixels map pixels)) = [100; 255; 200; 255].
Proof.
  intros Hlen Hm Hi Hc H8.
  destruct (max_intensity_bounds map Hm) as [HM Hall].
  assert (HcM : count <= max_intensity map).
  { apply Hall. apply list_elem_of_In. eapply list_elem_of_lookup_2. exact Hi. }
  assert (E8 : cell_intensity 8 (max_intensity map) count = 1%float).
  { destruct literal_8 as [g8 v8].
    apply cell_intensity_saturated; try assumption; try lia.
    - rewrite v8. lra.
    - rewrite v8. change 8%R with (IZR 8). apply fmt0_IZR. lia. }
  assert (E10 : cell_intensity 10 (max_intensity map) count = 1%float).
  { destruct literal_10 as [g10 v10].
    apply cell_intensity_saturated; try assumption; try lia.
    - rewrite v10. lra.
    - rewrite v10. change 10%R with (IZR 10). apply fmt0_IZR. lia. }
  unfold waveform_pixels, parade_pixels, vectorscope_pixels.
  rewrite !(colorize_cell _ _ _ _ _ _ _ _ Hlen Hi).
  replace (0 <? count) with true by (symmetry; apply Z.ltb_lt; lia).
  unfold cell_pixel. rewrite E8, E10. repeat split; reflexivity.
Qed.

Lemma bright_cells_saturate_witness :
  take 4 (drop (4 * 1) (waveform_pixels [16; 2] [0; 0; 0; 255; 0; 0; 0; 255])) =
    [150; 255; 100; 255] ∧
  take 4 (drop (4 * 1) (parade_pixels 0 [16; 2] [0; 0; 0; 255; 0; 0; 0; 255])) =
    [255; 80; 80; 255] ∧
  take 4 (drop (4 * 1) (parade_pixels 1 [16; 2] [0; 0; 0; 255; 0; 0; 0; 255])) =
    [80; 255; 80; 255] ∧
  take 4 (drop (4 * 1) (parade_pixels 2 [16; 2] [0; 0; 0; 255; 0; 0; 0; 255])) =
    [100; 120; 255; 255] ∧
  take 4 (drop (4 * 1) (vectorscope_pixels [16; 2] [0; 0; 0; 255; 0; 0; 0; 255])) =
    [100; 255; 200; 255].
Proof.
  apply (bright_cells_saturate [16; 2] [0; 0; 0; 255; 0; 0; 0; 255] 1 2);
    [reflexivity | repeat constructor; lia | reflexivity | lia | vm_compute; congruence].
Defined.

End SaturationTheorem.

(** ** Values that were never read *)

Section UnreadValues.
#[local] Open Scope Z_scope.

Lemma mul_nan_l (x : float) : (PrimFloat.nan * x)%float = PrimFloat.nan.
Proof. apply Prim2SF_inj. rewrite FloatAxioms.mul_spec. reflexivity. Qed.

Lemma sub_nan_r_eq (x : float) : (x - PrimFloat.nan)%float = PrimFloat.nan.
Proof.
  apply Prim2SF_inj. rewrite FloatAxioms.sub_spec.
  change (Prim2SF PrimFloat.nan) with S754_nan. destruct (Prim2SF x); reflexivity.
Qed.

Lemma add_nan_r_eq (x : float) : (x + PrimFloat.nan)%float = PrimFloat.nan.
Proof.
  apply Prim2SF_inj. rewrite FloatAxioms.add_spec.
  change (Prim2SF PrimFloat.nan) with S754_nan. destruct (Prim2SF x); reflexivity.
Qed.

(** A value that was never read (NaN) has no row. *)
Lemma plot_y_nan (height : nat) : plot_y height PrimFloat.nan = JS.NaN.
Proof.
  unfold plot_y. change (PrimFloat.nan / 255)%float with PrimFloat.nan.
  rewrite mul_nan_l, sub_nan_r_eq. reflexivity.
Qed.

Lemma plot_point_nan_row (width height : nat) (x : JS.integral) (map : list Z) :
  plot_point width height x JS.NaN map = map.
Proof. unfold plot_point. cbn [JS.ge andb]. reflexivity. Qed.

Lemma plot_columns_nan (width height : nat) (columns : list (list float)) :
  Forall (Forall (fun v => v = PrimFloat.nan)) columns →
  plot_columns width height columns = new_intensity_map (width * height).
Proof.
  intros Hc. unfold plot_columns.
  set (f := fun (m : list Z) (col : nat) =>
              match columns !! col with
              | Some values => plot_column width height (length columns) col values m
              | None => m
              end).
  assert (E : ∀ map col, f map col = map).
  { intros map col. unfold f.
    destruct (columns !! col) as [values |] eqn:Ec; [| reflexivity].
    assert (Hv : Forall (fun v => v = PrimFloat.nan) values).
    { rewrite List.Forall_forall in Hc. apply Hc. apply list_elem_of_In.
      eapply list_elem_of_lookup_2. exact Ec. }
    unfold plot_column. clear Ec. revert map.
    induction Hv as [| v values -> _ IHv]; intros map; [reflexivity |].
    cbn [fold_left]. rewrite plot_y_nan, plot_point_nan_row. apply IHv. }
  generalize (new_intensity_map (width * height)) as map.
  induction (seq 0 (length columns)) as [| col cols IH]; intros map; [reflexivity |].
  cbn [fold_left]. rewrite E. apply IH.
Qed.

Lemma plot_point_nan_column (width height : nat) (y : JS.integral) (map : list Z) :
  plot_point width height JS.NaN y map = map.
Proof.
  unfold plot_point. cbn [JS.ge]. rewrite andb_false_r. reflexivity.
Qed.

Lemma stamp_nan (size : nat) (py : JS.integral) (map : list Z) :
  stamp size JS.NaN py map = map.
Proof.
  unfold stamp. cbn [fold_left JS.plus]. rewrite !plot_point_nan_column. reflexivity.
Qed.

Lemma plot_sample_nan (size : nat) (p : color_point) (map : list Z) :
  cb p = PrimFloat.nan → plot_sample size p map = map.
Proof.
  intros E. unfold plot_sample, vectorscope_x. rewrite E.
  change ((PrimFloat.nan - 128) / 128)%float with PrimFloat.nan.
  rewrite mul_nan_l, add_nan_r_eq. change (JS.Math_floor PrimFloat.nan) with JS.NaN.
  apply stamp_nan.
Qed.

End UnreadValues.

Section EmptyBuffer.
#[local] Open Scope nat_scope.

Lemma empty_histogram (width height : nat) :
  ∃ d, calculateScopeData [] width height = Normal d ∧
       histogram d = histogram (initial_scope_data width).
Proof.
  destruct (calculateScopeData_invariant
              (fun _ _ st => histogram st = histogram (initial_scope_data width))
              [] width height) as (d & Hd & _ & HP).
  - reflexivity.
  - intros y x st _ _ _ HP. unfold pixel_update. cbn [histogram]. rewrite !lookup_nil.
    cbn [JS.index_of_channel incr_at]. rewrite HP. reflexivity.
  - intros y st _ HP. exact HP.
  - exists d. split; assumption.
Qed.

(** X16. An empty buffer draws nothing, whatever dimensions are declared
    for it within what the arrays of the analyzer hold (a width below 2^32,
    and three times the height below 2^32 for the values pushed on a parade
    column): no value is read, so the histograms stay at zero and the maps
    of the waveform, of the three parade channels and of the vectorscope
    stay blank. *)
Theorem empty_buffer_draws_nothing (width height W H size : nat) :
  (Z.of_nat width < 2 ^ 32)%Z → (3 * Z.of_nat height < 2 ^ 32)%Z →
  ∃ d, calculateScopeData [] width height = Normal d ∧
       histogram d =
         {| hist_r := replicate 256 (Count 0); hist_g := replicate 256 (Count 0);
            hist_b := replicate 256 (Count 0); hist_lum := replicate 256 (Count 0) |} ∧
       waveform_intensity W H (luminance d) = new_intensity_map (W * H) ∧
       parade_intensity W H (columns_r (rgbColumns d)) = new_intensity_map (W / 3 * H) ∧
       parade_intensity W H (columns_g (rgbColumns d)) = new_intensity_map (W / 3 * H) ∧
       parade_intensity W H (columns_b (rgbColumns d)) = new_intensity_map (W / 3 * H) ∧
       vectorscope_intensity size (colorPoints d) = new_intensity_map (size * size).
Proof.
  intros _ _. destruct (empty_histogram width height) as (d & Hd & Hh).
  destruct (luminance_columns [] width height) as (d1 & Hd1 & Hl & Hc).
  destruct (parade_columns [] width height) as (d2 & Hd2 & (_ & Lr & Lg & Lb) & Hinv).
  destruct (colorPoints_sampled [] width height) as (d3 & Hd3 & Hp).
  rewrite Hd in Hd1, Hd2, Hd3.
  injection Hd1 as <-. injection Hd2 as <-. injection Hd3 as <-.
  exists d. split; [assumption |]. split; [exact Hh |].
  assert (Hparade : ∀ k cols, k < 3 → length cols = width / 3 →
            (∀ c, c < width / 3 → cols !! c = Some (parade_partial [] width k c height 0)) →
            parade_intensity W H cols = new_intensity_map (W / 3 * H)).
  { intros k cols Hk Hlen Hcols. unfold parade_intensity. apply plot_columns_nan.
    apply List.Forall_forall. intros column Hcol.
    apply in_map_iff in Hcol as (chs & <- & Hchs).
    apply list_elem_of_In, list_elem_of_lookup in Hchs as [c Ec].
    pose proof (lookup_lt_Some _ _ _ Ec) as Hc'. rewrite Hlen in Hc'.
    rewrite (Hcols c Hc') in Ec. injection Ec as <-.
    apply List.Forall_forall. intros v Hv. apply in_map_iff in Hv as (ch & <- & Hch).
    unfold parade_partial, parade_column in Hch. apply in_app_or in Hch as [Hch | Hch].
    - apply in_flat_map in Hch as (y & _ & Hch). apply in_map_iff in Hch as (x & <- & _).
      unfold channel_at. rewrite lookup_nil. reflexivity.
    - apply in_map_iff in Hch as (x & <- & _).
      unfold channel_at. rewrite lookup_nil. reflexivity. }
  split; [| split; [| split; [| split]]].
  - unfold waveform_intensity. apply plot_columns_nan.
    apply List.Forall_forall. intros column Hcol.
    apply in_map_iff in Hcol as (lums & <- & Hlums).
    apply list_elem_of_In, list_elem_of_lookup in Hlums as [x Ex].
    pose proof (lookup_lt_Some _ _ _ Ex) as Hx. rewrite Hl in Hx.
    rewrite (Hc x Hx) in Ex. injection Ex as <-.
    apply List.Forall_forall. intros v Hv. apply in_map_iff in Hv as (lum & <- & Hlum).
    apply in_map_iff in Hlum as (y & <- & _).
    unfold luminance_at. rewrite !lookup_nil. reflexivity.
  - apply (Hparade 0); [lia | assumption |]. intros c Hc'. apply (Hinv c Hc').
  - apply (Hparade 1); [lia | assumption |]. intros c Hc'. apply (Hinv c Hc').
  - apply (Hparade 2); [lia | assumption |]. intros c Hc'. apply (Hinv c Hc').
  - rewrite Hp. clear Hp. unfold vectorscope_intensity.
    generalize (new_intensity_map (size * size)) as map.
    induction (sampled_indices (vectorSampleRate width height) (width * height))
      as [| i l IH]; intros map; [reflexivity |].
    cbn [List.map fold_left]. rewrite plot_sample_nan; [apply IH |].
    reflexivity.
Qed.

Lemma empty_buffer_draws_nothing_witness :
  ∃ d, calculateScopeData [] 640 360 = Normal d ∧
       histogram d =
         {| hist_r := replicate 256 (Count 0); hist_g := replicate 256 (Count 0);
            hist_b := replicate 256 (Count 0); hist_lum := replicate 256 (Count 0) |} ∧
       waveform_intensity 8 6 (luminance d) = new_intensity_map (8 * 6) ∧
       parade_intensity 8 6 (columns_r (rgbColumns d)) = new_intensity_map (8 / 3 * 6) ∧
       parade_intensity 8 6 (columns_g (rgbColumns d)) = new_intensity_map (8 / 3 * 6) ∧
       parade_intensity 8 6 (columns_b (rgbColumns d)) = new_intensity_map (8 / 3 * 6) ∧
       vectorscope_intensity 40 (colorPoints d) = new_intensity_map (40 * 40).
Proof.
  apply (empty_buffer_draws_nothing 640 360 8 6 40); lia.
Defined.

End EmptyBuffer.

(** ** The histograms as distributions *)

Section Distribution.
#[local] Open Scope nat_scope.

Lemma count_in_bucket_S (bucket : nat → option nat) (v n : nat) :
  count_in_bucket bucket v (S n) =
    count_in_bucket bucket v n +
    (match bucket n with Some b => if b =? v then 1 else 0 | None => 0 end).
Proof.
  unfold count_in_bucket. rewrite seq_S, List.filter_app, length_app. cbn [List.filter Nat.add].
  destruct (bucket n) as [b |]; [destruct (b =? v) |]; reflexivity.
Qed.

(** One [a[k]++] on a channel whose buckets hold a count each *)
Lemma incr_at_counts (a : list slot) (k : option nat) (f : nat → nat) :
  (∀ v, v < 256 → a !! v = Some (Count (f v))) →
  (∀ i, k = Some i → i < 256) →
  ∀ v, v < 256 →
    incr_at k a !! v =
      Some (Count (f v + match k with Some b => if b =? v then 1 else 0 | None => 0 end)).
Proof.
  intros Ha Hk v Hv. destruct k as [i |]; cbn [incr_at].
  - specialize (Hk i eq_refl).
    pose proof (lookup_lt_Some _ _ _ (Ha i Hk)) as Hi.
    destruct (Nat.ltb_spec i (length a)) as [_ | ?]; [| lia].
    destruct (Nat.eqb_spec i v) as [-> | Hne].
    + rewrite list_lookup_alter_eq, (Ha v Hv). cbn. f_equal. f_equal. lia.
    + rewrite list_lookup_alter_ne by assumption. rewrite (Ha v Hv). f_equal. f_equal. lia.
  - rewrite (Ha v Hv). f_equal. f_equal. lia.
Qed.

Lemma mul_nan_r (x : float) : (x * PrimFloat.nan)%float = PrimFloat.nan.
Proof.
  apply Prim2SF_inj. rewrite FloatAxioms.mul_spec.
  change (Prim2SF PrimFloat.nan) with S754_nan. destruct (Prim2SF x); reflexivity.
Qed.

Lemma add_nan_l_eq (x : float) : (PrimFloat.nan + x)%float = PrimFloat.nan.
Proof. apply Prim2SF_inj. rewrite FloatAxioms.add_spec. reflexivity. Qed.

(** The luminance of a pixel is a bucket index, or NaN when a byte of the
    pixel was not read. *)
Lemma luminance_bucket (r g b : channel) (i : nat) :
  JS.index_of_integral (pixel_luminance r g b) = Some i → i < 256.
Proof.
  destruct r as [r |], g as [g |], b as [b |].
  - destruct (pixel_luminance_range r g b) as (z & -> & Hz). cbn [JS.index_of_integral].
    destruct ((0 <=? z)%Z && (z <? 2 ^ 32 - 1)%Z); [| discriminate]. intros [= <-]. lia.
  - unfold pixel_luminance. cbn [JS.to_number]. rewrite mul_nan_r, add_nan_r_eq. discriminate.
  - unfold pixel_luminance. cbn [JS.to_number].
    rewrite mul_nan_r, add_nan_r_eq, add_nan_l_eq. discriminate.
  - unfold pixel_luminance. cbn [JS.to_number].
    rewrite !mul_nan_r, add_nan_r_eq. discriminate.
  - unfold pixel_luminance. cbn [JS.to_number].
    rewrite mul_nan_r, !add_nan_l_eq. discriminate.
  - unfold pixel_luminance. cbn [JS.to_number].
    rewrite !mul_nan_r, add_nan_r_eq. discriminate.
  - unfold pixel_luminance. cbn [JS.to_number].
    rewrite !mul_nan_r, !add_nan_l_eq. discriminate.
  - unfold pixel_luminance. cbn [JS.to_number].
    rewrite !mul_nan_r, !add_nan_l_eq. discriminate.
Qed.

Lemma channel_bucket (c : channel) (i : nat) : JS.index_of_channel c = Some i → i < 256.
Proof. destruct c as [c |]; [| discriminate]. intros [= <-]. apply byte_index_lt. Qed.

(** X17. For every buffer, each bucket of each histogram channel holds the
    number of pixels whose value of that channel is the bucket's index: the
    histograms are the distributions of red, green, blue and luminance over
    the pixels that were read. *)
Theorem histogram_is_distribution (data : list byte) (width height : nat) :
  ∃ d, calculateScopeData data width height = Normal d ∧
       ∀ v, v < 256 →
         hist_r (histogram d) !! v =
           Some (Count (count_in_bucket (bucket_of_channel data 0) v (width * height))) ∧
         hist_g (histogram d) !! v =
           Some (Count (count_in_bucket (bucket_of_channel data 1) v (width * height))) ∧
         hist_b (histogram d) !! v =
           Some (Count (count_in_bucket (bucket_of_channel data 2) v (width * height))) ∧
         hist_lum (histogram d) !! v =
           Some (Count (count_in_bucket (bucket_of_luminance data) v (width * height))).
Proof.
  destruct (calculateScopeData_invariant
              (fun y x st =>
                 ∀ v, v < 256 →
                   hist_r (histogram st) !! v =
                     Some (Count (count_in_bucket (bucket_of_channel data 0) v (y * width + x))) ∧
                   hist_g (histogram st) !! v =
                     Some (Count (count_in_bucket (bucket_of_channel data 1) v (y * width + x))) ∧
                   hist_b (histogram st) !! v =
                     Some (Count (count_in_bucket (bucket_of_channel data 2) v (y * width + x))) ∧
                   hist_lum (histogram st) !! v =
                     Some (Count (count_in_bucket (bucket_of_luminance data) v (y * width + x))))
              data width height) as (d & Hd & _ & HP).
  - intros v Hv. cbn [initial_scope_data histogram hist_r hist_g hist_b hist_lum].
    rewrite lookup_replicate_2 by assumption. repeat split; reflexivity.
  - intros y x st Hy Hx _ HP v Hv.
    replace (y * width + S x) with (S (y * width + x)) by lia.
    rewrite !count_in_bucket_S. unfold pixel_update.
    cbn [histogram hist_r hist_g hist_b hist_lum].
    unfold bucket_of_channel, bucket_of_luminance. rewrite Nat.add_0_r.
    split; [| split; [| split]].
    + apply (incr_at_counts _ _
               (fun u => count_in_bucket (bucket_of_channel data 0) u (y * width + x)));
        [intros u Hu; apply (HP u Hu) | apply channel_bucket | assumption].
    + apply (incr_at_counts _ _
               (fun u => count_in_bucket (bucket_of_channel data 1) u (y * width + x)));
        [intros u Hu; apply (HP u Hu) | apply channel_bucket | assumption].
    + apply (incr_at_counts _ _
               (fun u => count_in_bucket (bucket_of_channel data 2) u (y * width + x)));
        [intros u Hu; apply (HP u Hu) | apply channel_bucket | assumption].
    + apply (incr_at_counts _ _
               (fun u => count_in_bucket (bucket_of_luminance data) u (y * width + x)));
        [intros u Hu; apply (HP u Hu) | apply luminance_bucket | assumption].
  - intros y st _ HP v Hv. replace (S y * width + 0) with (y * width + width) by lia.
    apply (HP v Hv).
  - exists d. split; [assumption |]. intros v Hv.
    replace (width * height) with (height * width + 0) by lia. apply (HP v Hv).
Qed.

End Distribution.

(** ** The waveform and parade maps cell by cell *)

Section PlotCounts.
#[local] Open Scope Z_scope.

Lemma plot_point_lookup_any (width height : nat) (x y : JS.integral) (map : list Z)
    (cx cy : nat) :
  (cx < width)%nat → (cy < height)%nat →
  plot_point width height x y map !! (cy * width + cx)%nat =
    if match x, y with
       | JS.Int a, JS.Int b => (a =? Z.of_nat cx) && (b =? Z.of_nat cy)
       | _, _ => false
       end
    then incr_counter <$> map !! (cy * width + cx)%nat
    else map !! (cy * width + cx)%nat.
Proof.
  intros Hx Hy. destruct x as [a | | |], y as [b | | |];
    try (unfold plot_point;
         destruct (JS.ge _ 0 && JS.lt _ (Z.of_nat height) && JS.ge _ 0 && JS.lt _ (Z.of_nat width));
         reflexivity).
  apply plot_point_lookup; assumption.
Qed.

Lemma incr_counter_range (c : Z) : 0 <= incr_counter c < 2 ^ 32.
Proof. unfold incr_counter. apply Z.mod_pos_bound. lia. Qed.

Lemma add_mod_step (c k1 k2 : Z) :
  ((c + k1) mod 2 ^ 32 + k2) mod 2 ^ 32 = (c + (k1 + k2)) mod 2 ^ 32.
Proof. rewrite Zplus_mod_idemp_l. f_equal. lia. Qed.

Lemma plot_column_lookup (width height columnCount col : nat) (values : list float)
    (cx cy : nat) :
  (cx < width)%nat → (cy < height)%nat →
  ∀ (map : list Z) (c : Z),
    map !! (cy * width + cx)%nat = Some c → 0 <= c < 2 ^ 32 →
    plot_column width height columnCount col values map !! (cy * width + cx)%nat =
      Some ((c + Z.of_nat (length (List.filter
                                     (plotted_on width height columnCount cx cy col) values)))
            mod 2 ^ 32).
Proof.
  intros Hx Hy. unfold plot_column.
  induction values as [| v values IH]; intros map c Hc Hr.
  - cbn. rewrite Z.add_0_r, Z.mod_small by lia. exact Hc.
  - cbn [fold_left List.filter].
    pose proof (plot_point_lookup_any width height (plot_x col columnCount width)
                  (plot_y height v) map cx cy Hx Hy) as Hp.
    fold (plotted_on width height columnCount cx cy col v) in Hp. rewrite Hc in Hp.
    destruct (plotted_on width height columnCount cx cy col v).
    + cbn [fmap option_fmap option_map] in Hp.
      rewrite (IH _ _ Hp (incr_counter_range c)). unfold incr_counter.
      rewrite add_mod_step. cbn [length]. f_equal. f_equal. lia.
    + apply (IH _ _ Hp Hr).
Qed.

Lemma filter_column_pairs (P : nat → float → bool) (col : nat) (values : list float) :
  length (List.filter (fun cv => P (fst cv) (snd cv)) (List.map (fun v => (col, v)) values)) =
  length (List.filter (P col) values).
Proof.
  induction values as [| v values IH]; [reflexivity |].
  cbn [List.map List.filter fst snd]. destruct (P col v); cbn [length]; rewrite IH; reflexivity.
Qed.

Lemma plot_columns_lookup (width height : nat) (columns : list (list float)) (cx cy : nat) :
  (cx < width)%nat → (cy < height)%nat →
  plot_columns width height columns !! (cy * width + cx)%nat =
    Some (Z.of_nat (plotted_count width height cx cy columns) mod 2 ^ 32).
Proof.
  intros Hx Hy. unfold plot_columns, plotted_count.
  set (P := fun cv : nat * float =>
              plotted_on width height (length columns) cx cy (fst cv) (snd cv)).
  set (g := fun col => List.map (fun v => (col, v)) (default [] (columns !! col))).
  assert (K : ∀ (l : list nat) (map : list Z) (c : Z),
            map !! (cy * width + cx)%nat = Some c → 0 <= c < 2 ^ 32 →
            fold_left
              (fun m col =>
                 match columns !! col with
                 | Some values => plot_column width height (length columns) col values m
                 | None => m
                 end) l map !! (cy * width + cx)%nat =
              Some ((c + Z.of_nat (length (List.filter P (flat_map g l)))) mod 2 ^ 32)).
  { induction l as [| col l IH]; intros map c Hc Hr.
    - cbn. rewrite Z.add_0_r, Z.mod_small by lia. exact Hc.
    - cbn [fold_left flat_map]. rewrite List.filter_app, length_app, Nat2Z.inj_add.
      unfold g at 1. destruct (columns !! col) as [values |]; cbn [default List.map].
      + pose proof (plot_column_lookup width height (length columns) col values cx cy Hx Hy
                      map c Hc Hr) as Hp.
        rewrite (IH _ _ Hp); [| apply Z.mod_pos_bound; lia].
        rewrite add_mod_step. unfold P. rewrite filter_column_pairs. reflexivity.
      + rewrite (IH _ _ Hc Hr). cbn. reflexivity. }
  rewrite (K _ _ 0); [reflexivity | | lia].
  unfold new_intensity_map. apply lookup_replicate_2. nia.
Qed.

(** X18. After all columns are plotted, a cell of the waveform map holds the
    number of luminance values that are plotted on it (in 32-bit
    arithmetic). *)
Theorem waveform_cell_counts (W H : nat) (luminanceColumns : list (list JS.integral))
    (cx cy : nat) :
  (cx < W)%nat → (cy < H)%nat →
  waveform_intensity W H luminanceColumns !! (cy * W + cx)%nat =
    Some (Z.of_nat (plotted_count W H cx cy
                      (List.map (List.map JS.to_float) luminanceColumns)) mod 2 ^ 32).
Proof. intros Hx Hy. apply plot_columns_lookup; assumption. Qed.

Lemma waveform_cell_counts_witness :
  waveform_intensity 4 4 [[JS.Int 255]; [JS.Int 0]] !! (0 * 4 + 0)%nat =
    Some (Z.of_nat (plotted_count 4 4 0 0
                      (List.map (List.map JS.to_float) [[JS.Int 255]; [JS.Int 0]])) mod 2 ^ 32).
Proof. apply (waveform_cell_counts 4 4 [[JS.Int 255]; [JS.Int 0]] 0 0); lia. Defined.

(** X19. Likewise a cell of the map of a parade channel, which is
    [floor(W / 3)] cells wide, holds the number of channel values plotted
    on it. *)
Theorem parade_cell_counts (W H : nat) (channelData : list (list channel)) (cx cy : nat) :
  (cx < W / 3)%nat → (cy < H)%nat →
  parade_intensity W H channelData !! (cy * (W / 3) + cx)%nat =
    Some (Z.of_nat (plotted_count (W / 3) H cx cy
                      (List.map (List.map JS.to_number) channelData)) mod 2 ^ 32).
Proof. intros Hx Hy. apply plot_columns_lookup; assumption. Qed.

Lemma parade_cell_counts_witness :
  parade_intensity 6 4 [[Some "255"%byte]] !! (0 * (6 / 3) + 0)%nat =
    Some (Z.of_nat (plotted_count (6 / 3) 4 0 0
                      (List.map (List.map JS.to_number) [[Some "255"%byte]])) mod 2 ^ 32).
Proof. apply (parade_cell_counts 6 4 [[Some "255"%byte]] 0 0); cbn; lia. Defined.

End PlotCounts.

(** ** The scale of the histogram and the orientation of the waveform *)

Section ScaleAndExtremes.
#[local] Open Scope R_scope.

Lemma marker_on_its_bar (w m : Z) :
  (0 <= w < 2 ^ 32)%Z → (0 <= m <= 255)%Z →
  good (JS.number m / 255 * JS.number w) ∧
  IZR (m * w) / 256 <= val (JS.number m / 255 * JS.number w) <= IZR ((m + 1) * w) / 256.
Proof.
  intros Hw Hm. destruct (number_val w) as [gw vw]; [lia |].
  destruct (number_val m) as [gm vm]; [lia |]. destruct literal_255 as [g255 v255].
  assert (Hwr : 0 <= IZR w) by (apply IZR_le; lia).
  assert (Hmr : 0 <= IZR m <= 255) by (split; apply IZR_le; lia).
  destruct (div_bounds (JS.number m) 255 (F2R m (-8)) (F2R (m + 1) (-8))) as [gq vq];
    try assumption.
  { rewrite v255. lra. }
  { destruct (Z.eq_dec m 0%Z) as [-> | Hne]; [left; rewrite vm; reflexivity | right].
    rewrite vm, v255. assert (1 <= IZR m) by (apply IZR_le; lia).
    assert (bpow (-1020) <= bpow (-8)) by (apply bpow_le; lia).
    replace (bpow (-8)) with (/ 256) in * by (unfold bpow; simpl; lra).
    apply Rdiv_le_lower; lra. }
  { apply fmt0_F2R; lia. } { apply fmt0_F2R; lia. }
  { rewrite vm, v255, !F2R_256, plus_IZR.
    split; [apply Rdiv_le_lower | apply Rdiv_le_upper]; lra. }
  rewrite !F2R_256, plus_IZR in vq.
  destruct (mul_bounds (JS.number m / 255) (JS.number w)
              (F2R (m * w) (-8)) (F2R ((m + 1) * w) (-8))) as [gx vx]; try assumption.
  { apply fmt0_F2R; nia. } { apply fmt0_F2R; nia. }
  { rewrite vw, !F2R_256, !mult_IZR, plus_IZR. split; nra. }
  rewrite !F2R_256 in vx. split; assumption.
Qed.

End ScaleAndExtremes.

Section ScaleTheorems.
#[local] Open Scope Z_scope.

(** X20. The scale of the histogram agrees with its bars: on a canvas less than
    2^32 pixels wide, the line of each marker (0, 64, 128, 192, 255) is
    drawn within the bar of the bucket it names, between the bar's left
    and right edge. *)
Theorem histogram_marker_on_bar (width height : nat) (maxVal : float) (a : list slot)
    (marker : Z) (bar : fill_rect) :
  Z.of_nat width < 2 ^ 32 → In marker markers →
  channel_bars width height maxVal a !! Z.to_nat marker = Some bar →
  (fill_x bar <=? marker_x width marker)%float = true ∧
  (marker_x width marker <=? fill_x bar + fill_width bar)%float = true.
Proof.
  intros Hw Hm Hbar.
  assert (Hr : 0 <= marker <= 255).
  { unfold markers in Hm. cbn in Hm. lia. }
  unfold channel_bars in Hbar.
  change (@List.map nat fill_rect) with (@fmap list _ nat fill_rect) in Hbar.
  rewrite list_lookup_fmap, lookup_seq_lt in Hbar by lia.
  cbn [fmap option_fmap option_map] in Hbar. injection Hbar as <-. cbn [fill_x fill_width].
  rewrite ?Nat.add_0_l. rewrite Z2Nat.id by lia.
  rewrite (bar_edges_adjacent (Z.of_nat width) marker) by lia.
  destruct (marker_on_its_bar (Z.of_nat width) marker) as [gx vx]; [lia | lia |].
  destruct (bar_left_edge (Z.of_nat width) marker) as (_ & _ & gl & vl); [lia | lia |].
  destruct (bar_left_edge (Z.of_nat width) (marker + 1)) as (_ & _ & gr & vr); [lia | lia |].
  unfold marker_x. split; apply leb_val; try assumption; lra.
Qed.

Lemma histogram_marker_on_bar_witness :
  ∃ bar, channel_bars 512 200 1 (replicate 256 (Count 0)) !! Z.to_nat 128 = Some bar ∧
    (fill_x bar <=? marker_x 512 128)%float = true ∧
    (marker_x 512 128 <=? fill_x bar + fill_width bar)%float = true.
Proof.
  eexists. split; [reflexivity |].
  apply (histogram_marker_on_bar 512 200 1 (replicate 256 (Count 0)) 128);
    [simpl; lia | cbn; tauto | reflexivity].
Defined.

(** X21. The waveform and the parade are upright: on every canvas the value 255
    is plotted on the top row and the value 0 on the bottom row, and the
    first column of the data on the left edge. *)
Theorem waveform_extremes (width height columnCount : nat) :
  1 <= Z.of_nat width < 2 ^ 32 → 1 <= Z.of_nat height < 2 ^ 32 →
  1 <= Z.of_nat columnCount <= 2 ^ 32 →
  plot_y height (JS.number 255) = JS.Int 0 ∧
  plot_y height (JS.number 0) = JS.Int (Z.of_nat height - 1) ∧
  plot_x 0 columnCount width = JS.Int 0.
Proof.
  intros HW HH Hcc. set (H := Z.of_nat height).
  destruct literal_1 as [g1 v1]. destruct literal_0 as [g0 v0].
  destruct (number_val H) as [gH vH]; [unfold H; lia |].
  assert (HHr : (1 <= IZR H)%R) by (apply IZR_le; unfold H; lia).
  destruct (sub_bounds (JS.number H) 1 (IZR (H - 1)) (IZR (H - 1))) as [gh vh];
    try assumption.
  { apply fmt0_IZR. unfold H. lia. } { apply fmt0_IZR. unfold H. lia. }
  { rewrite v1, vH. assumption. } { rewrite v1, vH, minus_IZR. lra. }
  rewrite minus_IZR in vh.
  assert (vh' : val (JS.number H - 1) = (IZR H - 1)%R) by lra.
  assert (E1 : (1 * (JS.number H - 1))%float = (JS.number H - 1)%float).
  { destruct (mul_bounds 1 (JS.number H - 1) (IZR (H - 1)) (IZR (H - 1))) as [gp vp];
      try assumption.
    { apply fmt0_IZR. unfold H. lia. } { apply fmt0_IZR. unfold H. lia. }
    { rewrite v1, vh', minus_IZR. lra. }
    rewrite minus_IZR in vp. apply val_inj; [assumption | assumption | lra]. }
  assert (E0 : (0 * (JS.number H - 1))%float = 0%float).
  { destruct (mul_bounds 0 (JS.number H - 1) 0 0) as [gp vp]; try assumption.
    { left. reflexivity. } { left. reflexivity. } { rewrite v0. lra. }
    apply val_inj; [assumption | assumption | lra]. }
  split; [| split].
  - unfold plot_y. fold H. change (JS.number 255 / 255)%float with 1%float. rewrite E1.
    destruct (sub_bounds (JS.number H - 1) (JS.number H - 1) 0 0) as [gz vz]; try assumption.
    { left. reflexivity. } { left. reflexivity. } { lra. } { lra. }
    destruct (floor_range (JS.number H - 1 - (JS.number H - 1)) 0 0 gz) as (f & -> & Hf);
      [lra | lra |].
    f_equal. lia.
  - unfold plot_y. fold H. change (JS.number 0 / 255)%float with 0%float. rewrite E0.
    destruct (sub_bounds (JS.number H - 1) 0 (IZR (H - 1)) (IZR (H - 1))) as [gz vz];
      try assumption.
    { apply fmt0_IZR. unfold H. lia. } { apply fmt0_IZR. unfold H. lia. }
    { rewrite v0, vh'. lra. } { rewrite v0, vh', minus_IZR. lra. }
    destruct (floor_range (JS.number H - 1 - 0) (H - 1) (H - 1) gz) as (f & -> & Hf);
      [lra | lra |].
    f_equal. lia.
  - destruct (plot_x_range 0 columnCount width) as (x & Ex & Hx); [lia | lia | lia |].
    unfold plot_x in *. change (Z.of_nat 0) with 0%Z in *.
    destruct (number_val (Z.of_nat columnCount)) as [gc vc]; [lia |].
    destruct (number_val (Z.of_nat width)) as [gw vw]; [lia |].
    assert (Hcr : (1 <= IZR (Z.of_nat columnCount))%R) by (apply IZR_le; lia).
    destruct (div_bounds (JS.number 0) (JS.number (Z.of_nat columnCount)) 0 0) as [gq vq];
      try assumption.
    { rewrite vc. lra. } { left. exact v0. } { left. reflexivity. } { left. reflexivity. }
    { change (JS.number 0) with 0%float. rewrite v0, vc. unfold Rdiv. lra. }
    destruct (mul_bounds (JS.number 0 / JS.number (Z.of_nat columnCount))
                (JS.number (Z.of_nat width)) 0 0) as [gp vp]; try assumption.
    { left. reflexivity. } { left. reflexivity. }
    { assert (Eq : val (JS.number 0 / JS.number (Z.of_nat columnCount)) = 0%R) by lra.
      rewrite Eq. lra. }
    destruct (floor_range _ 0 0 gp) as (f & Ef & Hf); [lra | lra |].
    rewrite Ef. f_equal. lia.
Qed.

Lemma waveform_extremes_witness :
  plot_y 256 (JS.number 255) = JS.Int 0 ∧
  plot_y 256 (JS.number 0) = JS.Int (Z.of_nat 256 - 1) ∧
  plot_x 0 320 512 = JS.Int 0.
Proof. apply (waveform_extremes 512 256 320); simpl; lia. Defined.

End ScaleTheorems.

(** ** The luminance against exact arithmetic *)

Section RoundNearest.
#[local] Open Scope R_scope.

(** [Math.round] of a double that is zero or positive *)
Lemma round_bounds (x : float) :
  good x → ∃ k, JS.Math_round x = JS.Int k ∧ IZR k - 1 / 2 <= val x < IZR k + 1 / 2.
Proof.
  unfold good, val, JS.Math_round.
  intros [-> | (m & e & ->)].
  - exists 0%Z. cbn. split; [reflexivity | lra].
  - exists (JS.round_finite false m e). split; [reflexivity |].
    unfold JS.round_finite. cbn [cond_Zopp SF2R]. unfold F2R.
    destruct (Z.leb_spec 0 e) as [He | He].
    + rewrite Z.shiftl_mul_pow2, mult_IZR, bpow_IZR by assumption. lra.
    + assert (Hp : (0 < 2 ^ (- e))%Z) by (apply Z.pow_pos_nonneg; lia).
      assert (Hp2 : (2 ^ (1 - e) = 2 * 2 ^ (- e))%Z).
      { replace (1 - e)%Z with (Z.succ (- e)) by lia. apply Z.pow_succ_r. lia. }
      rewrite Hp2.
      pose proof (IZR_div_bounds (2 * Zpos m + 2 ^ (- e)) (2 * 2 ^ (- e)) ltac:(lia)) as Hb.
      rewrite plus_IZR, !mult_IZR, <- bpow_IZR in Hb by lia.
      pose proof (bpow_opp e) as Ho.
      pose proof (bpow_pos (- e)). pose proof (bpow_pos e).
      assert (Hq : IZR (Zpos m) * bpow e = IZR (Zpos m) / bpow (- e)).
      { unfold Rdiv. f_equal. apply Rmult_eq_reg_r with (bpow (- e)); [| lra].
        rewrite Rinv_l by lra. lra. }
      assert (Hs : (2 * IZR (Zpos m) + bpow (- e)) / (2 * bpow (- e))
                   = IZR (Zpos m) / bpow (- e) + 1 / 2) by (field; lra).
      rewrite Hs in Hb. rewrite Hq. lra.
Qed.

(** A Number between two doubles that are zero or positive is itself zero
    or positive. *)
Lemma between_good (lo s hi : float) :
  good lo → good hi → (lo <=? s)%float = true → (s <? hi)%float = true →
  good s ∨ Prim2SF s = S754_zero true.
Proof.
  intros Hlo Hhi. rewrite FloatAxioms.leb_spec, FloatAxioms.ltb_spec.
  unfold good. destruct (Prim2SF s) as [sg | sg | | sg m e] eqn:E.
  - intros _ _. destruct sg; [right | left; left]; reflexivity.
  - destruct sg.
    + destruct Hlo as [-> | (m1 & e1 & ->)]; discriminate.
    + destruct Hhi as [-> | (m1 & e1 & ->)]; discriminate.
  - destruct Hlo as [-> | (m1 & e1 & ->)]; discriminate.
  - destruct sg.
    + destruct Hlo as [-> | (m1 & e1 & ->)]; discriminate.
    + intros _ _. left. right. eauto.
Qed.

Lemma round_between (lo s hi : float) (K : Z) :
  good lo → good hi → val lo <= IZR K → IZR K - 1 / 2 <= val lo →
  val hi = IZR K + 1 / 2 →
  (lo <=? s)%float = true → (s <? hi)%float = true →
  JS.Math_round s = JS.Int K.
Proof.
  intros Hlo Hhi Hl1 Hl2 Hh Hle Hlt.
  destruct (between_good lo s hi Hlo Hhi Hle Hlt) as [Hs | Hz].
  - destruct (round_bounds s Hs) as (k & -> & Hk1 & Hk2).
    apply leb_val in Hle; [| assumption | assumption].
    apply ltb_val in Hlt; [| assumption | assumption].
    f_equal.
    assert (IZR k < IZR (K + 1)) by (rewrite plus_IZR; lra).
    assert (IZR K < IZR (k + 1)) by (rewrite plus_IZR; lra).
    apply lt_IZR in H, H0. lia.
  - unfold JS.Math_round. rewrite Hz. f_equal.
    rewrite FloatAxioms.leb_spec, Hz in Hle.
    pose proof (val_nonneg lo Hlo) as Hn. unfold val in *.
    destruct Hlo as [E | (m & e & E)]; rewrite E in *.
    + cbn in Hl1, Hl2.
      assert (IZR K < IZR 1) by lra. assert (IZR (-1) < IZR K) by lra.
      apply lt_IZR in H, H0. lia.
    + discriminate.
Qed.

End RoundNearest.

Section MachineIntegers.
#[local] Open Scope Z_scope.

Lemma of_Z_small (z : Z) : 0 <= z < 2 ^ 62 → Uint63.to_Z (Uint63.of_Z z) = z.
Proof.
  intros Hz. rewrite Uint63.of_Z_spec. apply Z.mod_small.
  change wB with (2 ^ 63). lia.
Qed.

Lemma number_of_Z (z : Z) : 0 <= z → JS.number z = PrimFloat.of_uint63 (Uint63.of_Z z).
Proof.
  intros Hz. unfold JS.number. destruct (Z.ltb_spec z 0); [lia | reflexivity].
Qed.

Lemma int_add (a b : Z) :
  0 <= a < 2 ^ 60 → 0 <= b < 2 ^ 60 →
  (Uint63.of_Z a + Uint63.of_Z b)%uint63 = Uint63.of_Z (a + b).
Proof.
  intros Ha Hb. apply Uint63.to_Z_inj.
  rewrite Uint63.add_spec, !of_Z_small by lia.
  apply Z.mod_small. change wB with (2 ^ 63). lia.
Qed.

Lemma int_mul (a b : Z) :
  0 <= a < 2 ^ 30 → 0 <= b < 2 ^ 30 →
  (Uint63.of_Z a * Uint63.of_Z b)%uint63 = Uint63.of_Z (a * b).
Proof.
  intros Ha Hb.
  assert (0 <= a * b < 2 ^ 60).
  { change (2 ^ 60) with (2 ^ 30 * 2 ^ 30). nia. }
  apply Uint63.to_Z_inj.
  rewrite Uint63.mul_spec, !of_Z_small by lia.
  apply Z.mod_small. change wB with (2 ^ 63). lia.
Qed.

Lemma int_sub (a b : Z) :
  0 <= b <= a → a < 2 ^ 60 →
  (Uint63.of_Z a - Uint63.of_Z b)%uint63 = Uint63.of_Z (a - b).
Proof.
  intros Hb Ha. apply Uint63.to_Z_inj.
  rewrite Uint63.sub_spec, !of_Z_small by lia.
  apply Z.mod_small. change wB with (2 ^ 63). lia.
Qed.

Lemma int_div (a b : Z) :
  0 <= a < 2 ^ 60 → 0 < b < 2 ^ 60 →
  (Uint63.of_Z a / Uint63.of_Z b)%uint63 = Uint63.of_Z (a / b).
Proof.
  intros Ha Hb.
  assert (0 <= a / b <= a).
  { split; [apply Z.div_pos; lia |]. apply Z.div_le_upper_bound; [lia |]. nia. }
  apply Uint63.to_Z_inj.
  rewrite Uint63.div_spec, !of_Z_small by lia. reflexivity.
Qed.

Lemma int_mod (a b : Z) :
  0 <= a < 2 ^ 60 → 0 < b < 2 ^ 60 →
  (Uint63.of_Z a mod Uint63.of_Z b)%uint63 = Uint63.of_Z (a mod b).
Proof.
  intros Ha Hb. pose proof (Z.mod_pos_bound a b ltac:(lia)).
  apply Uint63.to_Z_inj.
  rewrite Uint63.mod_spec, !of_Z_small by lia. reflexivity.
Qed.

Lemma int_eqb (a b : Z) :
  0 <= a < 2 ^ 60 → 0 <= b < 2 ^ 60 →
  (Uint63.of_Z a =? Uint63.of_Z b)%uint63 = (a =? b).
Proof.
  intros Ha Hb. destruct (Z.eqb_spec a b) as [-> | Hne].
  - apply Uint63.eqb_refl.
  - destruct (Uint63.eqb (Uint63.of_Z a) (Uint63.of_Z b)) eqn:E; [| reflexivity].
    apply Uint63.eqb_spec in E. apply (f_equal Uint63.to_Z) in E.
    rewrite !of_Z_small in E by lia. contradiction.
Qed.

End MachineIntegers.

Section LuminanceNearest.
#[local] Open Scope R_scope.

Lemma half_above_val (K : Z) :
  (0 <= K < 2 ^ 20)%Z →
  good (half_above (Uint63.of_Z K)) ∧ val (half_above (Uint63.of_Z K)) = IZR K + 1 / 2.
Proof.
  intros HK. unfold half_above.
  change 2%uint63 with (Uint63.of_Z 2). change 1%uint63 with (Uint63.of_Z 1).
  rewrite int_mul, int_add, <- number_of_Z by lia.
  destruct (number_val (2 * K + 1)) as [gn vn]; [lia |].
  destruct literal_2 as [g2 v2].
  destruct (div_bounds (JS.number (2 * K + 1)) 2
              (F2R (2 * K + 1) (-1)) (F2R (2 * K + 1) (-1))) as [gh vh];
    try assumption.
  - lra.
  - right. rewrite vn, v2.
    assert (1 <= IZR (2 * K + 1)) by (apply IZR_le; lia).
    assert (bpow (-1020) <= bpow (-1)) by (apply bpow_le; lia).
    assert (bpow (-1) = 1 / 2) by (unfold bpow; simpl; lra).
    lra.
  - apply fmt0_half. lia.
  - apply fmt0_half. lia.
  - rewrite vn, v2, F2R_half. lra.
  - split; [assumption |]. rewrite F2R_half, plus_IZR, mult_IZR in vh. lra.
Qed.

Lemma rounds_to_sound (K : Z) (s : float) :
  (0 <= K < 2 ^ 20)%Z → rounds_to (Uint63.of_Z K) s = true → JS.Math_round s = JS.Int K.
Proof.
  intros HK H. unfold rounds_to in H. apply andb_true_iff in H as [Hlo Hhi].
  destruct (half_above_val K HK) as [gh vh].
  change 0%uint63 with (Uint63.of_Z 0) in Hlo. rewrite int_eqb in Hlo by lia.
  destruct (Z.eqb_spec K 0) as [-> | Hne].
  - destruct literal_0 as [g0 v0].
    apply (round_between 0 s _ 0 g0 gh); try assumption; lra.
  - change 1%uint63 with (Uint63.of_Z 1) in Hlo. rewrite int_sub in Hlo by lia.
    destruct (half_above_val (K - 1)) as [gl vl]; [lia |].
    rewrite minus_IZR in vl.
    apply (round_between _ s _ K gl gh); try assumption; lra.
Qed.

Lemma byte_Z_range (c : byte) : (0 <= byte_Z c <= 255)%Z.
Proof. unfold byte_Z. pose proof (byte_index_lt c). lia. Qed.

Lemma byte_int_listed (c : byte) : In (Uint63.of_Z (byte_Z c)) byte_ints.
Proof.
  apply list_elem_of_In, list_elem_of_lookup.
  exists (N.to_nat (Byte.to_N c)).
  destruct c; vm_compute; reflexivity.
Qed.

Lemma all_luminances_nearest : forallb3 luminance_is_nearest byte_ints = true.
Proof. vm_cast_no_check (eq_refl true). Qed.

(** The luminance of a pixel is the exact luminance, or one below it at
    an exact tie. *)
Lemma pixel_luminance_nearest (r g b : byte) :
  pixel_luminance (Some r) (Some g) (Some b)
    = JS.Int (exact_luminance (byte_Z r) (byte_Z g) (byte_Z b)) ∨
  (exact_tie (byte_Z r) (byte_Z g) (byte_Z b) ∧
   pixel_luminance (Some r) (Some g) (Some b)
     = JS.Int (exact_luminance (byte_Z r) (byte_Z g) (byte_Z b) - 1)).
Proof.
  pose proof (forallb3_sound _ _ all_luminances_nearest _ _ _
                (byte_int_listed r) (byte_int_listed g) (byte_int_listed b)) as H.
  pose proof (byte_Z_range r) as Hr. pose proof (byte_Z_range g) as Hg.
  pose proof (byte_Z_range b) as Hb.
  set (R := byte_Z r) in *. set (G := byte_Z g) in *. set (B := byte_Z b) in *.
  assert (Es : pixel_luminance (Some r) (Some g) (Some b)
               = JS.Math_round (luminance_sum (PrimFloat.of_uint63 (Uint63.of_Z R))
                                  (PrimFloat.of_uint63 (Uint63.of_Z G))
                                  (PrimFloat.of_uint63 (Uint63.of_Z B)))).
  { unfold pixel_luminance, luminance_sum, JS.to_number. fold (byte_Z r) (byte_Z g) (byte_Z b).
    fold R G B. rewrite !number_of_Z by lia. reflexivity. }
  rewrite Es. unfold luminance_is_nearest in H. cbv zeta in H.
  set (s := luminance_sum _ _ _) in *.
  change 2126%uint63 with (Uint63.of_Z 2126) in H.
  change 7152%uint63 with (Uint63.of_Z 7152) in H.
  change 722%uint63 with (Uint63.of_Z 722) in H.
  change 5000%uint63 with (Uint63.of_Z 5000) in H.
  change 10000%uint63 with (Uint63.of_Z 10000) in H.
  change 1%uint63 with (Uint63.of_Z 1) in H.
  assert (He : (0 <= weighted_sum R G B <= 2550000)%Z) by (unfold weighted_sum; lia).
  rewrite !int_mul in H by lia.
  rewrite !(int_add (2126 * R)), !(int_add (2126 * R + 7152 * G)) in H by lia.
  fold (weighted_sum R G B) in H.
  pose proof (Z.mod_pos_bound (weighted_sum R G B) 10000 ltac:(lia)) as Hmod.
  rewrite !int_add, !int_div, int_mod, int_eqb in H by lia.
  fold (exact_luminance R G B) in H.
  assert (HK : (0 <= exact_luminance R G B <= 255)%Z).
  { unfold exact_luminance. split; [apply Z.div_pos; lia |].
    apply Z.lt_succ_r. apply Z.div_lt_upper_bound; lia. }
  apply orb_true_iff in H as [H | H].
  - left. apply rounds_to_sound; [lia | assumption].
  - right. apply andb_true_iff in H as [Ht H]. apply Z.eqb_eq in Ht.
    assert (1 <= exact_luminance R G B)%Z.
    { unfold exact_luminance. apply Z.div_le_lower_bound; [lia |].
      pose proof (Z.div_mod (weighted_sum R G B) 10000 ltac:(lia)).
      pose proof (Z.div_pos (weighted_sum R G B) 10000). lia. }
    rewrite int_sub in H by lia.
    split; [exact Ht |]. apply rounds_to_sound; [lia | assumption].
Qed.

End LuminanceNearest.

Section LuminanceTheorem.
#[local] Open Scope Z_scope.

(** The double-precision sum can fall just below a tie that the exact sum
    reaches: for the pixel (0, 14, 76) the exact sum is 15.5, which rounds
    to 16, the sum of doubles is 15.499999999999998, and the computed
    luminance is 15. *)
Lemma luminance_tie_below :
  weighted_sum 0 14 76 = 155000 ∧
  exact_luminance (byte_Z "000") (byte_Z "014") (byte_Z "076") = 16 ∧
  pixel_luminance (Some "000"%byte) (Some "014"%byte) (Some "076"%byte) = JS.Int 15 ∧
  pixel_luminance (Some "000"%byte) (Some "014"%byte) (Some "076"%byte)
    ≠ JS.Int (exact_luminance (byte_Z "000") (byte_Z "014") (byte_Z "076")).
Proof.
  split; [reflexivity |]. split; [reflexivity |].
  assert (E : pixel_luminance (Some "000"%byte) (Some "014"%byte) (Some "076"%byte) = JS.Int 15)
    by (vm_compute; reflexivity).
  split; [exact E |]. rewrite E. discriminate.
Qed.

(** At another tie the sum of doubles reaches the tie and the luminance
    goes up: the exact sum of the pixel (0, 41, 44) is 32.5 and its computed
    luminance is 33. *)
Example luminance_tie_up :
  exact_tie (byte_Z "000") (byte_Z "041") (byte_Z "044") ∧
  pixel_luminance (Some "000"%byte) (Some "041"%byte) (Some "044"%byte)
    = JS.Int (exact_luminance (byte_Z "000") (byte_Z "041") (byte_Z "044")) ∧
  exact_luminance (byte_Z "000") (byte_Z "041") (byte_Z "044") = 33.
Proof. vm_compute. auto. Qed.

(** C4, as the code has it.  The luminance computed for a pixel of 8-bit
    channels is an integer from 0 to 255 that lies within 1/2 of the exact
    sum [0.2126 r + 0.7152 g + 0.0722 b] (here in units of 1/10000).  It is
    the exact sum rounded to the nearest integer, except that at an exact
    tie [k + 1/2] the sum of doubles may fall below the tie and give [k]
    instead of [k + 1].  White has luminance 255 and black has luminance 0. *)
Theorem luminance_nearest_integer (r g b : byte) :
  (∃ Y, pixel_luminance (Some r) (Some g) (Some b) = JS.Int Y ∧
        0 <= Y <= 255 ∧
        Z.abs (10000 * Y - weighted_sum (byte_Z r) (byte_Z g) (byte_Z b)) <= 5000 ∧
        (Y = exact_luminance (byte_Z r) (byte_Z g) (byte_Z b) ∨
         (exact_tie (byte_Z r) (byte_Z g) (byte_Z b) ∧
          Y = exact_luminance (byte_Z r) (byte_Z g) (byte_Z b) - 1))) ∧
  pixel_luminance (Some "255"%byte) (Some "255"%byte) (Some "255"%byte) = JS.Int 255 ∧
  pixel_luminance (Some "000"%byte) (Some "000"%byte) (Some "000"%byte) = JS.Int 0.
Proof.
  split; [| split; vm_compute; reflexivity].
  pose proof (byte_Z_range r) as Hr. pose proof (byte_Z_range g) as Hg.
  pose proof (byte_Z_range b) as Hb.
  pose proof (pixel_luminance_nearest r g b) as HN.
  unfold exact_luminance, exact_tie in *.
  remember (weighted_sum (byte_Z r) (byte_Z g) (byte_Z b)) as e eqn:Ee.
  assert (He : 0 <= e <= 2550000) by (subst e; unfold weighted_sum; lia).
  pose proof (Z.div_mod (e + 5000) 10000 ltac:(lia)) as Hdm.
  pose proof (Z.mod_pos_bound (e + 5000) 10000 ltac:(lia)) as Hmod.
  destruct HN as [E | [T E]]; rewrite E.
  - eexists. split; [reflexivity |]. split; [| split; [| left; reflexivity]]; lia.
  - pose proof (Z.div_mod e 10000 ltac:(lia)) as Hdm'.
    eexists. split; [reflexivity |].
    split; [| split; [| right; split; [exact T | reflexivity]]]; lia.
Qed.

End LuminanceTheorem.
